(** * The job execution pipeline of meerk40t, embedded and verified

    Three components of the repository are embedded here, each in a module
    named after its source file:

    - [Grbl]    : [meerk40t/grbl/controller.py], class [GrblController]
                  (two queues, the device buffer bookkeeping, the sender);
    - [Engrave] : [meerk40t/core/node/op_engrave.py],
                  [EngraveOpNode.as_cutobjects] (subpaths to cut groups);
    - [Newly]   : [meerk40t/newly/driver.py], class [NewlyDriver]
                  ([plot_start], [move_abs], [move_rel]).

    Python objects are records, methods are functions on an explicit state,
    exceptions are a result constructor, and what a method says to its
    collaborators (transport writes, log channels, signals) is appended to a
    trace of events.  [Py] holds the few pieces of Python semantics the
    three embeddings share. *)

From Stdlib Require Import ZArith Lia String Ascii List Bool QArith Reals Lra.
From stdpp Require Import base list.
Import ListNotations.

Local Open Scope string_scope.
Local Open Scope list_scope.

(** ** Python semantics shared by the embeddings *)

Module Py.

(** The exception classes the embedded code raises, catches or lets through.
    [ConnectionError] has the four subclasses of the Python hierarchy. *)
Inductive exn : Type :=
| IndexError
| ValueError
| ZeroDivisionError
| OSError
| ConnectionError
| BrokenPipeError
| ConnectionAbortedError
| ConnectionRefusedError
| ConnectionResetError.

(** [isinstance(e, ConnectionError)], what [except ConnectionError] tests. *)
Definition is_ConnectionError (e : exn) : bool :=
  match e with
  | ConnectionError | BrokenPipeError | ConnectionAbortedError
  | ConnectionRefusedError | ConnectionResetError => true
  | IndexError | ValueError | ZeroDivisionError | OSError => false
  end.

(** How a call ends: it returns [a], it raises [e], or it never returns
    ([Hang]: a loop that waits for something the environment never
    delivers).  The state reached is kept in all three cases. *)
Inductive outcome (S A : Type) : Type :=
| Ret (a : A) (s : S)
| Raise (e : exn) (s : S)
| Hang (s : S).
Arguments Ret {S A} a s.
Arguments Raise {S A} e s.
Arguments Hang {S A} s.

Definition M (S A : Type) : Type := S -> outcome S A.

Definition ret {S A} (a : A) : M S A := fun s => Ret a s.

Definition bind {S A B} (m : M S A) (k : A -> M S B) : M S B :=
  fun s =>
    match m s with
    | Ret a s' => k a s'
    | Raise e s' => Raise e s'
    | Hang s' => Hang s'
    end.

Definition raise {S A} (e : exn) : M S A := fun s => Raise e s.

Definition get {S} : M S S := fun s => Ret s s.

Definition modify {S} (f : S -> S) : M S unit := fun s => Ret tt (f s).

(** The state an outcome ends in. *)
Definition final {S A} (o : outcome S A) : S :=
  match o with
  | Ret _ s | Raise _ s | Hang s => s
  end.

(** [len(s)] of a string, as a Python integer. *)
Definition len (s : string) : Z := Z.of_nat (String.length s).

(** [needle in hay] on strings. *)
Fixpoint contains (needle hay : string) : bool :=
  String.prefix needle hay
  || match hay with
     | EmptyString => false
     | String _ rest => contains needle rest
     end.

(** [s[n:]]. *)
Fixpoint slice_from (n : nat) (s : string) : string :=
  match n, s with
  | O, _ => s
  | S n', String _ rest => slice_from n' rest
  | S _, EmptyString => EmptyString
  end.

(** [s.lower()] on the ASCII letters. *)
Definition lower_ascii (c : ascii) : ascii :=
  let n := nat_of_ascii c in
  if (65 <=? n)%nat && (n <=? 90)%nat then ascii_of_nat (n + 32) else c.

Fixpoint lower (s : string) : string :=
  match s with
  | EmptyString => EmptyString
  | String c rest => String (lower_ascii c) (lower rest)
  end.

(** Truth value of what [connection.read()] returns: [None] and the empty
    string are false. *)
Definition truthy (r : option string) : bool :=
  match r with
  | None => false
  | Some EmptyString => false
  | Some (String _ _) => true
  end.

(** [seq[i]] for a sequence of length [n]: the position read, counting a
    negative index from the end; [None] is [IndexError]. *)
Definition index (n : nat) (i : Z) : option nat :=
  if (0 <=? i)%Z && (i <? Z.of_nat n)%Z then Some (Z.to_nat i)
  else if (- Z.of_nat n <=? i)%Z && (i <? 0)%Z then Some (Z.to_nat (Z.of_nat n + i))
  else None.

End Py.

Notation "'let*' x ':=' m 'in' k" := (Py.bind m (fun x => k))
  (at level 10, x name, m at level 100, k at level 200).
Notation "m ';;' k" := (Py.bind m (fun _ => k))
  (at level 100, k at level 200, right associativity).

(** ** The GRBL controller: [meerk40t/grbl/controller.py] *)

Module Grbl.
Import Py.

(** The transport behind [self.connection] ([SerialConnection] or
    [MockConnection]; neither is part of the embedded file).  The controller
    uses four members of it: [connected], [connect()], [read()] and
    [write(line)].  [can_connect] says whether [connect()] succeeds, and [rx]
    is what the successive [read()] calls return, in order; once [rx] is used
    up the device stays silent. *)
Record Connection : Type := {
  connected : bool;
  can_connect : bool;
  rx : list (option string)
}.

(** Where the sender thread stands in [_sending].  [Parked] is inside
    [self._lock.wait()], [Woken] is a parked thread after a [notify()],
    [Stuck] is a thread inside a read loop whose answer never comes. *)
Inductive thread : Type := AtLoopTop | Parked | Woken | Stuck.

(** The fields of [GrblController] that its methods read or write.
    [sending_thread = None] is Python's [None]; [buffer_mode] is
    [self.service.buffer_mode]. *)
Record GrblController : Type := {
  connection : Connection;
  sending_thread : option thread;
  _sending_queue : list string;
  _realtime_queue : list string;
  commands_in_device_buffer : list string;
  buffered_characters : Z;
  device_buffer_size : Z;
  buffer_mode : string
}.

(** The call site of a [connection.write]: [_sending_realtime] or
    [_sending_single_line]. *)
Inductive queue_id : Type := Realtime | Normal.

(** An argument of [service.signal].  [VIntOf s] stands for the [error_num]
    of [_recv_response]: [int(s)], or [-1] when [int] raises [ValueError]. *)
Inductive sigval : Type :=
| VStr (s : string)
| VInt (z : Z)
| VBool (b : bool)
| VIntOf (s : string).

(** What the controller says to its collaborators. *)
Inductive event : Type :=
| Wrote (q : queue_id) (line : string)
    (* connection.write(line); self.send(line) *)
| Response (response : string)
    (* _recv_response: signal("serial;response", response); self.recv(response) *)
| Banner (response : string)
    (* open: self.channel(response); self.recv(response) *)
| Channel (msg : string)
    (* self.channel(msg) *)
| Console (msg : string)
    (* self.service.channel("console")(msg) *)
| Signal (name : string) (args : list sigval)
    (* self.service.signal(name, *args) *)
| Sleep.
    (* time.sleep(0.1) *)

Record St : Type := {
  self : GrblController;
  trace : list event
}.

Definition with_self (f : GrblController -> GrblController) (s : St) : St :=
  {| self := f (self s); trace := trace s |}.

Definition set_connection (c : Connection) (g : GrblController) : GrblController :=
  {| connection := c;
     sending_thread := sending_thread g;
     _sending_queue := _sending_queue g;
     _realtime_queue := _realtime_queue g;
     commands_in_device_buffer := commands_in_device_buffer g;
     buffered_characters := buffered_characters g;
     device_buffer_size := device_buffer_size g;
     buffer_mode := buffer_mode g |}.

Definition set_sending_thread (t : option thread) (g : GrblController) : GrblController :=
  {| connection := connection g;
     sending_thread := t;
     _sending_queue := _sending_queue g;
     _realtime_queue := _realtime_queue g;
     commands_in_device_buffer := commands_in_device_buffer g;
     buffered_characters := buffered_characters g;
     device_buffer_size := device_buffer_size g;
     buffer_mode := buffer_mode g |}.

Definition set_sending_queue (q : list string) (g : GrblController) : GrblController :=
  {| connection := connection g;
     sending_thread := sending_thread g;
     _sending_queue := q;
     _realtime_queue := _realtime_queue g;
     commands_in_device_buffer := commands_in_device_buffer g;
     buffered_characters := buffered_characters g;
     device_buffer_size := device_buffer_size g;
     buffer_mode := buffer_mode g |}.

Definition set_realtime_queue (q : list string) (g : GrblController) : GrblController :=
  {| connection := connection g;
     sending_thread := sending_thread g;
     _sending_queue := _sending_queue g;
     _realtime_queue := q;
     commands_in_device_buffer := commands_in_device_buffer g;
     buffered_characters := buffered_characters g;
     device_buffer_size := device_buffer_size g;
     buffer_mode := buffer_mode g |}.

Definition set_in_flight (q : list string) (n : Z) (g : GrblController) : GrblController :=
  {| connection := connection g;
     sending_thread := sending_thread g;
     _sending_queue := _sending_queue g;
     _realtime_queue := _realtime_queue g;
     commands_in_device_buffer := q;
     buffered_characters := n;
     device_buffer_size := device_buffer_size g;
     buffer_mode := buffer_mode g |}.

Definition set_connected (b : bool) (c : Connection) : Connection :=
  {| connected := b; can_connect := can_connect c; rx := rx c |}.

Definition set_rx (l : list (option string)) (c : Connection) : Connection :=
  {| connected := connected c; can_connect := can_connect c; rx := l |}.

(** [GrblController.__init__]: [planning_buffer_size] and [buffer_mode] come
    from the service, the transport from the environment. *)
Definition init (c : Connection) (planning_buffer_size : Z) (mode : string) : St :=
  {| self :=
       {| connection := c;
          sending_thread := None;
          _sending_queue := [];
          _realtime_queue := [];
          commands_in_device_buffer := [];
          buffered_characters := 0;
          device_buffer_size := planning_buffer_size;
          buffer_mode := mode |};
     trace := [] |}.

Definition emit (e : event) : M St unit :=
  modify (fun s => {| self := self s; trace := trace s ++ [e] |}).

Definition emits (es : list event) : M St unit :=
  modify (fun s => {| self := self s; trace := trace s ++ es |}).

Definition update (f : GrblController -> GrblController) : M St unit :=
  modify (with_self f).

(** The [while True] loop of [open]: read until a line names the firmware.
    Returns the events of the lines read, what is left of [rx], and whether
    the loop returned (it does not when the device goes silent first). *)
Fixpoint await_banner (l : list (option string))
  : list event * list (option string) * bool :=
  match l with
  | [] => ([], [], false)
  | None :: l' => await_banner l'
  | Some response :: l' =>
      let here :=
        Banner response :: (if truthy (Some response) then [] else [Sleep]) in
      if contains "grbl" (lower response) then
        (here ++ [Channel "GRBL Connection Established."], l', true)
      else if contains "marlin" (lower response) then
        (here ++ [Channel "Marlin Connection Established."], l', true)
      else
        let '(es, l'', ok) := await_banner l' in (here ++ es, l'', ok)
  end.

(** [GrblController.open] *)
Definition open : M St unit :=
  let* s := get in
  if connected (connection (self s)) then ret tt
  else
    update (fun g => set_connection
                       (set_connected (can_connect (connection g)) (connection g)) g);;
    let* s := get in
    if negb (connected (connection (self s))) then
      emit (Channel "Could not connect.")
    else
      emit (Channel "Connecting to GRBL...");;
      let '(es, l, ok) := await_banner (rx (connection (self s))) in
      emits es;;
      update (fun g => set_connection (set_rx l (connection g)) g);;
      if ok then ret tt else (fun s => Hang s).

(** [GrblController.close] *)
Definition close : M St unit :=
  let* s := get in
  if connected (connection (self s)) then
    update (fun g => set_connection (set_connected false (connection g)) g)
  else ret tt.

(** [GrblController.start]: [service.threaded(self._sending, ...)] creates
    the sender thread, which begins at the top of the loop of [_sending]. *)
Definition start : M St unit :=
  open;;
  let* s := get in
  match sending_thread (self s) with
  | None => update (set_sending_thread (Some AtLoopTop))
  | Some _ => ret tt
  end.

(** [GrblController.stop] *)
Definition stop : M St unit :=
  update (set_sending_thread None);;
  close.

(** [self._lock.notify()]: a thread parked in [wait()] is woken. *)
Definition notify : M St unit :=
  update (fun g =>
            match sending_thread g with
            | Some Parked => set_sending_thread (Some Woken) g
            | _ => g
            end).

Definition signal_buffer : M St unit :=
  let* s := get in
  emit (Signal "serial;buffer"
          [VInt (Z.of_nat (length (_sending_queue (self s)))
                 + Z.of_nat (length (_realtime_queue (self s))))]).

(** [GrblController.write].  The three statements under [with self._lock]
    run as one step of the caller. *)
Definition write (data : string) : M St unit :=
  start;;
  emit (Signal "serial;write" [VStr data]);;
  update (fun g => set_sending_queue (_sending_queue g ++ [data]) g);;
  signal_buffer;;
  notify.

(** The cancel control code, [chr(0x18)]. *)
Definition cancel_code : string := String (ascii_of_nat 24) EmptyString.

(** [GrblController.realtime] *)
Definition realtime (data : string) : M St unit :=
  start;;
  emit (Signal "serial;write" [VStr data]);;
  update (fun g => set_realtime_queue (_realtime_queue g ++ [data]) g);;
  (if contains cancel_code data then update (set_sending_queue []) else ret tt);;
  signal_buffer;;
  notify.

(** The [while not response] loop of [_recv_response]: the first answer of
    the device that is neither [None] nor empty, and what is left to read
    after it.  [None] when the device goes silent first. *)
Fixpoint next_response (l : list (option string))
  : option (string * list (option string)) :=
  match l with
  | [] => None
  | r :: l' =>
      match r with
      | Some response =>
          if truthy r then Some (response, l') else next_response l'
      | None => next_response l'
      end
  end.

Definition hang {A} : M St A := fun s => Hang s.

(** [GrblController._recv_response].  It returns [True] after an ["ok"] and
    [None] otherwise. *)
Definition _recv_response : M St (option bool) :=
  let* s := get in
  match next_response (rx (connection (self s))) with
  | None =>
      update (fun g => set_connection (set_rx [] (connection g)) g);;
      hang
  | Some (response, l) =>
      update (fun g => set_connection (set_rx l (connection g)) g);;
      emit (Response response);;
      if String.eqb response "ok" then
        let* s := get in
        match commands_in_device_buffer (self s) with
        | line :: rest =>
            (* line = self.commands_in_device_buffer.pop(0)
               self.buffered_characters -= len(line) *)
            update (fun g => set_in_flight rest (buffered_characters g - len line) g);;
            emit (Channel (String.append "Response: " response));;
            ret (Some true)
        | [] =>
            (* pop(0) raised IndexError, which the except clause catches *)
            emit (Channel (String.append "Response: "
                             (String.append response ", but this was unexpected")));;
            raise ConnectionAbortedError
        end
      else if String.prefix "echo:" response then
        emit (Console (slice_from 5 response));;
        ret None
      else if String.prefix "ALARM" response then
        emit (Signal "warning"
                [VStr (String.append "GRBL: " response); VStr response; VInt 4]);;
        ret None
      else if String.prefix "error" response then
        emit (Signal "grbl;error" [VIntOf (slice_from 6 response); VStr response]);;
        emit (Channel (String.append "ERROR: " response));;
        ret None
      else
        emit (Channel (String.append "Data: " response));;
        ret None
  end.

(** [GrblController._sending_realtime] *)
Definition _sending_realtime : M St unit :=
  let* s := get in
  match _realtime_queue (self s) with
  | [] => raise IndexError
  | line :: rest =>
      emit (Wrote Realtime line);;
      update (set_realtime_queue rest)
  end.

(** [GrblController._sending_single_line] *)
Definition _sending_single_line : M St bool :=
  let* s := get in
  match _sending_queue (self s) with
  | [] => raise IndexError
  | line :: rest =>
      emit (Wrote Normal line);;
      update (fun g => set_in_flight (commands_in_device_buffer g ++ [line])
                         (buffered_characters g + len line) g);;
      emit (Signal "serial;buffer"
              [VInt (Z.of_nat (length (_sending_queue (self s))))]);;
      update (set_sending_queue rest);;
      ret true
  end.

(** [GrblController._length_of_next_line] *)
Definition _length_of_next_line (g : GrblController) : Z :=
  match _sending_queue g with
  | [] => 0
  | line :: _ => len line
  end.

Definition nonempty {A} (l : list A) : bool :=
  match l with [] => false | _ :: _ => true end.

(** A [while cond: body] loop run for at most [fuel] passes.  Each loop of
    the sender is given as many passes as it can make; the lemmas
    [realtime_loop_spec], [send_loop_spec] and [ack_loop_spec] below show
    that its condition is false whenever it returns. *)
Fixpoint while (fuel : nat) (cond : St -> bool) (body : M St unit) : M St unit :=
  match fuel with
  | O => ret tt
  | S n => fun s => if cond s then (body;; while n cond body) s else Ret tt s
  end.

(** [while self._realtime_queue: self._sending_realtime()] *)
Definition realtime_loop : M St unit :=
  let* s := get in
  while (length (_realtime_queue (self s)))
        (fun s => nonempty (_realtime_queue (self s)))
        _sending_realtime.

(** The condition of the second loop of [_sending_buffered]. *)
Definition room_for_next_line (g : GrblController) : bool :=
  nonempty (_sending_queue g)
  && (device_buffer_size g >? buffered_characters g + _length_of_next_line g)%Z.

(** [while self._sending_queue and self.device_buffer_size > (...):
       self._sending_single_line()] *)
Definition send_loop : M St unit :=
  let* s := get in
  while (length (_sending_queue (self s)))
        (fun s => room_for_next_line (self s))
        (_sending_single_line;; ret tt).

(** [while self.commands_in_device_buffer: self._recv_response()].  Every
    pass that returns has taken at least one element of [rx]. *)
Definition ack_loop : M St unit :=
  let* s := get in
  while (S (length (rx (connection (self s)))))
        (fun s => nonempty (commands_in_device_buffer (self s)))
        (_recv_response;; ret tt).

(** [GrblController._sending_buffered] *)
Definition _sending_buffered : M St unit :=
  realtime_loop;;
  send_loop;;
  ack_loop.

(** [GrblController._sending_sync] *)
Definition _sending_sync : M St unit :=
  realtime_loop;;
  let* s := get in
  if nonempty (_sending_queue (self s)) then
    _sending_single_line;;
    _recv_response;;
    ret tt
  else ret tt.

(** The mode test at the end of the loop body of [_sending]. *)
Definition dispatch : M St unit :=
  let* s := get in
  if String.eqb (buffer_mode (self s)) "sync" then _sending_sync
  else _sending_buffered.

(** One turn of the sender thread inside the loop body of [_sending], from
    where it stands to where it stands next.  A thread at the top of the
    loop either parks in [self._lock.wait()] (both queues empty) or runs the
    mode's pass; a woken thread resumes after [wait()] and runs the pass. *)
Definition _sending_turn (t : thread) : M St thread :=
  match t with
  | AtLoopTop =>
      emit (Signal "pipe;running" [VBool true]);;
      let* s := get in
      if negb (nonempty (_sending_queue (self s)))
         && negb (nonempty (_realtime_queue (self s)))
      then emit (Signal "pipe;running" [VBool false]);; ret Parked
      else dispatch;; ret AtLoopTop
  | Woken =>
      emit (Signal "pipe;running" [VBool true]);;
      dispatch;;
      ret AtLoopTop
  | Parked => ret Parked
  | Stuck => ret Stuck
  end.

(** Modelled from the spec: the end of the sender task.  The thread is
    created by [self.service.threaded(self._sending, ..., result=self.stop)],
    and [threaded] is not part of the embedded file.  By the spec the task
    that ends (its loop finds the transport closed, or an exception leaves
    [_sending]) is terminated, [stop()] "tears down the task reference and
    closes the transport", and "the connection must be reopened before
    retrying": the [result] callback [stop] runs. *)
Definition thread_ended (s : St) : St := final (stop s).

(** One turn of the sender thread as a step of the whole controller.  The
    test [while self.connection.connected] is made at the top of the loop.
    Nothing in [_sending] catches an exception. *)
Definition sender_turn (s : St) : St :=
  match sending_thread (self s) with
  | None => s
  | Some Parked => s
  | Some Stuck => s
  | Some t =>
      if match t with AtLoopTop => negb (connected (connection (self s))) | _ => false end
      then thread_ended s
      else
        match _sending_turn t s with
        | Ret t' s' => with_self (set_sending_thread (Some t')) s'
        | Raise _ s' => thread_ended s'
        | Hang s' => with_self (set_sending_thread (Some Stuck)) s'
        end
  end.

(** What can happen next to a controller: a caller's [write] or [realtime],
    or a turn of the sender thread. *)
Inductive action : Type :=
| CallWrite (data : string)
| CallRealtime (data : string)
| SenderTurn.

Definition step (a : action) (s : St) : St :=
  match a with
  | CallWrite data => final (write data s)
  | CallRealtime data => final (realtime data s)
  | SenderTurn => sender_turn s
  end.

(** A run of the controller under a schedule of actions. *)
Definition run (schedule : list action) (s : St) : St :=
  fold_left (fun s a => step a s) schedule s.

(** The methods of the controller, and [exec]: the state a call of one of
    them ends in, whether it returns, raises or never returns. *)
Inductive method : Type :=
| open_
| close_
| write_ (data : string)
| realtime_ (data : string)
| start_
| stop_
| _recv_response_
| _sending_realtime_
| _sending_single_line_
| _sending_buffered_
| _sending_sync_
| _sending_.

Definition exec (m : method) (s : St) : St :=
  match m with
  | open_ => final (open s)
  | close_ => final (close s)
  | write_ data => final (write data s)
  | realtime_ data => final (realtime data s)
  | start_ => final (start s)
  | stop_ => final (stop s)
  | _recv_response_ => final (_recv_response s)
  | _sending_realtime_ => final (_sending_realtime s)
  | _sending_single_line_ => final (_sending_single_line s)
  | _sending_buffered_ => final (_sending_buffered s)
  | _sending_sync_ => final (_sending_sync s)
  | _sending_ => sender_turn s
  end.


(** The sum of [len(x)] over a queue. *)
Definition total_len (l : list string) : Z :=
  fold_right (fun x acc => (len x + acc)%Z) 0%Z l.


(** The statements of the sender thread that assign to the controller, one
    constructor per kind of statement, each taken alone: whatever the
    sender does between two steps of another thread is a sequence of
    these. *)
Inductive sender_stmt : GrblController -> GrblController -> Prop :=
| stmt_realtime_pop g line rest :
    (* self._realtime_queue.pop(0) *)
    _realtime_queue g = line :: rest ->
    sender_stmt g (set_realtime_queue rest g)
| stmt_sending_pop g line rest :
    (* self._sending_queue.pop(0) *)
    _sending_queue g = line :: rest ->
    sender_stmt g (set_sending_queue rest g)
| stmt_buffer_append g line :
    (* self.commands_in_device_buffer.append(line) *)
    sender_stmt g (set_in_flight (commands_in_device_buffer g ++ [line])
                     (buffered_characters g) g)
| stmt_buffer_pop g line rest :
    (* self.commands_in_device_buffer.pop(0) *)
    commands_in_device_buffer g = line :: rest ->
    sender_stmt g (set_in_flight rest (buffered_characters g) g)
| stmt_count g n :
    (* self.buffered_characters += n, self.buffered_characters -= n *)
    sender_stmt g (set_in_flight (commands_in_device_buffer g) n g)
| stmt_read g l :
    (* self.connection.read() *)
    sender_stmt g (set_connection (set_rx l (connection g)) g).

(** Any number of statements of the sender. *)
Inductive sender_stmts : GrblController -> GrblController -> Prop :=
| stmts_none g : sender_stmts g g
| stmts_more g1 g2 g3 :
    sender_stmt g1 g2 -> sender_stmts g2 g3 -> sender_stmts g1 g3.

(** The lines a trace shows as written from one of the queues, in order. *)
Fixpoint written (q : queue_id) (tr : list event) : list string :=
  match tr with
  | [] => []
  | Wrote Realtime line :: rest =>
      match q with Realtime => line :: written q rest | Normal => written q rest end
  | Wrote Normal line :: rest =>
      match q with Normal => line :: written q rest | Realtime => written q rest end
  | _ :: rest => written q rest
  end.

(** The responses a trace shows as read by [_recv_response], in order. *)
Fixpoint responses (tr : list event) : list string :=
  match tr with
  | [] => []
  | Response r :: rest => r :: responses rest
  | _ :: rest => responses rest
  end.

(** The transport traffic of a trace: its writes and the responses read. *)
Definition is_io (e : event) : bool :=
  match e with
  | Wrote _ _ | Response _ => true
  | _ => false
  end.

Definition io (tr : list event) : list event := List.filter is_io tr.

(** Whether a line of the normal queue has been written and no response
    read since, given that this was so ([p]) before the trace. *)
Fixpoint pending_after (p : bool) (tr : list event) : bool :=
  match tr with
  | [] => p
  | Wrote Normal _ :: rest => pending_after true rest
  | Response _ :: rest => pending_after false rest
  | _ :: rest => pending_after p rest
  end.

(** No line of the normal queue is written while another one is pending:
    between two such writes a response is read. *)
Fixpoint alternates (p : bool) (tr : list event) : bool :=
  match tr with
  | [] => true
  | Wrote Normal _ :: rest => negb p && alternates true rest
  | Response _ :: rest => alternates false rest
  | _ :: rest => alternates p rest
  end.

(** How many lines from the front of the queue [q] a buffered pass sends
    when [n] characters are in flight: the next line goes out while the
    characters in flight and its length stay below the capacity. *)
Fixpoint sendable (capacity n : Z) (q : list string) : nat :=
  match q with
  | [] => O
  | line :: rest =>
      if (n + len line <? capacity)%Z
      then S (sendable capacity (n + len line) rest)
      else O
  end.

(** What [k] passes of the second loop of [_sending_buffered] say to the
    collaborators when the normal queue holds [q]. *)
Fixpoint send_events (q : list string) (k : nat) {struct k} : list event :=
  match k with
  | O => []
  | S k' =>
      match q with
      | [] => []
      | line :: rest =>
          Wrote Normal line
          :: Signal "serial;buffer" [VInt (Z.of_nat (length (line :: rest)))]
          :: send_events rest k'
      end
  end.

(** The state after the first [k] lines of the normal queue have gone from
    the queue to the device buffer. *)
Definition sent (k : nat) (s : St) : St :=
  let g := self s in
  let q := _sending_queue g in
  {| self := set_sending_queue (drop k q)
               (set_in_flight (commands_in_device_buffer g ++ take k q)
                  (buffered_characters g + total_len (take k q)) g);
     trace := trace s ++ send_events q k |}.

(** Reading the answers of the device until [n] of them were ["ok"]: the
    responses read (everything that is not [None] or empty) and what is left
    to read, or [None] when the device goes silent before the [n]-th
    ["ok"]. *)
Fixpoint drain (l : list (option string)) (n : nat) {struct l}
  : option (list string * list (option string)) :=
  match n with
  | O => Some ([], l)
  | S n' =>
      match l with
      | [] => None
      | r :: l' =>
          match r with
          | Some response =>
              if truthy r then
                option_map (fun '(rs, l'') => (response :: rs, l''))
                  (if String.eqb response "ok" then drain l' n' else drain l' n)
              else drain l' n
          | None => drain l' n
          end
      end
  end.

(** A method keeps a property of the state: the property holds in the state
    the call ends in, however it ends. *)
Definition keeps (P : St -> Prop) {A} (m : M St A) : Prop :=
  forall s, P s -> P (final (m s)).

(** Events that are neither a transport write nor a response read. *)
Definition quiet (es : list event) : Prop :=
  io es = []
  /\ (forall q, written q es = [])
  /\ (forall p, pending_after p es = p /\ alternates p es = true).

(** How many of the responses read are ["ok"]. *)
Definition oks (rs : list string) : nat :=
  length (List.filter (fun r => String.eqb r "ok") rs).





(** The state a sender statement sequence started in [g0] has reached. *)
Definition stmts_from (g0 : GrblController) (s : St) : Prop :=
  sender_stmts g0 (self s).

(** Example states.  A transport that is open and has one ["ok"] to
    deliver, and a controller with one line queued. *)
Definition example_connection : Connection :=
  {| connected := true; can_connect := true; rx := [Some "ok"] |}.


(** A controller in buffered mode whose next line would fill the device
    buffer exactly: 5 characters in flight, 5 more queued, capacity 10. *)
Definition example_full : St :=
  {| self :=
       {| connection := example_connection;
          sending_thread := Some AtLoopTop;
          _sending_queue := ["G1 Y2"];
          _realtime_queue := [];
          commands_in_device_buffer := ["G0 X1"];
          buffered_characters := 5;
          device_buffer_size := 10;
          buffer_mode := "buffered" |};
     trace := [] |}.



(** *** The life cycle and the queues over a run *)

(** The two tests [open] makes on a line it has read: the line names the
    firmware. *)
Definition names_firmware (response : string) : bool :=
  contains "grbl" (lower response) || contains "marlin" (lower response).

(** Some line the device is going to send names the firmware. *)
Definition announces (l : list (option string)) : bool :=
  existsb (fun r => match r with
                    | Some response => names_firmware response
                    | None => false
                    end) l.

(** How a call ended. *)
Definition raises {A} (o : outcome St A) : bool :=
  match o with Raise _ _ => true | _ => false end.

Definition returns {A} (o : outcome St A) : bool :=
  match o with Ret _ _ => true | _ => false end.

(** The queue a call site of [connection.write] takes its lines from. *)
Definition queue_of (q : queue_id) (g : GrblController) : list string :=
  match q with
  | Realtime => _realtime_queue g
  | Normal => _sending_queue g
  end.

(** The lines a schedule has handed to a queue: the [data] of its [write]
    calls (for the normal queue) or of its [realtime] calls (for the
    real-time queue) that returned, in order. *)
Fixpoint accepted (q : queue_id) (schedule : list action) (s : St) : list string :=
  match schedule with
  | [] => []
  | a :: rest =>
      match a, q with
      | CallWrite data, Normal => if returns (write data s) then [data] else []
      | CallRealtime data, Realtime => if returns (realtime data s) then [data] else []
      | _, _ => []
      end ++ accepted q rest (step a s)
  end.

(** The action is a [realtime] call that carries the cancel code. *)
Definition cancels (a : action) : bool :=
  match a with
  | CallRealtime data => contains cancel_code data
  | _ => false
  end.

(** Everything written from queue [q] so far, followed by what the queue
    still holds, is [w]. *)
Definition conserved (q : queue_id) (w : list string) (s : St) : Prop :=
  written q (trace s) ++ queue_of q (self s) = w.

(** A controller whose transport is closed and whose device, once
    connected, first sends an empty line and then its banner. *)
Definition example_closed : St :=
  init {| connected := false; can_connect := true;
          rx := [None; Some ""; Some "Grbl 1.1f ['$' for help]"; Some "ok"] |}
       20 "buffered".

(** A controller in buffered mode whose next line is as long as the whole
    device buffer. *)
Definition example_oversize : St :=
  {| self :=
       {| connection := example_connection;
          sending_thread := Some AtLoopTop;
          _sending_queue := ["G1 X10 Y10"; "G0 X0"];
          _realtime_queue := [];
          commands_in_device_buffer := [];
          buffered_characters := 0;
          device_buffer_size := 10;
          buffer_mode := "buffered" |};
     trace := [] |}.

(** A controller with a line queued and a line in flight, whose sender
    waits for a response, and whose device sends its banner when it is
    connected again. *)
Definition example_restart : St :=
  {| self :=
       {| connection :=
            {| connected := true; can_connect := true; rx := [Some "Grbl 1.1f"] |};
          sending_thread := Some Stuck;
          _sending_queue := ["G1 Y2"];
          _realtime_queue := [];
          commands_in_device_buffer := ["G0 X1"];
          buffered_characters := 5;
          device_buffer_size := 20;
          buffer_mode := "buffered" |};
     trace := [] |}.

(** A controller in synchronous mode whose device answers the first line
    with an error and the second with ["ok"]. *)
Definition example_sync_error : St :=
  {| self :=
       {| connection :=
            {| connected := true; can_connect := true;
               rx := [Some "error:20"; Some "ok"] |};
          sending_thread := Some AtLoopTop;
          _sending_queue := ["G7"; "G0 X1"];
          _realtime_queue := [];
          commands_in_device_buffer := [];
          buffered_characters := 0;
          device_buffer_size := 10;
          buffer_mode := "sync" |};
     trace := [] |}.


End Grbl.

(** ** The cut assembler: [meerk40t/core/node/op_engrave.py] *)

Module Engrave.

(** A point in device units. *)
Definition Point : Type := (Z * Z)%type.

Definition point_eqb (p q : Point) : bool :=
  (fst p =? fst q)%Z && (snd p =? snd q)%Z.

(** The path segments of [meerk40t.svgelements] that [as_cutobjects] tells
    apart with [isinstance].  [Arc] stands for a segment of any other class:
    no branch of the method takes it. *)
Inductive Segment : Type :=
| Move (start : option Point) (end_ : Point)
| Close (start end_ : Point)
| Line (start end_ : Point)
| QuadraticBezier (start control end_ : Point)
| CubicBezier (start control1 control2 end_ : Point)
| Arc (start end_ : Point).

Definition seg_start (seg : Segment) : option Point :=
  match seg with
  | Move st _ => st
  | Close st _ | Line st _ | QuadraticBezier st _ _
  | CubicBezier st _ _ _ | Arc st _ => Some st
  end.

Definition seg_end (seg : Segment) : Point :=
  match seg with
  | Move _ e | Close _ e | Line _ e | QuadraticBezier _ _ e
  | CubicBezier _ _ _ e | Arc _ e => e
  end.

(** [isinstance(seg, Close)] and [isinstance(seg, Move)] *)
Definition is_Close (seg : Segment) : bool :=
  match seg with Close _ _ => true | _ => false end.

Definition is_Move (seg : Segment) : bool :=
  match seg with Move _ _ => true | _ => false end.

(** Modelled from the spec: [Path.current_point] of [meerk40t.svgelements],
    which is not among the embedded files.  It is the "end point" of the
    subpath: where its last segment ends. *)
Definition current_point (sp : list Segment) : option Point :=
  option_map seg_end (List.last (map Some sp) None).

(** Modelled from the spec: [Path.z_point] of [meerk40t.svgelements], which
    is not among the embedded files.  It is the "start point" of the
    subpath, the point a closing segment returns to: the destination of the
    subpath's last [Move], and the start of its first segment when it has no
    [Move]. *)
Definition z_point (sp : list Segment) : option Point :=
  match List.find is_Move (rev sp) with
  | Some seg => Some (seg_end seg)
  | None =>
      match sp with
      | [] => None
      | seg :: _ => seg_start seg
      end
  end.

(** [abs(p - q) <= d] for two points: the Euclidean distance against the
    tolerance, decided on integers by comparing squares ([within_spec] below
    relates it to the square root). *)
Definition within (d : Z) (p q : Point) : bool :=
  (0 <=? d)%Z
  && ((fst p - fst q) * (fst p - fst q) + (snd p - snd q) * (snd p - snd q)
      <=? d * d)%Z.

(** The geometry a cut object is built from. *)
Inductive Shape : Type :=
| LineCut (start end_ : Point)
| QuadCut (start control end_ : Point)
| CubicCut (start control1 control2 end_ : Point).

(** A cut object.  [next] and [previous] refer to a member of the same
    group; a reference is the member's position in the group (each member is
    appended once, so two references are the same object exactly when the
    positions are equal), and [None] is Python's [None].  [settings] is the
    dictionary shared by every object of the operation, kept as a
    reference. *)
Record CutObject : Type := {
  shape : Shape;
  settings : nat;
  passes : Z;
  first : bool;
  last : bool;
  closed : bool;
  next : option nat;
  previous : option nat
}.

(** Modelled from the spec: the constructor of [LineCut], [QuadCut] and
    [CubicCut] ([meerk40t.core.cutcode] is not among the embedded files).
    A new cut object has its [first], [last] and [closed] flags unset and no
    [next] or [previous]. *)
Definition new_cut (sh : Shape) (op_settings : nat) (n_passes : Z) : CutObject :=
  {| shape := sh;
     settings := op_settings;
     passes := n_passes;
     first := false;
     last := false;
     closed := false;
     next := None;
     previous := None |}.

(** A cut group: the list of its members and the attributes
    [as_cutobjects] gives it. *)
Record CutGroup : Type := {
  members : list CutObject;
  group_closed : bool;
  group_settings : nat;
  group_passes : Z;
  path : list Segment;
  original_op : string
}.

Definition set_first (b : bool) (c : CutObject) : CutObject :=
  {| shape := shape c; settings := settings c; passes := passes c;
     first := b; last := last c; closed := closed c;
     next := next c; previous := previous c |}.

Definition set_last (b : bool) (c : CutObject) : CutObject :=
  {| shape := shape c; settings := settings c; passes := passes c;
     first := first c; last := b; closed := closed c;
     next := next c; previous := previous c |}.

Definition set_closed (b : bool) (c : CutObject) : CutObject :=
  {| shape := shape c; settings := settings c; passes := passes c;
     first := first c; last := last c; closed := b;
     next := next c; previous := previous c |}.

Definition set_next (r : option nat) (c : CutObject) : CutObject :=
  {| shape := shape c; settings := settings c; passes := passes c;
     first := first c; last := last c; closed := closed c;
     next := r; previous := previous c |}.

Definition set_previous (r : option nat) (c : CutObject) : CutObject :=
  {| shape := shape c; settings := settings c; passes := passes c;
     first := first c; last := last c; closed := closed c;
     next := next c; previous := r |}.

(** The chain of [isinstance] tests on one segment: the shape appended to
    the group, if any. *)
Definition cut_of_segment (seg : Segment) : option Shape :=
  match seg with
  | Move _ _ => None
  | Close st e => if negb (point_eqb st e) then Some (LineCut st e) else None
  | Line st e => if negb (point_eqb st e) then Some (LineCut st e) else None
  | QuadraticBezier st c e => Some (QuadCut st c e)
  | CubicBezier st c1 c2 e => Some (CubicCut st c1 c2 e)
  | Arc _ _ => None
  end.

(** [for seg in subpath: ... group.append(...)] *)
Fixpoint append_cuts (op_settings : nat) (n_passes : Z) (subpath : list Segment)
  : list CutObject :=
  match subpath with
  | [] => []
  | seg :: rest =>
      match cut_of_segment seg with
      | Some sh => new_cut sh op_settings n_passes :: append_cuts op_settings n_passes rest
      | None => append_cuts op_settings n_passes rest
      end
  end.

(** [if len(group) > 0: group[0].first = True] *)
Definition mark_first (group : list CutObject) : list CutObject :=
  match group with
  | [] => []
  | c :: rest => set_first true c :: rest
  end.

(** One pass of [for i, cut_obj in enumerate(group)].  [group[i + 1]] raises
    [IndexError] past the end, which the [except] clause catches;
    [group[0]] and [group[i - 1]] are outside the [try], and an
    [IndexError] from them would leave the method: the pass then yields
    [None]. *)
Definition wire_pass (is_closed : bool) (group : list CutObject) (i : nat)
  : option (list CutObject) :=
  let n := length group in
  cut_obj ← group !! i;
  let cut_obj := set_closed is_closed cut_obj in
  cut_obj ←
    match Py.index n (Z.of_nat i + 1) with
    | Some j => Some (set_next (Some j) cut_obj)
    | None =>
        j ← Py.index n 0;
        Some (set_next (Some j) (set_last true cut_obj))
    end;
  j ← Py.index n (Z.of_nat i - 1);
  Some (<[i := set_previous (Some j) cut_obj]> group).

(** The whole loop over [enumerate(group)]. *)
Definition wire (is_closed : bool) (group : list CutObject)
  : option (list CutObject) :=
  foldl (fun acc i => g ← acc; wire_pass is_closed g i)
        (Some group) (seq 0 (length group)).

(** What the body of [for subpath in path.as_subpaths()] does with one
    subpath: it skips it ([continue]), yields a group, or fails with an
    exception. *)
Inductive built : Type :=
| Skipped
| Yielded (g : CutGroup)
| Failed (e : Py.exn).

(** The test that sets [closed] for a subpath. *)
Definition closed_test (closed_distance : Z) (sp : list Segment) : bool :=
  match List.last (map Some sp) None, z_point sp, current_point sp with
  | Some seg, Some z, Some c => is_Close seg || within closed_distance z c
  | _, _, _ => false
  end.

Definition build_group (op_type : string) (op_settings : nat)
    (closed_distance n_passes : Z) (subpath : list Segment) : built :=
  match subpath with
  | [] => Skipped
  | _ :: _ =>
      let is_closed := closed_test closed_distance subpath in
      let group := mark_first (append_cuts op_settings n_passes subpath) in
      match wire is_closed group with
      | Some group' =>
          Yielded {| members := group';
                     group_closed := is_closed;
                     group_settings := op_settings;
                     group_passes := n_passes;
                     path := subpath;
                     original_op := op_type |}
      | None => Failed Py.IndexError
      end
  end.

(** A child of the operation after it has been resolved to a path and the
    path cut into subpaths ([path.as_subpaths()], of [meerk40t.svgelements]):
    the stroke of the path and its subpaths, each a list of segments. *)
Record Child : Type := {
  stroke : string;
  subpaths : list (list Segment)
}.

(** [EngraveOpNode.as_cutobjects]: the groups the generator yields, in
    order, up to the first exception if there is one. *)
Fixpoint yield_groups (op_type : string) (op_settings : nat)
    (closed_distance n_passes : Z) (sps : list (list Segment))
  : list CutGroup * option Py.exn :=
  match sps with
  | [] => ([], None)
  | sp :: rest =>
      match build_group op_type op_settings closed_distance n_passes sp with
      | Skipped => yield_groups op_type op_settings closed_distance n_passes rest
      | Failed e => ([], Some e)
      | Yielded g =>
          let '(gs, e) :=
            yield_groups op_type op_settings closed_distance n_passes rest in
          (g :: gs, e)
      end
  end.

Definition as_cutobjects (op_type : string) (op_settings : nat)
    (children : list Child) (closed_distance n_passes : Z)
  : list CutGroup * option Py.exn :=
  yield_groups op_type op_settings closed_distance n_passes
    (concat (map subpaths children)).

(** The default of the [closed_distance] argument. *)
Definition default_closed_distance : Z := 15.

(** How many members of a group carry a flag. *)
Definition count_flag (flag : CutObject -> bool) (group : list CutObject) : nat :=
  length (filter (fun c => flag c = true) group).

(** What the loop over [enumerate(group)] leaves in the member at position
    [i] of a group of [n] members: the [closed] flag, [next] (the following
    member, or the first one for the last member, which also gets its
    [last] flag), and [previous] (the preceding member, or the last one for
    the first member, [group[-1]]). *)
Definition wired (n : nat) (is_closed : bool) (i : nat) (c : CutObject) : CutObject :=
  let c := set_closed is_closed c in
  let c :=
    if (S i <? n)%nat then set_next (Some (S i)) c
    else set_next (Some O) (set_last true c) in
  set_previous (Some (if (i =? 0)%nat then (n - 1)%nat else (i - 1)%nat)) c.

(** The Euclidean distance of two points, as a real number. *)
Definition distance (p q : Point) : R :=
  sqrt (IZR ((fst p - fst q) * (fst p - fst q) + (snd p - snd q) * (snd p - snd q))).

(** Example subpaths: four lines that start at the origin and end 10 device
    units, or 20 device units, from it; and two lines that end far from
    where they started. *)
Definition contour_ending_at (e : Point) : list Segment :=
  [Move None (0, 0)%Z;
   Line (0, 0)%Z (100, 0)%Z;
   Line (100, 0)%Z (100, 100)%Z;
   Line (100, 100)%Z (0, 100)%Z;
   Line (0, 100)%Z e].

Definition open_corner : list Segment :=
  [Move None (0, 0)%Z; Line (0, 0)%Z (100, 0)%Z; Line (100, 0)%Z (100, 100)%Z].

Definition example_child : Child :=
  {| stroke := "blue"; subpaths := [open_corner; contour_ending_at (0, 10)%Z] |}.

(** *** The groups as a whole *)


(** A child whose path has an empty subpath, a subpath that only moves, and
    a subpath with a line of length zero, a curve that comes back to where
    it starts and a segment of another class. *)
Definition example_sparse : Child :=
  {| stroke := "red";
     subpaths :=
       [ [];
         [Move None (5, 5)%Z];
         [Move None (0, 0)%Z;
          Line (0, 0)%Z (0, 0)%Z;
          QuadraticBezier (0, 0)%Z (7, 7)%Z (0, 0)%Z;
          Arc (0, 0)%Z (3, 3)%Z] ] |}.

(** *** The node: colour attributes, classification, drag and drop *)

(** [x in l] for a list or tuple of strings. *)
Definition is_in (x : string) (l : list string) : bool :=
  existsb (String.eqb x) l.

(** [l.remove(x)]: the first occurrence of [x] is taken out; [None] is the
    [ValueError] of a list that does not hold [x]. *)
Fixpoint list_remove (x : string) (l : list string) : option (list string) :=
  match l with
  | [] => None
  | y :: rest =>
      if String.eqb x y then Some rest
      else option_map (cons y) (list_remove x rest)
  end.

(** [self._allowed_elements_dnd] and [self._allowed_elements], as
    [__init__] sets them. *)
Definition _allowed_elements_dnd : list string :=
  ["elem ellipse"; "elem path"; "elem polyline"; "elem rect"; "elem line"; "elem dot"].

Definition _allowed_elements : list string :=
  ["elem ellipse"; "elem path"; "elem polyline"; "elem rect"; "elem line"].

(** [self.allowed_attributes], as [__init__] sets it. *)
Definition initial_attributes : list string := ["stroke"].

(** [EngraveOpNode.has_color_attribute] *)
Definition has_color_attribute (attribute : string) (allowed_attributes : list string)
  : bool :=
  is_in attribute allowed_attributes.

(** [EngraveOpNode.add_color_attribute]: the list after the call. *)
Definition add_color_attribute (attribute : string) (allowed_attributes : list string)
  : list string :=
  if negb (is_in attribute allowed_attributes)
  then allowed_attributes ++ [attribute]
  else allowed_attributes.

(** [EngraveOpNode.remove_color_attribute]: the list after the call, or the
    exception that leaves it. *)
Definition remove_color_attribute (attribute : string) (allowed_attributes : list string)
  : list string + Py.exn :=
  if is_in attribute allowed_attributes then
    match list_remove attribute allowed_attributes with
    | Some l => inl l
    | None => inr Py.ValueError
    end
  else inl allowed_attributes.

(** A call of one of the two methods that change the list. *)
Inductive attribute_call : Type :=
| AddAttribute (attribute : string)
| RemoveAttribute (attribute : string).

Definition call_attribute (l : list string + Py.exn) (c : attribute_call)
  : list string + Py.exn :=
  match l with
  | inr e => inr e
  | inl l =>
      match c with
      | AddAttribute a => inl (add_color_attribute a l)
      | RemoveAttribute a => remove_color_attribute a l
      end
  end.

(** The list after the calls [cs] made on a new node. *)
Definition attributes_after (cs : list attribute_call) : list string + Py.exn :=
  fold_left call_attribute cs (inl initial_attributes).

(** What the node does to the tree: the calls it makes on the methods of
    [Node], which is not among the embedded files.  A node is named by a
    number. *)
Inductive tree_call : Type :=
| AddReference (node : nat) (pos : option Z)
| AppendChild (node : nat)
| InsertSibling (node : nat).

Section Node.

(** The class [Color] of [meerk40t.svgelements], which is not among the
    embedded files: the colours, [abs(c)], [c.argb], [Color.distance] and
    the equality of two colours. *)
Variable Color : Type.
Variable Color_abs : Color -> Color.
Variable Color_argb : Color -> option Z.
Variable Color_distance : Color -> Color -> Q.
Variable Color_eqb : Color -> Color -> bool.

(** [op_nodes] of [meerk40t.core.element_types], which is not among the
    embedded files. *)
Variable op_nodes : list string.

(** A node handed to [classify] or to [drop].  [attribute name] is
    [None] when [hasattr] is false, and [Some None] when the attribute is
    [None]; [reference_type] is [node.node.type], for a node of type
    ["reference"]; [flat_elements] is what [node.flat(elem_nodes)] gives,
    each with its type. *)
Record DragNode : Type := {
  node_id : nat;
  node_type : string;
  attribute : string -> option (option Color);
  reference_type : string;
  flat_elements : list (nat * string)
}.

(** The fields of the operation that [classify] reads. *)
Record Operation : Type := {
  allowed_attributes : list string;
  op_default : bool;
  stopop : bool;
  op_color : Color
}.

(** [EngraveOpNode.valid_node] *)
Definition valid_node (node : DragNode) : bool := true.

(** The local function [matching_color] of [classify]. *)
Definition matching_color (fuzzy : bool) (fuzzydistance : Q)
    (col1 col2 : option Color) : bool :=
  match col1, col2 with
  | None, None => true
  | Some c1, Some c2 =>
      match Color_argb c1, Color_argb c2 with
      | Some _, Some _ =>
          if fuzzy then
            match Qcompare (Color_distance c1 c2) fuzzydistance with
            | Lt => true
            | _ => false
            end
          else Color_eqb c1 c2
      | _, _ => false
      end
  | _, _ => false
  end.

(** [for attribute in self.allowed_attributes] of [classify]: whether some
    pass reaches the [return True, self.stopop]. *)
Fixpoint matching_attribute (op : Operation) (node : DragNode)
    (fuzzy : bool) (fuzzydistance : Q) (attributes : list string) : bool :=
  match attributes with
  | [] => false
  | a :: rest =>
      match attribute node a with
      | Some (Some col) =>
          if matching_color fuzzy fuzzydistance
               (Some (Color_abs (op_color op))) (Some (Color_abs col))
          then true
          else matching_attribute op node fuzzy fuzzydistance rest
      | _ => matching_attribute op node fuzzy fuzzydistance rest
      end
  end.

(** [EngraveOpNode.classify]: the pair it returns and the calls it makes on
    the tree. *)
Definition classify (op : Operation) (node : DragNode)
    (fuzzy : bool) (fuzzydistance : Q) (usedefault : bool)
  : (bool * bool) * list tree_call :=
  let classified :=
    ((true, stopop op),
     if valid_node node then [AddReference (node_id node) None] else []) in
  if is_in (node_type node) _allowed_elements then
    if negb (op_default op) then
      if (0 <? length (allowed_attributes op))%nat then
        if matching_attribute op node fuzzy fuzzydistance (allowed_attributes op)
        then classified
        else ((false, false), [])
      else classified
    else if op_default op && usedefault then
      if valid_node node then ((true, stopop op), []) else ((false, false), [])
    else ((false, false), [])
  else ((false, false), []).

(** [for e in drag_node.flat(elem_nodes)] of [drop]: the value of
    [some_nodes] at the end and the calls made. *)
Fixpoint drop_elements (modify : bool) (es : list (nat * string))
  : bool * list tree_call :=
  match es with
  | [] => (false, [])
  | (e, e_type) :: rest =>
      let '(some_nodes, calls) := drop_elements modify rest in
      if is_in e_type _allowed_elements_dnd then
        (true, (if modify then [AddReference e None] else []) ++ calls)
      else (some_nodes, calls)
  end.

(** [EngraveOpNode.drop]: what it returns and the calls it makes on the
    tree. *)
Definition drop (drag_node : DragNode) (modify : bool) : bool * list tree_call :=
  if String.prefix "elem" (node_type drag_node) then
    if negb (is_in (node_type drag_node) _allowed_elements_dnd) then (false, [])
    else (true, if modify then [AddReference (node_id drag_node) (Some 0%Z)] else [])
  else if String.eqb (node_type drag_node) "reference" then
    if negb (is_in (reference_type drag_node) _allowed_elements_dnd) then (false, [])
    else (true, if modify then [AppendChild (node_id drag_node)] else [])
  else if is_in (node_type drag_node) op_nodes then
    (true, if modify then [InsertSibling (node_id drag_node)] else [])
  else if is_in (node_type drag_node) ["file"; "group"] then
    drop_elements modify (flat_elements drag_node)
  else (false, []).

End Node.

Arguments node_id {Color} _.
Arguments node_type {Color} _.
Arguments attribute {Color} _ _.
Arguments reference_type {Color} _.
Arguments flat_elements {Color} _.
Arguments allowed_attributes {Color} _.
Arguments op_default {Color} _.
Arguments stopop {Color} _.
Arguments op_color {Color} _.
Arguments valid_node {Color} _.
Arguments matching_color {Color} _ _ _ _ _ _ _.
Arguments matching_attribute {Color} _ _ _ _ _ _ _ _ _.
Arguments classify {Color} _ _ _ _ _ _ _ _ _.
Arguments drop {Color} _ _ _.

(** Some call was made on the tree. *)
Definition any_call (calls : list tree_call) : bool :=
  match calls with [] => false | _ :: _ => true end.

(** Example nodes and operations, with numbers for colours. *)
Definition example_node (c : Z) : DragNode Z :=
  {| node_id := 7%nat;
     node_type := "elem rect";
     attribute := fun a => if String.eqb a "stroke" then Some (Some c)
                           else if String.eqb a "fill" then Some None
                           else None;
     reference_type := "";
     flat_elements := [] |}.

Definition example_operation (attributes : list string) : Operation Z :=
  {| allowed_attributes := attributes;
     op_default := false;
     stopop := true;
     op_color := 255%Z |}.


End Engrave.

(** ** The Newly driver: [meerk40t/newly/driver.py] *)

Module Newly.
Import Py.

Definition Point : Type := (Z * Z)%type.

(** The settings of a cut object that the driver reads: [settings.get("power")]. *)
Record Settings : Type := {
  power : option Q
}.

(** The cut objects [plot_start] tells apart with [isinstance].  A curve
    carries its method [point(t)] ([meerk40t.core.cutcode] is not among the
    embedded files); a plot carries the samples of [q.plot], each
    [(ox, oy, on, x, y)]; [RasterCut] stands for the final [else]. *)
Inductive Cut : Type :=
| LineCut (start end_ : Point) (settings : Settings)
| QuadCut (start : Point) (point : Q -> Point) (settings : Settings)
| CubicCut (start : Point) (point : Q -> Point) (settings : Settings)
| PlotCut (start : Point) (plot : list (Z * Z * Q * Z * Z)) (settings : Settings)
| DwellCut (dwell_time : Z)
| WaitCut (dwell_time : Z)
| HomeCut
| GotoCut
| OutputCut
| InputCut
| RasterCut.

(** The calls the driver makes on [self.connection], and [time.sleep(0.05)]. *)
Inductive call : Type :=
| ProgramMode
| RapidMode
| Abort
| Sync
| Update
| Goto (x y : Z)
| Mark (x y : Z) (settings : Settings) (mark_power : option Q)
| SetXY (x y : Z)
| Dwell (t : Z)
| Wait (t : Z)
| Raster
| Sleep.

Inductive Mode : Type := rapid | program.

(** Modelled from the spec: [NewlyController], the object behind
    [self.connection] ([meerk40t/newly/controller.py] is not among the
    embedded files).  By the spec the machine mode is one of rapid and
    program, initially rapid; the controller keeps the last known position
    ([_last_x], [_last_y]); and a transport-level error may be raised while
    a command is issued.  [calls] is the log of the calls made so far, and
    [faults k] is the exception the transport raises during call number [k],
    if any. *)
Record NewlyController : Type := {
  mode : Mode;
  _last_x : Z;
  _last_y : Z;
  calls : list call;
  faults : nat -> option exn
}.

(** Modelled from the spec: what a call that goes through does to the
    controller.  [program_mode()] and [rapid_mode()] switch the machine
    mode; after an abort the machine is in rapid mode ("after the pending
    list is exhausted (or aborted), return to rapid mode"); [goto], [mark]
    and [set_xy] move the last known position. *)
Definition effect (c : call) (con : NewlyController) : NewlyController :=
  match c with
  | ProgramMode =>
      {| mode := program; _last_x := _last_x con; _last_y := _last_y con;
         calls := calls con; faults := faults con |}
  | RapidMode | Abort =>
      {| mode := rapid; _last_x := _last_x con; _last_y := _last_y con;
         calls := calls con; faults := faults con |}
  | Goto x y | Mark x y _ _ | SetXY x y =>
      {| mode := mode con; _last_x := x; _last_y := y;
         calls := calls con; faults := faults con |}
  | Sync | Update | Dwell _ | Wait _ | Raster | Sleep => con
  end.

Definition log_call (c : call) (con : NewlyController) : NewlyController :=
  {| mode := mode con; _last_x := _last_x con; _last_y := _last_y con;
     calls := calls con ++ [c]; faults := faults con |}.

(** The part of [self.service] the driver reads. *)
Record Service : Type := {
  interpolate : Z;
  default_power : Q;
  swap_xy : bool;
  physical_to_device_position : string -> string -> Z * Z;
  physical_to_device_length : string -> string -> Z * Z
}.

(** What the other threads do to the flags [plot_start] polls.  The polls
    of one run are numbered from 0 (field [polls] below).  Before poll [k]
    an abort may have been requested ([abort_request k]) and the driver may
    have been paused ([pause_request k]); a paused driver that polls is
    resumed after [resume_after k] further sleeps, or never. *)
Record Env : Type := {
  abort_request : nat -> bool;
  pause_request : nat -> bool;
  resume_after : nat -> option nat
}.

(** The fields of [NewlyDriver] that the embedded methods use. *)
Record NewlyDriver : Type := {
  service : Service;
  connection : NewlyController;
  paused : bool;
  _aborting : bool;
  queue : list Cut;
  polls : nat
}.

Definition set_connection (con : NewlyController) (d : NewlyDriver) : NewlyDriver :=
  {| service := service d; connection := con; paused := paused d;
     _aborting := _aborting d; queue := queue d; polls := polls d |}.

Definition set_paused (b : bool) (d : NewlyDriver) : NewlyDriver :=
  {| service := service d; connection := connection d; paused := b;
     _aborting := _aborting d; queue := queue d; polls := polls d |}.

Definition set_aborting (b : bool) (d : NewlyDriver) : NewlyDriver :=
  {| service := service d; connection := connection d; paused := paused d;
     _aborting := b; queue := queue d; polls := polls d |}.

Definition set_queue (l : list Cut) (d : NewlyDriver) : NewlyDriver :=
  {| service := service d; connection := connection d; paused := paused d;
     _aborting := _aborting d; queue := l; polls := polls d |}.

Definition set_polls (n : nat) (d : NewlyDriver) : NewlyDriver :=
  {| service := service d; connection := connection d; paused := paused d;
     _aborting := _aborting d; queue := queue d; polls := n |}.

(** A call on [self.connection]: it is logged, and it either goes through
    or raises what the transport raises during it. *)
Definition con (c : call) : M NewlyDriver unit :=
  fun d =>
    let k := length (calls (connection d)) in
    let logged := log_call c (connection d) in
    match faults (connection d) k with
    | Some e => Raise e (set_connection logged d)
    | None => Ret tt (set_connection (effect c logged) d)
    end.

(** [time.sleep(0.05)] *)
Definition sleep : M NewlyDriver unit :=
  modify (fun d => set_connection (log_call Sleep (connection d)) d).

(** [try: m  except ConnectionError: pass] *)
Definition except_ConnectionError_pass (m : M NewlyDriver unit) : M NewlyDriver unit :=
  fun d =>
    match m d with
    | Raise e d' => if is_ConnectionError e then Ret tt d' else Raise e d'
    | r => r
    end.

(** [NewlyDriver.plot] *)
Definition plot (item : Cut) : M NewlyDriver unit :=
  modify (fun d => set_queue (queue d ++ [item]) d).

(** The lines under [# LOOP CHECKS] that test [self._aborting].  The result
    is [true] when [plot_start] returns there. *)
Definition check_aborting (env : Env) : M NewlyDriver bool :=
  let* d := get in
  let k := polls d in
  modify (fun d => set_polls (S k) (set_aborting (_aborting d || abort_request env k) d));;
  let* d := get in
  if _aborting d then
    con Abort;;
    modify (set_aborting false);;
    ret true
  else ret false.

Fixpoint sleeps (n : nat) : M NewlyDriver unit :=
  match n with
  | O => ret tt
  | S n' => sleep;; sleeps n'
  end.

(** [while self.paused: time.sleep(0.05)], at the poll numbered [k]. *)
Definition wait_while_paused (env : Env) (k : nat) : M NewlyDriver unit :=
  modify (fun d => set_paused (paused d || pause_request env k) d);;
  let* d := get in
  if paused d then
    match resume_after env k with
    | Some n => sleeps (S n);; modify (set_paused false)
    | None => fun d => Hang d
    end
  else ret tt.

(** [con.sync()], then [con.goto(x, y)] unless the last known position is
    the start of the cut. *)
Definition move_to_start (start : Point) : M NewlyDriver unit :=
  con Sync;;
  let* d := get in
  let '(x, y) := start in
  if negb (_last_x (connection d) =? x)%Z || negb (_last_y (connection d) =? y)%Z
  then con (Goto x y)
  else ret tt.

(** [for p in range(int(interp))] of the curve branch, with [n] passes left
    and the parameter at [t].  The result is [true] when [plot_start]
    returns from inside the loop. *)
Fixpoint sample_loop (env : Env) (n : nat) (point : Q -> Point)
    (settings : Settings) (t step_size : Q) : M NewlyDriver bool :=
  match n with
  | O => ret false
  | S n' =>
      let* d := get in
      let k := polls d in
      let* stop := check_aborting env in
      if stop then ret true
      else
        wait_while_paused env k;;
        let '(x, y) := point t in
        con (Mark x y settings None);;
        sample_loop env n' point settings (t + step_size)%Q step_size
  end.

(** The curve branch of [plot_start], for [QuadCut] and [CubicCut].
    [step_size = 1.0 / float(interp)] raises [ZeroDivisionError] when
    [interp] is 0; the parameter [t] and [step_size], floats in the source,
    are exact rationals here. *)
Definition plot_curve (env : Env) (start : Point) (point : Q -> Point)
    (settings : Settings) : M NewlyDriver bool :=
  move_to_start start;;
  let* d := get in
  let interp := interpolate (service d) in
  if (interp =? 0)%Z then raise ZeroDivisionError
  else
    let step_size := (1 / inject_Z interp)%Q in
    let* stop := sample_loop env (Z.to_nat interp) point settings step_size step_size in
    if stop then ret true
    else con Update;; ret false.

(** [for ox, oy, on, x, y in q.plot] of the plot branch. *)
Fixpoint plot_loop (env : Env) (samples : list (Z * Z * Q * Z * Z))
    (settings : Settings) (percent_power : Q) : M NewlyDriver bool :=
  match samples with
  | [] => ret false
  | (_, _, on, x, y) :: rest =>
      let* d := get in
      let k := polls d in
      let* stop := check_aborting env in
      if stop then ret true
      else
        wait_while_paused env k;;
        con (Mark x y settings (Some (percent_power * on)%Q));;
        con Update;;
        plot_loop env rest settings percent_power
  end.

(** The body of [for q in queue] after the loop checks: the chain of
    [isinstance] tests.  The result is [true] when [plot_start] returns
    from inside it. *)
Definition plot_item (env : Env) (q : Cut) : M NewlyDriver bool :=
  match q with
  | LineCut start (ex, ey) settings =>
      move_to_start start;;
      con (Mark ex ey settings None);;
      con Update;;
      ret false
  | QuadCut start point settings => plot_curve env start point settings
  | CubicCut start point settings => plot_curve env start point settings
  | PlotCut start samples settings =>
      move_to_start start;;
      let* d := get in
      let max_power :=
        match power settings with
        | Some p => p
        | None => default_power (service d)
        end in
      plot_loop env samples settings (max_power / 10)%Q
  | DwellCut t => con (Dwell t);; ret false
  | WaitCut t => con (Wait t);; ret false
  | HomeCut => con (Goto 0 0);; ret false
  | GotoCut => con (Goto 0 0);; ret false
  | OutputCut => ret false
  | InputCut => ret false
  | RasterCut => con Sync;; con Raster;; con Update;; ret false
  end.

(** [for q in queue] of [plot_start].  The result is [true] when
    [plot_start] returns from inside the loop. *)
Fixpoint plot_queue (env : Env) (items : list Cut) : M NewlyDriver bool :=
  match items with
  | [] => ret false
  | q :: rest =>
      con ProgramMode;;
      let* stop := check_aborting env in
      if stop then ret true
      else
        let* stop := plot_item env q in
        if stop then ret true
        else plot_queue env rest
  end.

(** [NewlyDriver.plot_start] *)
Definition plot_start (env : Env) : M NewlyDriver unit :=
  let* d := get in
  let items := queue d in
  modify (set_queue []);;
  let* stop := plot_queue env items in
  if stop then ret tt
  else con RapidMode.

(** [NewlyDriver.move_abs] *)
Definition move_abs (x y : string) : M NewlyDriver unit :=
  let* d := get in
  let '(x, y) := if swap_xy (service d) then (y, x) else (x, y) in
  con Sync;;
  except_ConnectionError_pass
    (let '(ux, uy) := physical_to_device_position (service d) x y in
     con (SetXY ux uy));;
  con Update.

(** [NewlyDriver.move_rel] *)
Definition move_rel (dx dy : string) : M NewlyDriver unit :=
  let* d := get in
  let '(dx, dy) := if swap_xy (service d) then (dy, dx) else (dx, dy) in
  let '(unit_dx, unit_dy) := physical_to_device_length (service d) dx dy in
  con Sync;;
  except_ConnectionError_pass
    (let* d := get in
     con (SetXY (_last_x (connection d) + unit_dx) (_last_y (connection d) + unit_dy)));;
  con Update.

(** The calls of a log that are marks. *)
Definition is_mark (c : call) : bool :=
  match c with Mark _ _ _ _ => true | _ => false end.

Definition marks (l : list call) : list call := List.filter is_mark l.

(** The transport never fails. *)
Definition no_faults (con : NewlyController) : Prop :=
  forall k, faults con k = None.

(** What the transport does during the [n]-th call made from now on. *)
Definition issued (d : NewlyDriver) (n : nat) : option exn :=
  faults (connection d) (length (calls (connection d)) + n).


(** The mark call made for the sample at parameter [t]. *)
Definition mark_at (point : Q -> Point) (settings : Settings) (t : Q) : call :=
  let '(x, y) := point t in Mark x y settings None.

(** The polls numbered [k], ..., [k + n - 1] see no abort request and no
    pause that lasts for ever. *)
Definition undisturbed (env : Env) (k n : nat) : Prop :=
  forall j, (j < n)%nat ->
    abort_request env (k + j) = false /\ resume_after env (k + j) <> None.

(** From [d] to [d'] the driver has made the calls [new] and left the
    transport's behaviour, the service and the pending list alone. *)
Definition frame (d d' : NewlyDriver) (new : list call) : Prop :=
  calls (connection d') = calls (connection d) ++ new
  /\ faults (connection d') = faults (connection d)
  /\ service d' = service d
  /\ queue d' = queue d.

(** The driver after a call on the controller that went through. *)
Definition after (c : call) (d : NewlyDriver) : NewlyDriver :=
  set_connection (effect c (log_call c (connection d))) d.

(** The calls of a log that are [con.rapid_mode()]. *)
Definition is_rapid_mode (c : call) : bool :=
  match c with RapidMode => true | _ => false end.

Definition rapid_mode_calls (l : list call) : list call := List.filter is_rapid_mode l.

(** From [d] to [d'] the driver has made the calls [new], none of them
    [con.rapid_mode()], and polled [n] times; no abort request is left over
    and the machine mode is the same. *)
Definition progress (d d' : NewlyDriver) (new : list call) (n : nat) : Prop :=
  frame d d' new
  /\ polls d' = (polls d + n)%nat
  /\ _aborting d' = false
  /\ mode (connection d') = mode (connection d)
  /\ rapid_mode_calls new = [].

(** The last call of a log. *)
Definition last_call (l : list call) : option call :=
  List.last (map Some l) None.

(** A cut is a curve: a [QuadCut] or a [CubicCut]. *)
Definition curve_of (q : Cut) : option (Point * (Q -> Point) * Settings) :=
  match q with
  | QuadCut start point settings | CubicCut start point settings =>
      Some (start, point, settings)
  | _ => None
  end.

(** Examples.  A transport that never fails and one whose second call
    raises [ConnectionError]; a service with interpolation resolution 20;
    an environment that leaves the driver alone and one in which an abort
    is requested after the fifth sample of the first cut (poll 0 is the
    check of the cut itself, polls 1 to 5 precede the first five samples). *)
Definition example_controller (f : nat -> option exn) : NewlyController :=
  {| mode := rapid; _last_x := 0; _last_y := 0; calls := []; faults := f |}.

Definition example_service : Service :=
  {| interpolate := 20;
     default_power := 1000;
     swap_xy := false;
     physical_to_device_position := fun _ _ => (100, 200)%Z;
     physical_to_device_length := fun _ _ => (10, 20)%Z |}.

Definition example_cubic : Cut :=
  CubicCut (0, 0)%Z (fun t => (Qnum t, Z.pos (Qden t))) {| power := None |}.

Definition example_driver (f : nat -> option exn) (aborting : bool) : NewlyDriver :=
  {| service := example_service;
     connection := example_controller f;
     paused := false;
     _aborting := aborting;
     queue := [example_cubic];
     polls := 0 |}.

Definition calm : Env :=
  {| abort_request := fun _ => false;
     pause_request := fun _ => false;
     resume_after := fun _ => Some O |}.


Definition second_call_fails (k : nat) : option exn :=
  if (k =? 1)%nat then Some ConnectionError else None.

Definition third_call_fails (k : nat) : option exn :=
  if (k =? 2)%nat then Some ConnectionError else None.

(** *** What [plot_start] leaves behind *)




(** The calls of a log that are [con.update()]. *)
Definition is_update (c : call) : bool :=
  match c with Update => true | _ => false end.

Definition updates (l : list call) : list call := List.filter is_update l.

(** The cut objects [plot_start] executes with calls that depend on
    nothing but the object, and those calls. *)
Definition is_simple (q : Cut) : bool :=
  match q with
  | DwellCut _ | WaitCut _ | HomeCut | GotoCut | OutputCut | InputCut | RasterCut => true
  | _ => false
  end.

Definition simple_calls (q : Cut) : list call :=
  match q with
  | DwellCut t => [Dwell t]
  | WaitCut t => [Wait t]
  | HomeCut | GotoCut => [Goto 0 0]
  | RasterCut => [Sync; Raster; Update]
  | _ => []
  end.

(** The driver after [plot] has been called with each of [items], in
    order. *)
Definition plotted (items : list Cut) (d : NewlyDriver) : NewlyDriver :=
  fold_left (fun d q => final (plot q d)) items d.

(** The mark made for a sample of a [PlotCut]. *)
Definition plot_mark (settings : Settings) (percent_power : Q)
    (sample : Z * Z * Q * Z * Z) : call :=
  let '(_, _, on, x, y) := sample in
  Mark x y settings (Some (percent_power * on)%Q).

(** [float(q.settings.get("power", self.service.default_power))] *)
Definition max_power (settings : Settings) (d : NewlyDriver) : Q :=
  match power settings with
  | Some p => p
  | None => default_power (service d)
  end.

(** A driver with nothing pending and a transport that never fails. *)
Definition example_idle : NewlyDriver :=
  {| service := example_service;
     connection := example_controller (fun _ => None);
     paused := false;
     _aborting := false;
     queue := [];
     polls := 0 |}.

(** The calls that bring the head to the start of a cut: [con.sync()], and
    [con.goto(x, y)] unless the last known position is the start. *)
Definition approach (start : Point) (d : NewlyDriver) : list call :=
  Sync
  :: (if negb (_last_x (connection d) =? fst start)%Z
         || negb (_last_y (connection d) =? snd start)%Z
      then [Goto (fst start) (snd start)]
      else []).

(** The calls of a log apart from the sleeps of a pause. *)
Definition is_sleep (c : call) : bool :=
  match c with Sleep => true | _ => false end.

Definition awake (l : list call) : list call :=
  List.filter (fun c => negb (is_sleep c)) l.

(** No poll numbered [k], ..., [k + n - 1] sees an abort request. *)
Definition unaborted (env : Env) (k n : nat) : Prop :=
  forall j, (j < n)%nat -> abort_request env (k + j) = false.

(** Example cuts. *)
Definition example_line : Cut :=
  LineCut (0, 0)%Z (30, 40)%Z {| power := None |}.

Definition example_plot : Cut :=
  PlotCut (5, 5)%Z
    [(5%Z, 5%Z, 1%Q, 6%Z, 5%Z); (6%Z, 5%Z, 0%Q, 7%Z, 5%Z); (7%Z, 5%Z, (1 # 2)%Q, 8%Z, 5%Z)]
    {| power := Some 500%Q |}.

Definition example_job : list Cut :=
  [DwellCut 100%Z; OutputCut; GotoCut; WaitCut 50%Z; InputCut; HomeCut; RasterCut].

(** *** Pausing *)

(** The two calls [pause] and [resume] make on the controller. *)
Inductive control : Type := ConPause | ConResume.

(** The part of the driver that [pause], [resume] and [hold_work] use: the
    flag [self.paused], and the controller, of which the calls made so far
    and what the transport raises during call number [k] are kept. *)
Record Pausing : Type := {
  is_paused : bool;
  control_calls : list control;
  control_faults : nat -> option exn
}.

Definition set_is_paused (b : bool) (s : Pausing) : Pausing :=
  {| is_paused := b; control_calls := control_calls s;
     control_faults := control_faults s |}.

(** A call on the controller: it is logged, and it goes through or raises
    what the transport raises during it. *)
Definition con_control (c : control) : M Pausing unit :=
  fun s =>
    let logged :=
      {| is_paused := is_paused s; control_calls := control_calls s ++ [c];
         control_faults := control_faults s |} in
    match control_faults s (length (control_calls s)) with
    | Some e => Raise e logged
    | None => Ret tt logged
    end.

(** [NewlyDriver.hold_work] *)
Definition hold_work (priority : Z) (s : Pausing) : bool :=
  (priority <=? 0)%Z && is_paused s.

(** [NewlyDriver.resume] *)
Definition resume : M Pausing unit :=
  modify (set_is_paused false);;
  con_control ConResume.

(** [NewlyDriver.pause] *)
Definition pause : M Pausing unit :=
  let* s := get in
  if is_paused s then resume
  else
    modify (set_is_paused true);;
    con_control ConPause.

(** The driver after [n] calls of [pause], one after the other, whether
    they returned or raised. *)
Definition pauses (n : nat) (s : Pausing) : Pausing :=
  Nat.iter n (fun s => final (pause s)) s.

(** The device position [move_abs(x, y)] asks for, and the device length
    [move_rel(dx, dy)] adds. *)
Definition absolute_target (x y : string) (d : NewlyDriver) : Z * Z :=
  if swap_xy (service d)
  then physical_to_device_position (service d) y x
  else physical_to_device_position (service d) x y.

Definition relative_step (dx dy : string) (d : NewlyDriver) : Z * Z :=
  if swap_xy (service d)
  then physical_to_device_length (service d) dy dx
  else physical_to_device_length (service d) dx dy.


End Newly.

(** ** The reader of .ezd files: [meerk40t/extra/ezd.py] *)

Module Ezd.

(** A file open for reading: the bytes from the position of the file to
    its end. *)
Definition File : Type := list Byte.byte.

(** [file.read(n)]: at most [n] bytes, fewer when the file ends first. *)
Definition read (n : nat) (file : File) : list Byte.byte * File :=
  (take n file, drop n file).

(** [struct.unpack("<I", b)[0]]: four bytes, the least significant first;
    [None] is the [struct.error] raised for any other number of bytes. *)
Definition unpack_I (b : list Byte.byte) : option N :=
  match b with
  | [b0; b1; b2; b3] =>
      Some (Byte.to_N b0
            + 256 * (Byte.to_N b1 + 256 * (Byte.to_N b2 + 256 * Byte.to_N b3)))%N
  | _ => None
  end.

(** [for i in range(count)] of [_parse_struct], with [count] passes left
    and [p] the entries read so far.  [None] is a [struct.error]. *)
Fixpoint parse_entries (count : nat) (p : list (list Byte.byte)) (file : File)
  : option (list (list Byte.byte) * File) :=
  match count with
  | O => Some (p, file)
  | S count' =>
      let '(b, file) := read 4 file in
      if negb (length b =? 4)%nat then Some (p, file)
      else
        match unpack_I b with
        | None => None
        | Some len =>
            let '(b, file) := read (N.to_nat len) file in
            if negb (length b =? N.to_nat len)%nat then Some (p, file)
            else parse_entries count' (p ++ [b]) file
        end
  end.

(** [_parse_struct]: the list returned and the file after the call, or
    [None] for the [struct.error] of a file too short to hold the count. *)
Definition _parse_struct (file : File) : option (list (list Byte.byte) * File) :=
  let '(b, file) := read 4 file in
  match unpack_I b with
  | None => None
  | Some count => parse_entries (N.to_nat count) [] file
  end.

(** The byte of a number below 256, and [struct.pack("<I", n)]: the layout
    [unpack_I] reads. *)
Definition byte_of (n : N) : Byte.byte :=
  match Byte.of_N (n mod 256) with
  | Some b => b
  | None => Byte.x00
  end.

Definition pack_I (n : N) : list Byte.byte :=
  [byte_of n; byte_of (n / 256); byte_of (n / 65536); byte_of (n / 16777216)].

(** The layout [_parse_struct] reads: the number of entries, then each
    entry after its length. *)
Definition entry_bytes (e : list Byte.byte) : list Byte.byte :=
  pack_I (N.of_nat (length e)) ++ e.

Definition struct_bytes (entries : list (list Byte.byte)) : list Byte.byte :=
  pack_I (N.of_nat (length entries)) ++ concat (map entry_bytes entries).

(** The numbers [struct.pack("<I", n)] can write. *)
Definition fits_I (n : nat) : Prop := (N.of_nat n < 4294967296)%N.

Definition example_entries : list (list Byte.byte) :=
  [[Byte.x45; Byte.x5a]; []; [Byte.x01; Byte.x02; Byte.x03]].

(** *** The Huffman decoder *)

(** [struct.unpack("<H", b)[0]] and [struct.unpack("<BIH", b)]; [None] is
    the [struct.error] of a wrong number of bytes. *)
Definition unpack_H (b : list Byte.byte) : option N :=
  match b with
  | [b0; b1] => Some (Byte.to_N b0 + 256 * Byte.to_N b1)%N
  | _ => None
  end.

Definition unpack_BIH (b : list Byte.byte) : option (Byte.byte * N * N) :=
  match b with
  | [character; i0; i1; i2; i3; h0; h1] =>
      match unpack_I [i0; i1; i2; i3], unpack_H [h0; h1] with
      | Some bb, Some len => Some (character, bb, len)
      | _, _ => None
      end
  | _ => None
  end.

(** The binary digits of [n] that are worth less than [2^width], the least
    significant first; and ["{:032b}".format(n)], ["{:08b}".format(n)] for a
    number below [2^width]: [width] digits, the most significant first, a
    digit being [true] for ['1']. *)
Definition low_bits (width : nat) (n : N) : list bool :=
  map (fun i => N.testbit n (N.of_nat i)) (seq 0 width).

Definition format_b (width : nat) (n : N) : list bool := rev (low_bits width n).

(** [s[-k:]]: the last [k] elements of [s], and all of [s] when [k] is 0
    or more than [s] has. *)
Definition last_of {A} (k : nat) (s : list A) : list A :=
  if (k =? 0)%nat then s else drop (length s - k) s.

Fixpoint bits_eqb (a b : list bool) : bool :=
  match a, b with
  | [], [] => true
  | x :: a', y :: b' => Bool.eqb x y && bits_eqb a' b'
  | _, _ => false
  end.

(** [huffman_dict]: the bindings made, the latest first. *)
Definition dict : Type := list (list bool * Byte.byte).

(** [huffman_dict[bits] = character] *)
Definition dict_set (bits : list bool) (character : Byte.byte) (d : dict) : dict :=
  (bits, character) :: d.

(** [huffman_dict.get(c)] *)
Fixpoint dict_get (c : list bool) (d : dict) : option Byte.byte :=
  match d with
  | [] => None
  | (bits, character) :: rest =>
      if bits_eqb c bits then Some character else dict_get c rest
  end.

(** [for i in range(table_length)] of the decoder, with [n] passes left. *)
Fixpoint read_table (n : nat) (huffman_dict : dict) (file : File)
  : option (dict * File) :=
  match n with
  | O => Some (huffman_dict, file)
  | S n' =>
      let '(b, file) := read 7 file in
      match unpack_BIH b with
      | None => None
      | Some (character, bb, len) =>
          let bits := last_of (N.to_nat len) (format_b 32 bb) in
          read_table n' (dict_set bits character huffman_dict) file
      end
  end.

(** [for b in bit_generator()] of the decoder, with the digits still to
    come, the digits [c] read since the last character and the characters
    [q] decoded so far. *)
Fixpoint decode_bits (huffman_dict : dict) (uncompressed_length : Z)
    (bits c : list bool) (q : list Byte.byte) : list Byte.byte :=
  match bits with
  | [] => q
  | b :: rest =>
      let c := c ++ [b] in
      let '(q, c) :=
        match dict_get c huffman_dict with
        | Some m => (q ++ [m], [])
        | None => (q, c)
        end in
      if (Z.of_nat (length q) >=? uncompressed_length)%Z then q
      else decode_bits huffman_dict uncompressed_length rest c q
  end.

(** The digits [bit_generator] yields for [data]. *)
Definition bit_generator (data : list Byte.byte) : list bool :=
  concat (map (fun d => format_b 8 (Byte.to_N d)) data).

(** [_huffman_decode_python]; [None] is a [struct.error]. *)
Definition _huffman_decode_python (file : File) (uncompressed_length : Z)
  : option (list Byte.byte) :=
  let '(b, file) := read 2 file in
  match unpack_H b with
  | None => None
  | Some table_length =>
      match read_table (N.to_nat table_length) [] file with
      | None => None
      | Some (huffman_dict, data) =>
          Some (decode_bits huffman_dict uncompressed_length (bit_generator data) [] [])
      end
  end.

(** The number with the binary digits [bits], the least significant
    first or the most significant first. *)
Fixpoint of_low_bits (bits : list bool) : N :=
  match bits with
  | [] => 0
  | b :: rest => (N.b2n b + 2 * of_low_bits rest)%N
  end.

Definition of_bits (bits : list bool) : N := of_low_bits (rev bits).

(** [struct.pack("<H", n)], and the layout of the table the decoder reads:
    the number of codes, then for each code its character, the number its
    digits make and the number of its digits. *)
Definition pack_H (n : N) : list Byte.byte := [byte_of n; byte_of (n / 256)].

Definition code_bytes (code : Byte.byte * list bool) : list Byte.byte :=
  [fst code] ++ pack_I (of_bits (snd code)) ++ pack_H (N.of_nat (length (snd code))).

Definition table_bytes (codes : list (Byte.byte * list bool)) : list Byte.byte :=
  pack_H (N.of_nat (length codes)) ++ concat (map code_bytes codes).

(** The digits of a character under a table of codes, and of a message. *)
Fixpoint code_of (codes : list (Byte.byte * list bool)) (character : Byte.byte)
  : option (list bool) :=
  match codes with
  | [] => None
  | (ch, bits) :: rest =>
      if Byte.eqb ch character then Some bits else code_of rest character
  end.

Fixpoint encode (codes : list (Byte.byte * list bool)) (message : list Byte.byte)
  : option (list bool) :=
  match message with
  | [] => Some []
  | ch :: rest =>
      match code_of codes ch, encode codes rest with
      | Some bits, Some more => Some (bits ++ more)
      | _, _ => None
      end
  end.

(** A table the layout can hold and the decoder can tell apart: fewer than
    2^16 codes, each of 1 to 32 digits, none the beginning of another. *)
Definition begins (a b : list bool) : Prop := exists more, b = a ++ more.

Definition decodable (codes : list (Byte.byte * list bool)) : Prop :=
  (N.of_nat (length codes) < 65536)%N
  /\ Forall (fun code => (1 <= length (snd code) <= 32)%nat) codes
  /\ forall i j ci cj,
       codes !! i = Some ci -> codes !! j = Some cj ->
       begins (snd ci) (snd cj) -> i = j.

(** A table of three codes: 0, 10 and 11. *)
Definition example_codes : list (Byte.byte * list bool) :=
  [(Byte.x61, [false]); (Byte.x62, [true; false]); (Byte.x63, [true; true])].

End Ezd.

(** ** The console: [Console.py] *)

Module Console.

(** Text is a list of characters. *)
Definition text : Type := list ascii.

Definition newline : ascii := ascii_of_nat 10.
Definition carriage_return : ascii := ascii_of_nat 13.

(** ['exit\n'] *)
Definition exit_line : text := list_ascii_of_string "exit" ++ [newline].

(** What the console says and does to its collaborators: a line sent to the
    channel, data handed on to the delegate [self.pipe], a command run
    through [self.interface] with its responses sent to the channel (the
    parser of commands is not embedded), and the calls [self.schedule()] and
    [self.unschedule()] of the class [Module]. *)
Inductive event : Type :=
| Channel (line : text)
| PipeWrite (data : text)
| Interface (command : text)
| Schedule
| Unschedule.

(** The fields of [Console] that [write], [tick_command] and
    [untick_command] use.  A delegate is named by a number. *)
Record Console : Type := {
  pipe : option nat;
  buffer : text;
  commands : list text;
  said : list event
}.

(** [s.find(c)], for a character that [s] holds; [None] when it does
    not (Python's -1). *)
Fixpoint find (c : ascii) (s : text) : option nat :=
  match s with
  | [] => None
  | x :: rest => if Ascii.eqb x c then Some O else option_map S (find c rest)
  end.

(** [s.strip('\r')]: the carriage returns at both ends are taken off. *)
Fixpoint lstrip (s : text) : text :=
  match s with
  | [] => []
  | x :: rest => if Ascii.eqb x carriage_return then lstrip rest else s
  end.

Definition strip (s : text) : text := rev (lstrip (rev (lstrip s))).

(** [while '\n' in self.buffer] of [write], run for at most [fuel] passes:
    the commands handed to [self.interface], in order, and the buffer
    left. *)
Fixpoint take_lines (fuel : nat) (buffer : text) : list text * text :=
  match fuel with
  | O => ([], buffer)
  | S fuel' =>
      match find newline buffer with
      | None => ([], buffer)
      | Some pos =>
          let command := strip (take pos buffer) in
          let '(cs, b) := take_lines fuel' (drop (S pos) buffer) in
          (command :: cs, b)
      end
  end.

Definition text_eqb (a b : text) : bool :=
  String.eqb (string_of_list_ascii a) (string_of_list_ascii b).

(** [Console.write], for [data] that is a [str].  Every pass of the loop
    shortens the buffer, so the length of the buffer is fuel enough.  What
    a command run through [self.interface] does is part of its event and is
    not embedded ([loop] and [end] change [self.commands]): [commands] is
    the field as [write] itself leaves it. *)
Definition write (data : text) (c : Console) : Console :=
  if text_eqb data exit_line then
    {| pipe := None; buffer := buffer c; commands := commands c;
       said := said c ++ [Channel (list_ascii_of_string "Exited Mode." ++ [newline])] |}
  else
    match pipe c with
    | Some _ =>
        {| pipe := pipe c; buffer := buffer c; commands := commands c;
           said := said c ++ [PipeWrite data] |}
    | None =>
        let '(cs, b) := take_lines (length (buffer c ++ data)) (buffer c ++ data) in
        {| pipe := None; buffer := b; commands := commands c;
           said := said c ++ map Interface cs |}
    end.

(** [c != command] on texts. *)
Definition differs (command c : text) : bool := negb (text_eqb c command).

(** [Console.tick_command] *)
Definition tick_command (command : text) (c : Console) : Console :=
  {| pipe := pipe c; buffer := buffer c;
     commands := List.filter (differs command) (commands c) ++ [command];
     said := said c ++ [Schedule] |}.

(** [Console.untick_command] *)
Definition untick_command (command : text) (c : Console) : Console :=
  let kept := List.filter (differs command) (commands c) in
  {| pipe := pipe c; buffer := buffer c; commands := kept;
     said := said c ++ (if (length kept =? 0)%nat then [Unschedule] else []) |}.

(** [Console.__init__] *)
Definition init : Console :=
  {| pipe := None; buffer := []; commands := []; said := [] |}.

(** The command [end] without arguments of [interface_parse_command]:
    [self.commands.clear()], then [self.unschedule()]. *)
Definition end_all (c : Console) : Console :=
  {| pipe := pipe c; buffer := buffer c; commands := [];
     said := said c ++ [Unschedule] |}.

(** What changes [self.commands]: a call of one of the two methods, or the
    command [end] without arguments. *)
Inductive ticking : Type :=
| Tick (command : text)
| Untick (command : text)
| EndAll.

Definition tick (c : Console) (t : ticking) : Console :=
  match t with
  | Tick command => tick_command command c
  | Untick command => untick_command command c
  | EndAll => end_all c
  end.

(** The console after the calls [ts] made on a new one. *)
Definition ticked (ts : list ticking) : Console := fold_left tick ts init.

(** The text of a string. *)
Definition t (s : string) : text := list_ascii_of_string s.

End Console.


(** ** Facts about the GRBL controller *)

Module GrblFacts.
Import Py Grbl.

(** *** Reasoning about what a method keeps *)

Lemma keeps_bind P A B (m : M St A) (k : A -> M St B) :
  keeps P m -> (forall a, keeps P (k a)) -> keeps P (bind m k).
Proof.
  intros Hm Hk s Hs. unfold bind. specialize (Hm s Hs).
  destruct (m s) as [a s'|e s'|s']; simpl in *; auto. apply Hk; auto.
Qed.

Lemma keeps_ret P A (a : A) : keeps P (ret a).
Proof. intros s Hs; exact Hs. Qed.

Lemma keeps_get P : keeps P get.
Proof. intros s Hs; exact Hs. Qed.

Lemma keeps_raise P A e : keeps P (@raise St A e).
Proof. intros s Hs; exact Hs. Qed.

Lemma keeps_hang P A : keeps P (@hang A).
Proof. intros s Hs; exact Hs. Qed.

Lemma keeps_emits P es :
  (forall s, P s -> P {| self := self s; trace := trace s ++ es |}) ->
  keeps P (emits es).
Proof. intros H s Hs. apply H, Hs. Qed.

Lemma keeps_emit P e :
  (forall s, P s -> P {| self := self s; trace := trace s ++ [e] |}) ->
  keeps P (emit e).
Proof. intros H s Hs. apply H, Hs. Qed.

Lemma keeps_update (P : St -> Prop) f :
  (forall s, P s -> P (with_self f s)) -> keeps P (update f).
Proof. intros Hf s Hs. simpl. auto. Qed.

Lemma keeps_while P n cond body : keeps P body -> keeps P (while n cond body).
Proof.
  intros Hb. induction n as [|n IH]; simpl.
  - apply keeps_ret.
  - intros s Hs. destruct (cond s); [|exact Hs].
    apply (keeps_bind P _ _ body (fun _ => while n cond body)); auto.
Qed.

Ltac keeps_step :=
  match goal with
  | |- keeps _ (bind _ _) => apply keeps_bind; [|intros]
  | |- keeps _ (ret _) => apply keeps_ret
  | |- keeps _ get => apply keeps_get
  | |- keeps _ (raise _) => apply keeps_raise
  | |- keeps _ hang => apply keeps_hang
  | |- keeps _ (fun s => Hang s) => apply (keeps_hang _ unit)
  | |- keeps _ (emit _) => apply keeps_emit; intros
  | |- keeps _ (emits _) => apply keeps_emits; intros
  | |- keeps _ (while _ _ _) => apply keeps_while
  | |- keeps _ (update _) => apply keeps_update; intros
  | |- keeps _ (if ?b then _ else _) => destruct b
  | |- keeps _ (match ?x with _ => _ end) => destruct x
  end.

Ltac run_monad :=
  unfold bind, get, update, emit, emits, modify, ret, raise, hang, with_self; simpl.

(** *** The loops of the sender, step by step *)

Lemma while_step fuel cond body s s1 :
  cond s = true -> body s = Ret tt s1 ->
  while (S fuel) cond body s = while fuel cond body s1.
Proof. intros Hc Hb. simpl. rewrite Hc. unfold bind. rewrite Hb. reflexivity. Qed.

Lemma while_hang fuel cond body s s1 :
  cond s = true -> body s = Hang s1 ->
  while (S fuel) cond body s = Hang s1.
Proof. intros Hc Hb. simpl. rewrite Hc. unfold bind. rewrite Hb. reflexivity. Qed.

Lemma while_stop fuel cond body s :
  cond s = false -> while (S fuel) cond body s = Ret tt s.
Proof. intros Hc. simpl. rewrite Hc. reflexivity. Qed.

Lemma discard_ret {A} (m : M St A) s a s1 :
  m s = Ret a s1 -> (m;; ret tt) s = Ret tt s1.
Proof. intros H. unfold bind. rewrite H. reflexivity. Qed.

Lemma discard_hang {A} (m : M St A) s s1 :
  m s = Hang s1 -> (m;; ret tt) s = Hang s1.
Proof. intros H. unfold bind. rewrite H. reflexivity. Qed.

(** *** Traces *)

Lemma io_app a b : io (a ++ b) = io a ++ io b.
Proof. unfold io. apply List.filter_app. Qed.

Lemma written_app q a b : written q (a ++ b) = written q a ++ written q b.
Proof.
  induction a as [|e a IH]; [reflexivity|].
  destruct e as [[] line| | | | | |], q; simpl; rewrite ?IH; reflexivity.
Qed.

Lemma pending_after_app a : forall p b,
  pending_after p (a ++ b) = pending_after (pending_after p a) b.
Proof.
  induction a as [|e a IH]; intros p b; [reflexivity|].
  destruct e as [[] line| | | | | |]; simpl; apply IH.
Qed.

Lemma alternates_app a : forall p b,
  alternates p (a ++ b) = alternates p a && alternates (pending_after p a) b.
Proof.
  induction a as [|e a IH]; intros p b; [reflexivity|].
  destruct e as [[] line| | | | | |]; simpl; rewrite ?IH; try reflexivity.
  rewrite andb_assoc. reflexivity.
Qed.


Lemma written_normal_realtime l : written Normal (map (Wrote Realtime) l) = [].
Proof. induction l as [|x l IH]; simpl; [reflexivity|]. exact IH. Qed.


Lemma io_realtime_map l : io (map (Wrote Realtime) l) = map (Wrote Realtime) l.
Proof.
  induction l as [|x l IH]; [reflexivity|].
  unfold io in *. simpl. f_equal. exact IH.
Qed.

(** *** What one call of a sender method does *)

Lemma realtime_cons s line rest :
  _realtime_queue (self s) = line :: rest ->
  _sending_realtime s
  = Ret tt {| self := set_realtime_queue rest (self s);
              trace := trace s ++ [Wrote Realtime line] |}.
Proof. intros Hq. unfold _sending_realtime. run_monad. rewrite Hq. reflexivity. Qed.

Lemma single_line_cons s line rest :
  _sending_queue (self s) = line :: rest ->
  _sending_single_line s
  = Ret true
      {| self := set_sending_queue rest
                   (set_in_flight (commands_in_device_buffer (self s) ++ [line])
                      (buffered_characters (self s) + len line) (self s));
         trace := trace s
                  ++ [Wrote Normal line;
                      Signal "serial;buffer" [VInt (Z.of_nat (length (line :: rest)))]] |}.
Proof.
  intros Hq. unfold _sending_single_line. run_monad. rewrite Hq. simpl.
  rewrite <- app_assoc. reflexivity.
Qed.


Lemma recv_none s :
  next_response (rx (connection (self s))) = None ->
  _recv_response s
  = Hang {| self := set_connection (set_rx [] (connection (self s))) (self s);
            trace := trace s |}.
Proof. intros H. unfold _recv_response. run_monad. rewrite H. reflexivity. Qed.

Lemma recv_ok_cons s l line rest :
  next_response (rx (connection (self s))) = Some ("ok", l) ->
  commands_in_device_buffer (self s) = line :: rest ->
  _recv_response s
  = Ret (Some true)
      {| self := set_in_flight rest (buffered_characters (self s) - len line)
                   (set_connection (set_rx l (connection (self s))) (self s));
         trace := trace s ++ [Response "ok"; Channel "Response: ok"] |}.
Proof.
  intros H E. unfold _recv_response. run_monad. rewrite H. simpl. rewrite E. simpl.
  rewrite <- app_assoc. reflexivity.
Qed.


Lemma recv_other s r l :
  next_response (rx (connection (self s))) = Some (r, l) ->
  String.eqb r "ok" = false ->
  exists es,
    _recv_response s
    = Ret None {| self := set_connection (set_rx l (connection (self s))) (self s);
                  trace := trace s ++ Response r :: es |}
    /\ quiet es.
Proof.
  intros H E. unfold _recv_response. run_monad. rewrite H. simpl. rewrite E.
  destruct (String.prefix "echo:" r); [|destruct (String.prefix "ALARM" r);
    [|destruct (String.prefix "error" r)]]; simpl;
    eexists; (split; [rewrite <- ?app_assoc; simpl; reflexivity|]);
    (split; [reflexivity|split; [intros []; reflexivity|intros p; split; reflexivity]]).
Qed.

Lemma next_response_shorter l r l' :
  next_response l = Some (r, l') -> (length l' < length l)%nat.
Proof.
  induction l as [|x l IH]; simpl; [discriminate|].
  destruct x as [response|].
  - destruct (truthy (Some response)).
    + intros H; inversion H; subst. lia.
    + intros H. specialize (IH H). lia.
  - intros H. specialize (IH H). lia.
Qed.

(** *** The three loops *)

Lemma while_realtime q : forall s,
  _realtime_queue (self s) = q ->
  while (length q) (fun s => nonempty (_realtime_queue (self s))) _sending_realtime s
  = Ret tt {| self := set_realtime_queue [] (self s);
              trace := trace s ++ map (Wrote Realtime) q |}.
Proof.
  induction q as [|line rest IH]; intros s Hq; simpl.
  - unfold ret. f_equal. rewrite app_nil_r. destruct s as [g tr]; simpl in *.
    destruct g; simpl in *; subst; reflexivity.
  - rewrite Hq. simpl. unfold bind. rewrite (realtime_cons s line rest Hq).
    rewrite IH by reflexivity. simpl. rewrite <- app_assoc. reflexivity.
Qed.

Lemma realtime_loop_spec s :
  realtime_loop s
  = Ret tt {| self := set_realtime_queue [] (self s);
              trace := trace s ++ map (Wrote Realtime) (_realtime_queue (self s)) |}.
Proof. unfold realtime_loop. run_monad. apply while_realtime. reflexivity. Qed.

Lemma sent_0 s : sent 0 s = s.
Proof.
  destruct s as [g tr]. destruct g. unfold sent, set_sending_queue, set_in_flight. simpl.
  rewrite drop_0, !app_nil_r, Z.add_0_r. reflexivity.
Qed.

Lemma while_send q : forall s,
  _sending_queue (self s) = q ->
  while (length q) (fun s => room_for_next_line (self s)) (_sending_single_line;; ret tt) s
  = Ret tt (sent (sendable (device_buffer_size (self s)) (buffered_characters (self s)) q) s).
Proof.
  induction q as [|line rest IH]; intros s Hq.
  - simpl. rewrite sent_0. reflexivity.
  - cbn [length while sendable]. unfold room_for_next_line, _length_of_next_line.
    rewrite Hq. cbn [nonempty andb]. rewrite Z.gtb_ltb.
    destruct (_ <? _)%Z eqn:Hroom.
    + unfold bind at 1. unfold bind at 1. rewrite (single_line_cons s line rest Hq).
      unfold ret at 1. rewrite IH by reflexivity. f_equal.
      unfold sent, set_sending_queue, set_in_flight. simpl. rewrite Hq. simpl.
      rewrite <- !app_assoc. simpl. rewrite Z.add_assoc. reflexivity.
    + rewrite sent_0. reflexivity.
Qed.

Lemma send_loop_spec s :
  send_loop s
  = Ret tt (sent (sendable (device_buffer_size (self s)) (buffered_characters (self s))
                    (_sending_queue (self s))) s).
Proof. unfold send_loop. run_monad. apply while_send. reflexivity. Qed.

Lemma drain_0 l : drain l 0 = Some ([], l).
Proof. destruct l; reflexivity. Qed.

Lemma drain_next l n :
  drain l (S n)
  = match next_response l with
    | None => None
    | Some (r, l') =>
        option_map (fun '(rs, l'') => (r :: rs, l''))
          (if String.eqb r "ok" then drain l' n else drain l' (S n))
    end.
Proof.
  induction l as [|x l IH]; [reflexivity|].
  cbn [drain next_response]. destruct x as [response|]; [|exact IH].
  destruct (truthy (Some response)); [reflexivity|exact IH].
Qed.

Lemma while_ack fuel : forall s,
  (length (rx (connection (self s))) < fuel)%nat ->
  match drain (rx (connection (self s))) (length (commands_in_device_buffer (self s))) with
  | Some (rs, l') =>
      exists tr,
        while fuel (fun s => nonempty (commands_in_device_buffer (self s)))
          (_recv_response;; ret tt) s
        = Ret tt
            {| self := set_in_flight []
                         (buffered_characters (self s)
                          - total_len (commands_in_device_buffer (self s)))
                         (set_connection (set_rx l' (connection (self s))) (self s));
               trace := trace s ++ tr |}
        /\ io tr = map Response rs
  | None =>
      exists s',
        while fuel (fun s => nonempty (commands_in_device_buffer (self s)))
          (_recv_response;; ret tt) s = Hang s'
  end.
Proof.
  induction fuel as [|fuel IH]; intros s Hlen; [lia|].
  destruct (commands_in_device_buffer (self s)) as [|line rest] eqn:E.
  - rewrite while_stop by (rewrite E; reflexivity).
    cbn [length]. rewrite drain_0. exists []. split; [|reflexivity].
    unfold ret. f_equal. destruct s as [g tr]. destruct g as [c ? ? ? ? ? ? ?]. destruct c.
    simpl in *. subst. unfold set_in_flight, set_connection, set_rx. simpl.
    rewrite app_nil_r, Z.sub_0_r. reflexivity.
  - cbn [length]. rewrite drain_next.
    assert (Hc : (fun s => nonempty (commands_in_device_buffer (self s))) s = true)
      by (cbv beta; rewrite E; reflexivity).
    destruct (next_response (rx (connection (self s)))) as [[r l]|] eqn:Hn.
    2:{ eexists. apply while_hang; [exact Hc|].
        apply discard_hang. apply (recv_none s Hn). }
    pose proof (next_response_shorter _ _ _ Hn) as Hshort.
    destruct (String.eqb r "ok") eqn:Hok.
    + apply String.eqb_eq in Hok. subst r.
      rewrite (while_step fuel _ _ s _ Hc
                 (discard_ret _ _ _ _ (recv_ok_cons s l line rest Hn E))).
      match goal with |- context [while fuel _ _ ?s1] => specialize (IH s1) end.
      cbn [self trace set_in_flight set_connection set_rx connection rx
           commands_in_device_buffer buffered_characters] in IH.
      specialize (IH ltac:(lia)).
      destruct (drain l (length rest)) as [[rs l']|]; cbn [option_map].
      * destruct IH as [tr [Hw Hio]]. exists ([Response "ok"; Channel "Response: ok"] ++ tr).
        split.
        -- rewrite Hw. f_equal. unfold set_in_flight, set_connection, set_rx. cbn.
           rewrite <- app_assoc. f_equal. f_equal. unfold total_len. lia.
        -- rewrite io_app, Hio. reflexivity.
      * exact IH.
    + destruct (recv_other s r l Hn Hok) as [es [Hr [Hq _]]].
      rewrite (while_step fuel _ _ s _ Hc (discard_ret _ _ _ _ Hr)).
      match goal with |- context [while fuel _ _ ?s1] => specialize (IH s1) end.
      cbn [self trace set_in_flight set_connection set_rx connection rx
           commands_in_device_buffer buffered_characters] in IH.
      specialize (IH ltac:(lia)). rewrite E in IH. cbn [length] in IH.
      destruct (drain l (S (length rest))) as [[rs l']|]; cbn [option_map].
      * destruct IH as [tr [Hw Hio]]. exists ((Response r :: es) ++ tr).
        split.
        -- rewrite Hw. f_equal. unfold set_in_flight, set_connection, set_rx. cbn.
           rewrite <- app_assoc. reflexivity.
        -- rewrite io_app, Hio. cbn. unfold io in Hq. rewrite Hq. reflexivity.
      * exact IH.
Qed.

Lemma ack_loop_spec s :
  match drain (rx (connection (self s))) (length (commands_in_device_buffer (self s))) with
  | Some (rs, l') =>
      exists tr,
        ack_loop s
        = Ret tt
            {| self := set_in_flight []
                         (buffered_characters (self s)
                          - total_len (commands_in_device_buffer (self s)))
                         (set_connection (set_rx l' (connection (self s))) (self s));
               trace := trace s ++ tr |}
        /\ io tr = map Response rs
  | None => exists s', ack_loop s = Hang s'
  end.
Proof. unfold ack_loop. unfold bind, get. apply while_ack. lia. Qed.


(** *** The bookkeeping of the device buffer *)

Lemma total_len_app l1 l2 : total_len (l1 ++ l2) = (total_len l1 + total_len l2)%Z.
Proof. induction l1 as [|x l1 IH]; simpl; [reflexivity|]. rewrite IH. lia. Qed.























(** *** An ["ok"] with nothing in flight *)






(** *** A pass of the sender in buffered mode *)

Lemma io_send_events q : forall k,
  io (send_events q k) = map (Wrote Normal) (take k q).
Proof.
  induction q as [|line rest IH]; intros [|k]; try reflexivity.
  simpl. unfold io in *. simpl. f_equal. apply IH.
Qed.

Lemma sendable_le capacity q : forall n, (sendable capacity n q <= length q)%nat.
Proof.
  induction q as [|line rest IH]; intros n; simpl; [lia|].
  destruct (_ <? _)%Z; [specialize (IH (n + len line)%Z)|]; lia.
Qed.

Lemma sendable_fits capacity q : forall n i,
  (i < sendable capacity n q)%nat ->
  (n + total_len (take (S i) q) < capacity)%Z.
Proof.
  induction q as [|line rest IH]; intros n i Hi; simpl in Hi; [lia|].
  destruct (n + len line <? capacity)%Z eqn:E; [|lia].
  apply Z.ltb_lt in E. destruct i as [|i].
  - simpl. lia.
  - specialize (IH (n + len line)%Z i ltac:(lia)).
    cbn [take total_len fold_right] in *. unfold total_len in *. lia.
Qed.

Lemma sendable_stops capacity q : forall n line,
  q !! sendable capacity n q = Some line ->
  (capacity <= n + total_len (take (sendable capacity n q) q) + len line)%Z.
Proof.
  induction q as [|x rest IH]; intros n line Hl; simpl in *; [discriminate|].
  destruct (n + len x <? capacity)%Z eqn:E.
  - simpl in Hl. specialize (IH _ _ Hl). cbn [take total_len fold_right].
    unfold total_len in *. lia.
  - apply Z.ltb_ge in E. simpl in Hl. inversion Hl; subst. simpl. lia.
Qed.

Lemma drain_oks l : forall n rs l',
  drain l n = Some (rs, l') -> oks rs = n.
Proof.
  induction l as [|r l IH]; intros n rs l' H.
  - destruct n; simpl in H; [inversion H; reflexivity|discriminate].
  - destruct n as [|n]; [simpl in H; inversion H; reflexivity|].
    cbn [drain] in H. destruct r as [response|]; [|exact (IH _ _ _ H)].
    destruct (truthy (Some response)); [|exact (IH _ _ _ H)].
    destruct (String.eqb response "ok") eqn:Hok.
    + destruct (drain l n) as [[rs0 l0]|] eqn:Hd; [|discriminate].
      simpl in H. inversion H; subst. unfold oks. simpl. rewrite Hok. simpl.
      f_equal. exact (IH _ _ _ Hd).
    + destruct (drain l (S n)) as [[rs0 l0]|] eqn:Hd; [|discriminate].
      simpl in H. inversion H; subst. unfold oks. simpl. rewrite Hok.
      exact (IH _ _ _ Hd).
Qed.

(** C7, as the code has it.  A pass of [_sending_buffered] writes the whole
    real-time queue, then the first [k] lines of the normal queue, where the
    next line is sent while the characters in flight plus its length are
    strictly below [device_buffer_size] (a line that would fill the buffer
    exactly is not sent), then reads responses until as many ["ok"] have
    come as lines are in flight; it returns with nothing in flight, and it
    never returns when the device goes silent first. *)
Theorem buffered_pass_sends_while_strictly_below_capacity :
  forall s,
    let g := self s in
    let k := sendable (device_buffer_size g) (buffered_characters g) (_sending_queue g) in
    let in_flight := commands_in_device_buffer g ++ take k (_sending_queue g) in
    (forall i, (i < k)%nat ->
       (buffered_characters g + total_len (take (S i) (_sending_queue g))
        < device_buffer_size g)%Z)
    /\ (forall line, _sending_queue g !! k = Some line ->
          (device_buffer_size g
           <= buffered_characters g + total_len (take k (_sending_queue g)) + len line)%Z)
    /\ match drain (rx (connection g)) (length in_flight) with
       | Some (rs, l) =>
           exists s',
             _sending_buffered s = Ret tt s'
             /\ io (trace s')
                = io (trace s)
                  ++ map (Wrote Realtime) (_realtime_queue g)
                  ++ map (Wrote Normal) (take k (_sending_queue g))
                  ++ map Response rs
             /\ oks rs = length in_flight
             /\ _realtime_queue (self s') = []
             /\ _sending_queue (self s') = drop k (_sending_queue g)
             /\ commands_in_device_buffer (self s') = []
             /\ buffered_characters (self s')
                = (buffered_characters g - total_len (commands_in_device_buffer g))%Z
             /\ rx (connection (self s')) = l
       | None => exists s', _sending_buffered s = Hang s'
       end.
Proof.
  intros s g k in_flight.
  split; [intros i Hi; apply (sendable_fits _ _ _ _ Hi)|].
  split; [intros line Hl; apply (sendable_stops _ _ _ _ Hl)|].
  unfold _sending_buffered, bind. rewrite realtime_loop_spec, send_loop_spec.
  match goal with |- context [ack_loop ?s2] => pose proof (ack_loop_spec s2) as Hack end.
  cbn [self trace sent set_realtime_queue set_sending_queue set_in_flight
       connection rx commands_in_device_buffer buffered_characters
       device_buffer_size _sending_queue] in Hack.
  fold g in Hack. fold k in Hack. fold in_flight in Hack.
  destruct (drain (rx (connection g)) (length in_flight)) as [[rs l]|] eqn:Hd.
  - destruct Hack as [tr [Hw Hio]]. eexists. split; [exact Hw|].
    cbn [self trace set_in_flight set_connection set_rx connection rx
         _realtime_queue _sending_queue commands_in_device_buffer buffered_characters].
    repeat split.
    + rewrite !io_app, io_realtime_map, io_send_events, Hio, <- !app_assoc. reflexivity.
    + exact (drain_oks _ _ _ _ Hd).
    + unfold in_flight. rewrite total_len_app. lia.
  - exact Hack.
Qed.

(** C7 as the specification states it fails where the next line would fill the device
    buffer exactly: with 5 characters in flight, a line of 5 characters
    queued and a capacity of 10, the pass sends nothing and leaves the line
    in the queue. *)
Lemma line_filling_the_buffer_is_not_sent :
  (buffered_characters (self example_full) + _length_of_next_line (self example_full)
   = device_buffer_size (self example_full))%Z
  /\ room_for_next_line (self example_full) = false
  /\ written Normal (trace (final (_sending_buffered example_full))) = []
  /\ _sending_queue (self (final (_sending_buffered example_full))) = ["G1 Y2"].
Proof. repeat split. Qed.


(** *** A cancel on the real-time queue *)

Lemma open_connected s :
  connected (connection (self s)) = true -> open s = Ret tt s.
Proof. intros H. unfold open. run_monad. rewrite H. reflexivity. Qed.



Lemma stmts_snoc g1 g2 g3 :
  sender_stmts g1 g2 -> sender_stmt g2 g3 -> sender_stmts g1 g3.
Proof.
  induction 1 as [g|ga gb gc Hab Hbc IH]; intros H.
  - eapply stmts_more; [exact H|apply stmts_none].
  - eapply stmts_more; [exact Hab|apply IH, H].
Qed.





















(** Every method of the sender changes the controller by a sequence of the
    statements of [sender_stmt]. *)

Lemma stmts_recv g0 : keeps (stmts_from g0) _recv_response.
Proof.
  intros s Hs. unfold stmts_from in *. unfold _recv_response. run_monad.
  destruct (next_response _) as [[response l]|]; simpl.
  2:{ eapply stmts_snoc; [exact Hs|]. apply stmt_read. }
  assert (H1 : sender_stmts g0 (set_connection (set_rx l (connection (self s))) (self s)))
    by (eapply stmts_snoc; [exact Hs|apply stmt_read]).
  destruct (String.eqb response "ok"); simpl.
  - destruct (commands_in_device_buffer (self s)) as [|line rest] eqn:E; simpl;
      [exact H1|].
    eapply stmts_snoc; [eapply stmts_snoc; [exact H1|]|].
    + apply (stmt_buffer_pop _ line rest). simpl. exact E.
    + exact (stmt_count
               (set_in_flight rest
                  (buffered_characters
                     (set_connection (set_rx l (connection (self s))) (self s)))
                  (set_connection (set_rx l (connection (self s))) (self s)))
               (buffered_characters (self s) - len line)%Z).
  - repeat (match goal with |- context [if ?b then _ else _] => destruct b end; simpl);
      exact H1.
Qed.

Lemma stmts_sending_realtime g0 : keeps (stmts_from g0) _sending_realtime.
Proof.
  intros s Hs. unfold stmts_from in *. unfold _sending_realtime. run_monad.
  destruct (_realtime_queue (self s)) as [|line rest] eqn:E; simpl; [exact Hs|].
  eapply stmts_snoc; [exact Hs|]. apply (stmt_realtime_pop _ line rest E).
Qed.

Lemma stmts_single_line g0 : keeps (stmts_from g0) _sending_single_line.
Proof.
  intros s Hs. unfold stmts_from in *. unfold _sending_single_line. run_monad.
  destruct (_sending_queue (self s)) as [|line rest] eqn:E; simpl; [exact Hs|].
  eapply stmts_snoc; [eapply stmts_snoc; [eapply stmts_snoc; [exact Hs|]|]|].
  - exact (stmt_buffer_append (self s) line).
  - exact (stmt_count
             (set_in_flight (commands_in_device_buffer (self s) ++ [line])
                (buffered_characters (self s)) (self s))
             (buffered_characters (self s) + len line)%Z).
  - exact (stmt_sending_pop
             (set_in_flight (commands_in_device_buffer (self s) ++ [line])
                (buffered_characters (self s) + len line) (self s))
             line rest E).
Qed.

Lemma stmts_buffered g0 : keeps (stmts_from g0) _sending_buffered.
Proof.
  unfold _sending_buffered, realtime_loop, send_loop, ack_loop.
  repeat keeps_step;
    auto using stmts_recv, stmts_sending_realtime, stmts_single_line.
Qed.

Lemma stmts_sync g0 : keeps (stmts_from g0) _sending_sync.
Proof.
  unfold _sending_sync, realtime_loop.
  repeat keeps_step;
    auto using stmts_recv, stmts_sending_realtime, stmts_single_line.
Qed.

Lemma sender_methods_are_statements m s :
  m = _recv_response_ \/ m = _sending_realtime_ \/ m = _sending_single_line_
  \/ m = _sending_buffered_ \/ m = _sending_sync_ ->
  sender_stmts (self s) (self (exec m s)).
Proof.
  assert (H0 : stmts_from (self s) s) by apply stmts_none.
  intros [H|[H|[H|[H|H]]]]; subst m; simpl.
  - exact (stmts_recv _ s H0).
  - exact (stmts_sending_realtime _ s H0).
  - exact (stmts_single_line _ s H0).
  - exact (stmts_buffered _ s H0).
  - exact (stmts_sync _ s H0).
Qed.


(** *** Synchronous mode *)

Lemma quiet_nil : quiet [].
Proof. split; [reflexivity|]. split; [intros []; reflexivity|]. intros p; split; reflexivity. Qed.

Lemma quiet_app a b : quiet a -> quiet b -> quiet (a ++ b).
Proof.
  intros [Ha1 [Ha2 Ha3]] [Hb1 [Hb2 Hb3]]. split; [|split].
  - rewrite io_app. unfold io in *. rewrite Ha1, Hb1. reflexivity.
  - intros q. rewrite written_app, Ha2, Hb2. reflexivity.
  - intros p. rewrite pending_after_app, alternates_app.
    destruct (Ha3 p) as [Hp Ha]. rewrite Hp, Ha.
    destruct (Hb3 p) as [Hp' Hb]. rewrite Hp', Hb. split; reflexivity.
Qed.

Lemma quiet_one e :
  is_io e = false -> quiet [e].
Proof.
  intros H. destruct e as [q line| | | | | |]; try discriminate;
    (split; [reflexivity|]); (split; [intros []; reflexivity|]);
    intros p; split; reflexivity.
Qed.

Lemma await_banner_quiet l : forall es l' ok,
  await_banner l = (es, l', ok) -> quiet es.
Proof.
  induction l as [|r l IH]; intros es l' ok H; simpl in H.
  - inversion H. apply quiet_nil.
  - destruct r as [response|]; [|exact (IH _ _ _ H)].
    assert (Hh : quiet (Banner response
                         :: (if truthy (Some response) then [] else [Sleep]))).
    { destruct (truthy (Some response));
        [apply (quiet_one (Banner response)); reflexivity|].
      apply (quiet_app [Banner response] [Sleep]); apply quiet_one; reflexivity. }
    destruct (contains "grbl" (lower response)).
    { inversion H; subst.
      apply (quiet_app (_ :: _) [_]); [exact Hh|apply quiet_one; reflexivity]. }
    destruct (contains "marlin" (lower response)).
    { inversion H; subst.
      apply (quiet_app (_ :: _) [_]); [exact Hh|apply quiet_one; reflexivity]. }
    destruct (await_banner l) as [[es0 l0] ok0] eqn:E.
    inversion H; subst. apply (quiet_app (_ :: _) es0); [exact Hh|].
    exact (IH _ _ _ eq_refl).
Qed.












Lemma sync_cons s line rest :
  _sending_queue (self s) = line :: rest ->
  _sending_sync s
  = (_recv_response;; ret tt)
      {| self := set_sending_queue rest
                   (set_in_flight (commands_in_device_buffer (self s) ++ [line])
                      (buffered_characters (self s) + len line)
                      (set_realtime_queue [] (self s)));
         trace := (trace s ++ map (Wrote Realtime) (_realtime_queue (self s)))
                  ++ [Wrote Normal line;
                      Signal "serial;buffer" [VInt (Z.of_nat (length (line :: rest)))]] |}.
Proof.
  intros E. unfold _sending_sync. unfold bind at 1. rewrite realtime_loop_spec.
  unfold bind at 1. unfold get. cbn [self trace set_realtime_queue _sending_queue].
  rewrite E. cbn [nonempty]. unfold bind at 1.
  match goal with |- context [_sending_single_line ?s1] =>
    rewrite (single_line_cons s1 line rest E) end.
  reflexivity.
Qed.












(** *** Opening the transport *)

Lemma await_banner_announces l :
  snd (await_banner l) = announces l.
Proof.
  induction l as [|r l IH]; [reflexivity|].
  destruct r as [response|]; [|exact IH].
  cbn [await_banner announces existsb]. unfold names_firmware.
  destruct (contains "grbl" (lower response)); [reflexivity|].
  destruct (contains "marlin" (lower response)); [reflexivity|].
  destruct (await_banner l) as [[es l'] ok]. simpl in *. exact IH.
Qed.

Lemma await_banner_last l :
  snd (await_banner l) = true ->
  exists es msg,
    fst (fst (await_banner l)) = es ++ [Channel msg]
    /\ (msg = "GRBL Connection Established." \/ msg = "Marlin Connection Established.").
Proof.
  induction l as [|r l IH]; [discriminate|].
  destruct r as [response|]; [|exact IH].
  cbn [await_banner].
  destruct (contains "grbl" (lower response)).
  { intros _. eexists. eexists. split; [reflexivity|left; reflexivity]. }
  destruct (contains "marlin" (lower response)).
  { intros _. eexists. eexists. split; [reflexivity|right; reflexivity]. }
  destruct (await_banner l) as [[es l'] ok]. simpl in *. intros H.
  destruct (IH H) as [es0 [msg [He Hm]]]. subst es.
  eexists. exists msg. split; [|exact Hm].
  rewrite app_comm_cons, app_assoc. reflexivity.
Qed.

(** X1 (GrblController.open).  On a transport that is connected [open] does
    nothing.  Otherwise it connects; when that fails it logs
    ["Could not connect."] and returns with the transport closed and nothing
    read; when it succeeds, [open] returns exactly when some line the device
    sends contains "grbl" or "marlin" in any letter case, its last word to
    the log being that the connection is established, and it never returns
    when the device sends no such line. *)
Theorem open_returns_when_the_firmware_is_named :
  forall s,
    let c := connection (self s) in
    if connected c then open s = Ret tt s
    else if negb (can_connect c) then
      open s
      = Ret tt {| self := set_connection (set_connected false c) (self s);
                  trace := trace s ++ [Channel "Could not connect."] |}
    else if announces (rx c) then
      exists s' es msg,
        open s = Ret tt s'
        /\ connected (connection (self s')) = true
        /\ trace s' = trace s ++ Channel "Connecting to GRBL..." :: es ++ [Channel msg]
        /\ (msg = "GRBL Connection Established."
            \/ msg = "Marlin Connection Established.")
        /\ quiet es
    else
      exists s', open s = Hang s' /\ connected (connection (self s')) = true.
Proof.
  intros s c. subst c. unfold open. run_monad.
  destruct (connected (connection (self s))) eqn:Hc; [reflexivity|].
  destruct (can_connect (connection (self s))) eqn:Hk; simpl; [|reflexivity].
  rewrite <- await_banner_announces.
  pose proof (await_banner_last (rx (connection (self s)))) as Hl.
  pose proof (await_banner_quiet (rx (connection (self s)))) as Hq.
  destruct (await_banner (rx (connection (self s)))) as [[es l] ok].
  simpl in *. specialize (Hq es l ok eq_refl). destruct ok.
  - destruct (Hl eq_refl) as [es0 [msg [He Hm]]]. subst es.
    eexists. exists es0, msg. split; [reflexivity|]. simpl.
    split; [reflexivity|]. split; [rewrite <- app_assoc; reflexivity|].
    split; [exact Hm|].
    destruct Hq as [Q1 [Q2 Q3]]. unfold quiet.
    split; [rewrite io_app in Q1; apply app_eq_nil in Q1; apply Q1|].
    split.
    + intros q. specialize (Q2 q). rewrite written_app in Q2.
      apply app_eq_nil in Q2. apply Q2.
    + intros p. destruct (Q3 p) as [Q4 Q5].
      rewrite pending_after_app in Q4. rewrite alternates_app in Q5.
      apply andb_prop in Q5. simpl in Q4. split; [exact Q4|apply Q5].
  - eexists. split; reflexivity.
Qed.

(** *** Starting and stopping the sender *)

Lemma open_never_raises s : raises (open s) = false.
Proof.
  unfold open. run_monad.
  destruct (connected (connection (self s))); [reflexivity|].
  destruct (can_connect (connection (self s))); simpl; [|reflexivity].
  destruct (await_banner (rx (connection (self s)))) as [[es l] ok].
  destruct ok; reflexivity.
Qed.

Lemma open_keeps_self_but_connection :
  forall w,
    keeps (fun s => (sending_thread (self s), _sending_queue (self s),
                     _realtime_queue (self s), commands_in_device_buffer (self s),
                     buffered_characters (self s), device_buffer_size (self s),
                     buffer_mode (self s)) = w) open.
Proof.
  intros w s Hs. unfold open. run_monad.
  destruct (connected (connection (self s))); [exact Hs|].
  destruct (can_connect (connection (self s))); simpl; [|exact Hs].
  destruct (await_banner (rx (connection (self s)))) as [[es l] ok].
  destruct ok; exact Hs.
Qed.

Lemma start_after_open s s1 :
  open s = Ret tt s1 ->
  start s
  = Ret tt (match sending_thread (self s1) with
            | None => with_self (set_sending_thread (Some AtLoopTop)) s1
            | Some _ => s1
            end).
Proof.
  intros H. unfold start. unfold bind at 1. rewrite H. unfold bind, get.
  destruct (sending_thread (self s1)); reflexivity.
Qed.

Lemma start_outcome s :
  match open s with
  | Ret _ s1 =>
      start s
      = Ret tt (match sending_thread (self s1) with
                | None => with_self (set_sending_thread (Some AtLoopTop)) s1
                | Some _ => s1
                end)
  | Raise e s1 => start s = Raise e s1
  | Hang s1 => start s = Hang s1
  end.
Proof.
  destruct (open s) as [[] s1|e s1|s1] eqn:H.
  - apply start_after_open, H.
  - unfold start, bind. rewrite H. reflexivity.
  - unfold start, bind. rewrite H. reflexivity.
Qed.

(** X2 (GrblController.start).  When [start] returns there is a sender
    thread; a sender that existed is kept, never replaced; and on a
    controller whose transport is then open a second [start] changes
    nothing at all.  When the connection cannot be made, [start] creates
    the sender all the same, and the sender's first turn finds the transport
    closed, ends and leaves the controller without a sender. *)
Theorem start_creates_one_sender :
  forall s s1,
    start s = Ret tt s1 ->
    (exists t, sending_thread (self s1) = Some t
               /\ (forall t0, sending_thread (self s) = Some t0 -> t = t0)
               /\ (sending_thread (self s) = None -> t = AtLoopTop))
    /\ (connected (connection (self s1)) = true -> start s1 = Ret tt s1)
    /\ (connected (connection (self s1)) = false ->
        sending_thread (self s) = None ->
        sending_thread (self (sender_turn s1)) = None
        /\ trace (sender_turn s1) = trace s1).
Proof.
  intros s s1 H. pose proof (start_outcome s) as Ho.
  pose proof (open_keeps_self_but_connection _ s eq_refl) as Hk.
  destruct (open s) as [[] s0|e s0|s0]; simpl in Hk;
    rewrite Ho in H; [|discriminate|discriminate].
  inversion Hk as [[K1 K2 K3 K4 K5 K6 K7]]. clear Hk.
  injection H as H. split; [|split].
  - destruct (sending_thread (self s0)) as [t|] eqn:E; subst s1.
    + exists t. rewrite E. split; [reflexivity|]. split; congruence.
    + exists AtLoopTop. simpl. split; [reflexivity|]. split; [congruence|reflexivity].
  - intros Hc. rewrite (start_after_open s1 s1 (open_connected s1 Hc)).
    destruct (sending_thread (self s0)) as [t|] eqn:E; subst s1.
    + rewrite E. reflexivity.
    + reflexivity.
  - intros Hc Hn. assert (E0 : sending_thread (self s0) = None) by congruence.
    rewrite E0 in H. subst s1.
    unfold sender_turn. simpl in *. rewrite Hc. simpl.
    unfold thread_ended, stop, close. run_monad. rewrite Hc. split; reflexivity.
Qed.

Lemma start_creates_one_sender_witness :
  exists s1,
    start example_closed = Ret tt s1
    /\ sending_thread (self s1) = Some AtLoopTop
    /\ start s1 = Ret tt s1.
Proof.
  eexists. split; [reflexivity|]. split; [reflexivity|].
  eapply (proj1 (proj2 (start_creates_one_sender example_closed _ eq_refl))).
  reflexivity.
Defined.

Lemma open_after_the_banner s :
  connected (connection (self s)) = false ->
  can_connect (connection (self s)) = true ->
  announces (rx (connection (self s))) = true ->
  exists s',
    open s = Ret tt s' /\ connected (connection (self s')) = true.
Proof.
  intros Hc Hk Ha. unfold open. run_monad. rewrite Hc, Hk. simpl.
  rewrite <- await_banner_announces in Ha.
  destruct (await_banner (rx (connection (self s)))) as [[es l] ok].
  simpl in Ha. subst ok. eexists. split; reflexivity.
Qed.

(** X3 (GrblController.stop, close, start).  [stop] leaves the controller
    without a sender and with the transport closed, and a [start] after it
    opens the transport again, waits for the banner again and creates a
    new sender at the top of its loop.  Nothing else is reset on the way:
    both queues are as they were, and so are the lines counted as in flight
    and their character count, although the device they were sent to has
    been disconnected. *)
Theorem restart_keeps_queues_and_bookkeeping :
  forall s,
    can_connect (connection (self s)) = true ->
    announces (rx (connection (self s))) = true ->
    exists s1 s2,
      stop s = Ret tt s1
      /\ sending_thread (self s1) = None
      /\ connected (connection (self s1)) = false
      /\ start s1 = Ret tt s2
      /\ sending_thread (self s2) = Some AtLoopTop
      /\ connected (connection (self s2)) = true
      /\ _sending_queue (self s2) = _sending_queue (self s)
      /\ _realtime_queue (self s2) = _realtime_queue (self s)
      /\ commands_in_device_buffer (self s2) = commands_in_device_buffer (self s)
      /\ buffered_characters (self s2) = buffered_characters (self s).
Proof.
  intros s Hk Ha.
  assert (H1 : exists s1,
             stop s = Ret tt s1
             /\ sending_thread (self s1) = None
             /\ connected (connection (self s1)) = false
             /\ can_connect (connection (self s1)) = true
             /\ announces (rx (connection (self s1))) = true
             /\ (_sending_queue (self s1), _realtime_queue (self s1),
                 commands_in_device_buffer (self s1), buffered_characters (self s1))
                = (_sending_queue (self s), _realtime_queue (self s),
                   commands_in_device_buffer (self s), buffered_characters (self s))).
  { unfold stop, close. run_monad.
    destruct (connected (connection (self s))) eqn:E; simpl;
      eexists; (split; [reflexivity|]); simpl; rewrite ?E; repeat split; assumption. }
  destruct H1 as [s1 [Hs [Ht [Hc [Hk1 [Ha1 Hq]]]]]].
  destruct (open_after_the_banner s1 Hc Hk1 Ha1) as [s' [Ho Hc']].
  pose proof (open_keeps_self_but_connection _ s1 eq_refl) as Hkeep.
  rewrite Ho in Hkeep. simpl in Hkeep.
  inversion Hkeep as [[K1 K2 K3 K4 K5 K6 K7]]. clear Hkeep.
  inversion Hq as [[Q1 Q2 Q3 Q4]]. clear Hq.
  exists s1, (with_self (set_sending_thread (Some AtLoopTop)) s').
  split; [exact Hs|]. split; [exact Ht|]. split; [exact Hc|].
  split.
  { rewrite (start_after_open s1 s' Ho). rewrite K1, Ht. reflexivity. }
  simpl. split; [reflexivity|]. split; [exact Hc'|].
  repeat split; congruence.
Qed.

Lemma restart_keeps_queues_and_bookkeeping_witness :
  exists s1 s2,
    stop example_restart = Ret tt s1
    /\ start s1 = Ret tt s2
    /\ connected (connection (self s2)) = true
    /\ _sending_queue (self s2) = ["G1 Y2"]
    /\ commands_in_device_buffer (self s2) = ["G0 X1"]
    /\ buffered_characters (self s2) = 5%Z.
Proof.
  destruct (restart_keeps_queues_and_bookkeeping example_restart eq_refl eq_refl)
    as [s1 [s2 [H1 [_ [_ [H4 [_ [H6 [H7 [_ [H9 H10]]]]]]]]]]].
  exists s1, s2. repeat split; assumption.
Defined.

(** *** What the sender never does *)






(** *** The queues are first in, first out *)

Lemma conserved_emits q w es s :
  written q es = [] ->
  conserved q w s -> conserved q w {| self := self s; trace := trace s ++ es |}.
Proof.
  unfold conserved. simpl. intros He H. rewrite written_app, He, app_nil_r. exact H.
Qed.

Lemma conserved_self q w g s :
  queue_of q g = queue_of q (self s) ->
  conserved q w s -> conserved q w {| self := g; trace := trace s |}.
Proof. unfold conserved. simpl. intros Hg H. rewrite Hg. exact H. Qed.

Lemma keeps_conserved_open q w : keeps (conserved q w) open.
Proof.
  intros s Hs. unfold open. run_monad.
  destruct (connected (connection (self s))); [exact Hs|].
  destruct (can_connect (connection (self s))); simpl.
  - destruct (await_banner (rx (connection (self s)))) as [[es l] ok] eqn:E.
    apply await_banner_quiet in E. destruct E as [_ [E _]].
    assert (H1 : conserved q w
              {| self := set_connection
                           (set_rx l (set_connected true (connection (self s)))) (self s);
                 trace := (trace s ++ [Channel "Connecting to GRBL..."]) ++ es |}).
    { apply (conserved_emits q w es {| self := _; trace := _ |} (E q)).
      apply (conserved_emits q w [Channel "Connecting to GRBL..."]
               {| self := _; trace := trace s |} eq_refl).
      apply (conserved_self q w _ s); [destruct q; reflexivity|exact Hs]. }
    destruct ok; exact H1.
  - apply (conserved_emits q w [Channel "Could not connect."]
             {| self := _; trace := trace s |} eq_refl).
    apply (conserved_self q w _ s); [destruct q; reflexivity|exact Hs].
Qed.

Lemma keeps_conserved_close q w : keeps (conserved q w) close.
Proof.
  intros s Hs. unfold close. run_monad.
  destruct (connected (connection (self s))); simpl; [|exact Hs].
  apply (conserved_self q w _ s); [destruct q; reflexivity|exact Hs].
Qed.

Lemma keeps_conserved_start q w : keeps (conserved q w) start.
Proof.
  unfold start. apply keeps_bind; [apply keeps_conserved_open|]. intros _ s Hs.
  run_monad. destruct (sending_thread (self s)); simpl; [exact Hs|].
  apply (conserved_self q w _ s); [destruct q; reflexivity|exact Hs].
Qed.

Lemma keeps_conserved_stop q w : keeps (conserved q w) stop.
Proof.
  unfold stop. apply keeps_bind; [|intros; apply keeps_conserved_close].
  intros s Hs. apply (conserved_self q w _ s); [destruct q; reflexivity|exact Hs].
Qed.

Lemma keeps_conserved_recv q w : keeps (conserved q w) _recv_response.
Proof.
  intros s Hs. unfold _recv_response. run_monad.
  destruct (next_response _) as [[response l]|]; simpl;
    [|apply (conserved_self q w _ s); [destruct q; reflexivity|exact Hs]].
  unfold conserved in *.
  destruct (String.eqb response "ok"); simpl.
  - destruct (commands_in_device_buffer (self s)); simpl;
      rewrite !written_app; simpl; rewrite !app_nil_r;
      destruct q; exact Hs.
  - repeat (match goal with |- context [if ?b then _ else _] => destruct b end; simpl);
      rewrite !written_app; simpl; rewrite !app_nil_r; destruct q; exact Hs.
Qed.

Lemma keeps_conserved_sending_realtime q w : keeps (conserved q w) _sending_realtime.
Proof.
  intros s Hs. unfold _sending_realtime. run_monad.
  destruct (_realtime_queue (self s)) as [|line rest] eqn:E; simpl; [exact Hs|].
  unfold conserved in *. simpl. rewrite written_app.
  destruct q; simpl in *.
  - rewrite E in Hs. rewrite <- app_assoc. exact Hs.
  - rewrite app_nil_r. exact Hs.
Qed.

Lemma keeps_conserved_single_line q w : keeps (conserved q w) _sending_single_line.
Proof.
  intros s Hs. unfold _sending_single_line. run_monad.
  destruct (_sending_queue (self s)) as [|line rest] eqn:E; simpl; [exact Hs|].
  unfold conserved in *. simpl. rewrite !written_app.
  destruct q; simpl in *.
  - rewrite !app_nil_r. exact Hs.
  - rewrite E in Hs. rewrite app_nil_r, <- app_assoc. exact Hs.
Qed.

Lemma keeps_conserved_buffered q w : keeps (conserved q w) _sending_buffered.
Proof.
  unfold _sending_buffered, realtime_loop, send_loop, ack_loop.
  repeat keeps_step;
    auto using keeps_conserved_sending_realtime, keeps_conserved_single_line,
               keeps_conserved_recv.
Qed.

Lemma keeps_conserved_sync q w : keeps (conserved q w) _sending_sync.
Proof.
  unfold _sending_sync, realtime_loop.
  repeat keeps_step;
    auto using keeps_conserved_sending_realtime, keeps_conserved_single_line,
               keeps_conserved_recv.
Qed.

Lemma keeps_conserved_turn q w t : keeps (conserved q w) (_sending_turn t).
Proof.
  unfold _sending_turn, dispatch.
  repeat keeps_step; auto using keeps_conserved_sync, keeps_conserved_buffered;
    (apply conserved_emits; [reflexivity|assumption]).
Qed.

Lemma sender_turn_conserved q w s :
  conserved q w s -> conserved q w (sender_turn s).
Proof.
  intros Hs. unfold sender_turn.
  destruct (sending_thread (self s)) as [t|]; [|exact Hs].
  pose proof (keeps_conserved_turn q w t s Hs) as Ht.
  destruct t; try exact Hs.
  - destruct (negb _); [apply keeps_conserved_stop; exact Hs|].
    destruct (_sending_turn AtLoopTop s); simpl in *.
    + apply (conserved_self q w _ s0); [destruct q; reflexivity|exact Ht].
    + apply (keeps_conserved_stop q w s0). exact Ht.
    + apply (conserved_self q w _ s0); [destruct q; reflexivity|exact Ht].
  - destruct (_sending_turn Woken s); simpl in *.
    + apply (conserved_self q w _ s0); [destruct q; reflexivity|exact Ht].
    + apply (keeps_conserved_stop q w s0). exact Ht.
    + apply (conserved_self q w _ s0); [destruct q; reflexivity|exact Ht].
Qed.

Lemma start_never_raises s : raises (start s) = false.
Proof.
  pose proof (start_outcome s) as H. pose proof (open_never_raises s) as Hr.
  destruct (open s); try discriminate; rewrite H; reflexivity.
Qed.

(** What [write] and [realtime] do once [start] has returned. *)
Lemma write_after_start data s s1 :
  start s = Ret tt s1 ->
  exists g,
    write data s
    = Ret tt {| self := g;
                trace := trace s1
                         ++ [Signal "serial;write" [VStr data];
                             Signal "serial;buffer"
                               [VInt (Z.of_nat (length (_sending_queue (self s1) ++ [data]))
                                      + Z.of_nat (length (_realtime_queue (self s1))))]] |}
    /\ _sending_queue g = _sending_queue (self s1) ++ [data]
    /\ _realtime_queue g = _realtime_queue (self s1).
Proof.
  intros H. unfold write. unfold bind at 1. rewrite H. run_monad.
  eexists. split; [rewrite <- app_assoc; reflexivity|].
  simpl. destruct (sending_thread (self s1)) as [[]|]; split; reflexivity.
Qed.

Lemma realtime_after_start data s s1 :
  start s = Ret tt s1 ->
  exists g es,
    realtime data s = Ret tt {| self := g; trace := trace s1 ++ es |}
    /\ (forall q, written q es = [])
    /\ _realtime_queue g = _realtime_queue (self s1) ++ [data]
    /\ _sending_queue g
       = if contains cancel_code data then [] else _sending_queue (self s1).
Proof.
  intros H. unfold realtime. unfold bind at 1. rewrite H. run_monad.
  destruct (contains cancel_code data); run_monad;
    (eexists; eexists; split; [rewrite <- app_assoc; reflexivity|]);
    (split; [reflexivity|]);
    simpl; destruct (sending_thread (self s1)) as [[]|]; split; reflexivity.
Qed.

Lemma step_conserved q w a s :
  (q = Normal -> cancels a = false) ->
  conserved q w s ->
  conserved q (w ++ accepted q [a] s) (step a s).
Proof.
  intros Hc Hs. destruct a as [data|data|]; cbn [step accepted].
  - pose proof (keeps_conserved_start q w s Hs) as H1.
    pose proof (start_never_raises s) as Hr.
    destruct (start s) as [[] s1|e s1|s1] eqn:E; [|discriminate|].
    + destruct (write_after_start data s s1 E) as [g [Hw [Hq Hrt]]].
      rewrite Hw. cbn [final returns]. unfold conserved in *. simpl in *.
      rewrite written_app. simpl.
      destruct q; simpl in *; rewrite ?app_nil_r.
      * rewrite Hrt. exact H1.
      * rewrite Hq, app_assoc, H1. reflexivity.
    + assert (Hw : write data s = Hang s1)
        by (unfold write; unfold bind at 1; rewrite E; reflexivity).
      rewrite Hw. cbn [final returns]. destruct q; simpl; rewrite ?app_nil_r; exact H1.
  - pose proof (keeps_conserved_start q w s Hs) as H1.
    pose proof (start_never_raises s) as Hr.
    destruct (start s) as [[] s1|e s1|s1] eqn:E; [|discriminate|].
    + destruct (realtime_after_start data s s1 E) as [g [es [Hw [He [Hrt Hq]]]]].
      rewrite Hw. cbn [final returns]. unfold conserved in *. simpl in *.
      rewrite written_app, He.
      destruct q; simpl in *; rewrite ?app_nil_r.
      * rewrite Hrt, app_assoc, H1. reflexivity.
      * rewrite (Hc eq_refl) in Hq. rewrite Hq. exact H1.
    + assert (Hw : realtime data s = Hang s1)
        by (unfold realtime; unfold bind at 1; rewrite E; reflexivity).
      rewrite Hw. cbn [final returns]. destruct q; simpl; rewrite ?app_nil_r; exact H1.
  - destruct q; simpl; rewrite ?app_nil_r; apply sender_turn_conserved, Hs.
Qed.

Lemma run_conserved q schedule : forall w s,
  (q = Normal -> forallb (fun a => negb (cancels a)) schedule = true) ->
  conserved q w s ->
  conserved q (w ++ accepted q schedule s) (run schedule s).
Proof.
  induction schedule as [|a rest IH]; intros w s Hc Hs.
  - simpl. rewrite app_nil_r. exact Hs.
  - assert (Ha : q = Normal -> cancels a = false).
    { intros Hq. specialize (Hc Hq). simpl in Hc. apply andb_prop in Hc.
      destruct Hc as [Hc _]. apply negb_true_iff in Hc. exact Hc. }
    assert (Hr : q = Normal -> forallb (fun a => negb (cancels a)) rest = true).
    { intros Hq. specialize (Hc Hq). simpl in Hc. apply andb_prop in Hc. apply Hc. }
    pose proof (step_conserved q w a s Ha Hs) as H1.
    specialize (IH _ _ Hr H1).
    change (run (a :: rest) s) with (run rest (step a s)).
    replace (w ++ accepted q (a :: rest) s)
      with ((w ++ accepted q [a] s) ++ accepted q rest (step a s)); [exact IH|].
    cbn [accepted]. rewrite !app_nil_r, <- app_assoc. reflexivity.
Qed.

(** X5 (GrblController.write, _sending_single_line, the sender).  Over any
    schedule of [write] calls, [realtime] calls that do not carry the cancel
    code and turns of the sender, the lines written to the transport from
    the normal queue followed by the lines the queue still holds are, in
    order, what was there at the start followed by the data of the [write]
    calls that returned: lines go out first in, first out, none is lost,
    none is sent twice. *)
Theorem normal_queue_is_first_in_first_out :
  forall schedule s,
    forallb (fun a => negb (cancels a)) schedule = true ->
    written Normal (trace (run schedule s)) ++ _sending_queue (self (run schedule s))
    = (written Normal (trace s) ++ _sending_queue (self s))
      ++ accepted Normal schedule s.
Proof.
  intros schedule s Hc.
  exact (run_conserved Normal schedule _ s (fun _ => Hc) eq_refl).
Qed.

Lemma normal_queue_is_first_in_first_out_witness :
  written Normal
    (trace (run [CallWrite "G0 X1"; CallWrite "G1 Y2"; SenderTurn; CallWrite "G0 X0";
                 CallRealtime "?"; SenderTurn]
              example_closed))
  ++ _sending_queue
       (self (run [CallWrite "G0 X1"; CallWrite "G1 Y2"; SenderTurn; CallWrite "G0 X0";
                   CallRealtime "?"; SenderTurn]
                example_closed))
  = ["G0 X1"; "G1 Y2"; "G0 X0"].
Proof.
  exact (normal_queue_is_first_in_first_out
           [CallWrite "G0 X1"; CallWrite "G1 Y2"; SenderTurn; CallWrite "G0 X0";
            CallRealtime "?"; SenderTurn]
           example_closed eq_refl).
Defined.

(** X6 (GrblController.realtime, _sending_realtime, the sender).  Over any
    schedule of [write] calls, [realtime] calls and turns of the sender, the
    lines written to the transport from the real-time queue followed by the
    lines the queue still holds are, in order, what was there at the start
    followed by the data of the [realtime] calls that returned: a cancel
    empties the normal queue only and never drops a real-time line. *)
Theorem realtime_queue_is_first_in_first_out :
  forall schedule s,
    written Realtime (trace (run schedule s)) ++ _realtime_queue (self (run schedule s))
    = (written Realtime (trace s) ++ _realtime_queue (self s))
      ++ accepted Realtime schedule s.
Proof.
  intros schedule s.
  refine (run_conserved Realtime schedule _ s _ eq_refl). discriminate.
Qed.

(** *** A line that does not fit *)

Lemma record_eta_controller (g : GrblController) :
  {| connection := connection g;
     sending_thread := sending_thread g;
     _sending_queue := _sending_queue g;
     _realtime_queue := _realtime_queue g;
     commands_in_device_buffer := commands_in_device_buffer g;
     buffered_characters := buffered_characters g;
     device_buffer_size := device_buffer_size g;
     buffer_mode := buffer_mode g |} = g.
Proof. destruct g; reflexivity. Qed.

Lemma buffered_pass_without_room s line rest :
  _realtime_queue (self s) = [] ->
  commands_in_device_buffer (self s) = [] ->
  _sending_queue (self s) = line :: rest ->
  (device_buffer_size (self s) <= buffered_characters (self s) + len line)%Z ->
  _sending_buffered s = Ret tt s.
Proof.
  intros Hrt Hfl Hq Hsz. unfold _sending_buffered, bind.
  rewrite realtime_loop_spec, send_loop_spec.
  cbn [self trace set_realtime_queue device_buffer_size buffered_characters _sending_queue].
  rewrite Hq. cbn [sendable].
  destruct (Z.ltb_spec (buffered_characters (self s) + len line)
              (device_buffer_size (self s))) as [Hlt|_]; [lia|].
  rewrite sent_0. unfold ack_loop, bind, get. cbn [self trace set_realtime_queue
    connection rx commands_in_device_buffer].
  rewrite while_stop by (cbn; rewrite Hfl; reflexivity).
  rewrite Hrt. cbn [map]. rewrite app_nil_r.
  f_equal. destruct s as [g tr]. cbn in *. f_equal.
  unfold set_realtime_queue. rewrite <- Hrt. apply record_eta_controller.
Qed.

Lemma turn_without_room s line rest :
  String.eqb (buffer_mode (self s)) "sync" = false ->
  connected (connection (self s)) = true ->
  sending_thread (self s) = Some AtLoopTop ->
  _realtime_queue (self s) = [] ->
  commands_in_device_buffer (self s) = [] ->
  _sending_queue (self s) = line :: rest ->
  (device_buffer_size (self s) <= buffered_characters (self s) + len line)%Z ->
  sender_turn s
  = {| self := self s; trace := trace s ++ [Signal "pipe;running" [VBool true]] |}.
Proof.
  intros Hm Hc Ht Hrt Hfl Hq Hsz. unfold sender_turn. rewrite Ht, Hc. cbn [negb].
  unfold _sending_turn. unfold bind at 1. unfold emit at 1, modify.
  unfold bind at 1. unfold get at 1. cbn [self trace]. rewrite Hq, Hrt. cbn [nonempty negb andb].
  unfold bind at 1. unfold dispatch. unfold bind at 1. unfold get at 1.
  cbn [self trace]. rewrite Hm.
  rewrite (buffered_pass_without_room
             {| self := self s; trace := trace s ++ [Signal "pipe;running" [VBool true]] |}
             line rest Hrt Hfl Hq Hsz).
  unfold ret, with_self. cbn [self trace]. f_equal.
  unfold set_sending_thread. rewrite <- Ht. apply record_eta_controller.
Qed.

(** X7 (GrblController._sending_buffered, _sending).  In buffered mode a
    line at the head of the normal queue that is at least as long as the
    room left in the device buffer when nothing is in flight (with the
    bookkeeping invariant: a line of [device_buffer_size] characters or
    more) is never sent.  Every turn of the sender finds no room for it,
    has no response to wait for, and comes back to the top of its loop: the
    controller is unchanged after any number of turns, and no line of the
    normal queue is written. *)
Theorem line_as_long_as_the_buffer_is_never_sent :
  forall s line rest n,
    String.eqb (buffer_mode (self s)) "sync" = false ->
    connected (connection (self s)) = true ->
    sending_thread (self s) = Some AtLoopTop ->
    _realtime_queue (self s) = [] ->
    commands_in_device_buffer (self s) = [] ->
    _sending_queue (self s) = line :: rest ->
    (device_buffer_size (self s) <= buffered_characters (self s) + len line)%Z ->
    self (run (replicate n SenderTurn) s) = self s
    /\ io (trace (run (replicate n SenderTurn) s)) = io (trace s).
Proof.
  intros s line rest n. revert s.
  induction n as [|n IH]; intros s Hm Hc Ht Hrt Hfl Hq Hsz; [split; reflexivity|].
  cbn [replicate]. change (run (SenderTurn :: replicate n SenderTurn) s)
    with (run (replicate n SenderTurn) (sender_turn s)).
  rewrite (turn_without_room s line rest Hm Hc Ht Hrt Hfl Hq Hsz).
  match goal with |- context [run _ ?s1] =>
    destruct (IH s1 Hm Hc Ht Hrt Hfl Hq Hsz) as [H1 H2] end.
  rewrite H1, H2. cbn [self trace]. rewrite io_app. cbn. rewrite app_nil_r.
  split; reflexivity.
Qed.

Lemma line_as_long_as_the_buffer_is_never_sent_witness :
  self (run (replicate 7 SenderTurn) example_oversize) = self example_oversize
  /\ io (trace (run (replicate 7 SenderTurn) example_oversize)) = [].
Proof.
  exact (line_as_long_as_the_buffer_is_never_sent example_oversize "G1 X10 Y10" ["G0 X0"] 7
           eq_refl eq_refl eq_refl eq_refl eq_refl eq_refl ltac:(vm_compute; discriminate)).
Defined.

(** *** The bookkeeping in synchronous mode *)

(** X21 (GrblController._sending_sync, _recv_response).  A pass of
    [_sending_sync] that sends a line takes whatever the device says next as
    the answer and returns.  The line is counted as in flight all the same,
    and only an ["ok"] takes a line off that count, the oldest one, which
    need not be the line just sent: after any other answer (an error, an
    alarm, an echo) the line stays in [commands_in_device_buffer] and
    [buffered_characters] stays up by its length.  The number of lines
    counted as in flight never goes down in synchronous mode. *)
Theorem sync_pass_counts_the_line_until_an_ok :
  forall s line rest r l,
    _sending_queue (self s) = line :: rest ->
    next_response (rx (connection (self s))) = Some (r, l) ->
    exists s',
      _sending_sync s = Ret tt s'
      /\ _sending_queue (self s') = rest
      /\ commands_in_device_buffer (self s')
         = (if String.eqb r "ok"
            then tail (commands_in_device_buffer (self s) ++ [line])
            else commands_in_device_buffer (self s) ++ [line])
      /\ buffered_characters (self s')
         = (if String.eqb r "ok"
            then buffered_characters (self s) + len line
                 - len (hd line (commands_in_device_buffer (self s)))
            else buffered_characters (self s) + len line)%Z
      /\ (length (commands_in_device_buffer (self s))
          <= length (commands_in_device_buffer (self s')))%nat.
Proof.
  intros s line rest r l Hq Hn. rewrite (sync_cons s line rest Hq).
  match goal with |- context [(_recv_response;; ret tt) ?s2] => set (s2' := s2) end.
  assert (Hrx : next_response (rx (connection (self s2'))) = Some (r, l)) by exact Hn.
  destruct (String.eqb r "ok") eqn:Hok.
  - apply String.eqb_eq in Hok. subst r.
    destruct (commands_in_device_buffer (self s)) as [|x xs] eqn:Ex.
    + assert (E2 : commands_in_device_buffer (self s2') = [line] ++ [])
        by (subst s2'; simpl; rewrite ?Ex; reflexivity).
      rewrite (discard_ret _ _ _ _ (recv_ok_cons s2' l line [] Hrx E2)).
      eexists. split; [reflexivity|]. subst s2'. simpl.
      repeat split; try reflexivity; lia.
    + assert (E2 : commands_in_device_buffer (self s2') = x :: (xs ++ [line]))
        by (subst s2'; simpl; rewrite ?Ex; reflexivity).
      rewrite (discard_ret _ _ _ _ (recv_ok_cons s2' l x (xs ++ [line]) Hrx E2)).
      eexists. split; [reflexivity|]. subst s2'. simpl.
      repeat split; try reflexivity. rewrite length_app. simpl. lia.
  - destruct (recv_other s2' r l Hrx Hok) as [es [Hr _]].
    rewrite (discard_ret _ _ _ _ Hr).
    eexists. split; [reflexivity|]. subst s2'. simpl.
    repeat split; try reflexivity. rewrite length_app. simpl. lia.
Qed.

Lemma sync_pass_counts_the_line_until_an_ok_witness :
  exists s1 s2,
    _sending_sync example_sync_error = Ret tt s1
    /\ commands_in_device_buffer (self s1) = ["G7"]
    /\ _sending_sync s1 = Ret tt s2
    /\ commands_in_device_buffer (self s2) = ["G0 X1"]
    /\ buffered_characters (self s2) = 5%Z.
Proof.
  destruct (sync_pass_counts_the_line_until_an_ok example_sync_error
              "G7" ["G0 X1"] "error:20" [Some "ok"] eq_refl eq_refl)
    as [s1 [H1 [H2 [H3 [H4 _]]]]].
  exists s1. eexists.
  split; [exact H1|]. split; [exact H3|].
  assert (E : s1 = final (_sending_sync example_sync_error)) by (rewrite H1; reflexivity).
  subst s1. split; [reflexivity|]. split; reflexivity.
Defined.


End GrblFacts.

(** ** Facts about the cut assembler *)

Module EngraveFacts.
Import Engrave.

(** *** The wiring loop *)

Ltac case_compare :=
  repeat match goal with
         | |- context [(?a <=? ?b)%Z] => destruct (Z.leb_spec a b)
         | |- context [(?a <? ?b)%Z] => destruct (Z.ltb_spec a b)
         | |- context [(?a <? ?b)%nat] => destruct (Nat.ltb_spec a b)
         | |- context [(?a =? ?b)%nat] => destruct (Nat.eqb_spec a b)
         end;
  cbn [andb]; try lia; try reflexivity; try (f_equal; lia).

Lemma index_next n i :
  Py.index n (Z.of_nat i + 1) = if (S i <? n)%nat then Some (S i) else None.
Proof. unfold Py.index. case_compare. Qed.

Lemma index_first n : (0 < n)%nat -> Py.index n 0 = Some O.
Proof. intros Hn. unfold Py.index. case_compare. Qed.

Lemma index_previous n i :
  (i < n)%nat ->
  Py.index n (Z.of_nat i - 1)
  = Some (if (i =? 0)%nat then (n - 1)%nat else (i - 1)%nat).
Proof. intros Hi. unfold Py.index. case_compare. Qed.

Lemma wire_pass_spec is_closed group i c :
  group !! i = Some c ->
  wire_pass is_closed group i
  = Some (<[i := wired (length group) is_closed i c]> group).
Proof.
  intros Hc. pose proof (lookup_lt_Some _ _ _ Hc) as Hi.
  unfold wire_pass, wired. rewrite Hc. simpl.
  rewrite index_next, (index_previous _ _ Hi).
  destruct (S i <? length group)%nat; simpl; [reflexivity|].
  rewrite index_first by lia. reflexivity.
Qed.

(** The members after the first [k] passes of the loop. *)
Lemma wire_prefix is_closed group k :
  (k <= length group)%nat ->
  foldl (fun acc i => g ← acc; wire_pass is_closed g i) (Some group) (seq 0 k)
  = Some (imap (fun i c => if (i <? k)%nat then wired (length group) is_closed i c else c)
            group).
Proof.
  induction k as [|k IH]; intros Hk.
  - simpl. f_equal. apply list_eq. intros i. rewrite list_lookup_imap.
    destruct (group !! i); reflexivity.
  - rewrite seq_S, foldl_app, IH by lia. simpl.
    destruct (lookup_lt_is_Some_2 group k ltac:(lia)) as [c Hc].
    rewrite (wire_pass_spec _ _ k c).
    2:{ rewrite list_lookup_imap, Hc. simpl. rewrite Nat.ltb_irrefl. reflexivity. }
    rewrite length_imap. f_equal. apply list_eq. intros i.
    destruct (Nat.eq_dec i k) as [->|Hne].
    + rewrite list_lookup_insert_eq by (rewrite length_imap; lia).
      rewrite list_lookup_imap, Hc. simpl.
      replace (k <? S k)%nat with true by (symmetry; apply Nat.ltb_lt; lia).
      reflexivity.
    + rewrite list_lookup_insert_ne by congruence.
      rewrite !list_lookup_imap. destruct (group !! i); [simpl|reflexivity].
      destruct (Nat.ltb_spec i k), (Nat.ltb_spec i (S k)); try reflexivity; lia.
Qed.

Lemma wire_spec is_closed group :
  wire is_closed group = Some (imap (wired (length group) is_closed) group).
Proof.
  unfold wire. rewrite wire_prefix by lia. f_equal. apply list_eq. intros i.
  rewrite !list_lookup_imap. destruct (group !! i) eqn:E; [simpl|reflexivity].
  apply lookup_lt_Some in E. apply Nat.ltb_lt in E. rewrite E. reflexivity.
Qed.


(** *** The flags and links of a built group *)

Lemma wired_first n b i c : first (wired n b i c) = first c.
Proof. unfold wired. destruct (S i <? n)%nat; reflexivity. Qed.

Lemma wired_last n b i c :
  last (wired n b i c) = if (S i <? n)%nat then last c else true.
Proof. unfold wired. destruct (S i <? n)%nat; reflexivity. Qed.

Lemma wired_closed n b i c : closed (wired n b i c) = b.
Proof. unfold wired. destruct (S i <? n)%nat; reflexivity. Qed.

Lemma wired_next n b i c :
  next (wired n b i c) = Some (if (S i <? n)%nat then S i else O).
Proof. unfold wired. destruct (S i <? n)%nat; reflexivity. Qed.

Lemma wired_previous n b i c :
  previous (wired n b i c) = Some (if (i =? 0)%nat then (n - 1)%nat else (i - 1)%nat).
Proof. unfold wired. destruct (S i <? n)%nat; reflexivity. Qed.

Lemma count_flag_cons flag c l :
  count_flag flag (c :: l)
  = ((if flag c then 1 else 0) + count_flag flag l)%nat.
Proof.
  unfold count_flag. rewrite filter_cons.
  destruct (decide (flag c = true)) as [H|H].
  - rewrite H. reflexivity.
  - destruct (flag c); [congruence|reflexivity].
Qed.

Lemma count_first_wired n b l : forall k,
  count_flag first (imap (fun i => wired n b (k + i)) l) = count_flag first l.
Proof.
  induction l as [|c l IH]; intros k; [reflexivity|].
  rewrite imap_cons, !count_flag_cons, wired_first. f_equal.
  rewrite <- (IH (S k)). f_equal. apply imap_ext. intros i x _. simpl.
  f_equal. lia.
Qed.

Lemma count_last_wired n b l : forall k,
  Forall (fun c => last c = false) l ->
  (k + length l = n)%nat ->
  count_flag last (imap (fun i => wired n b (k + i)) l)
  = match l with [] => O | _ :: _ => 1%nat end.
Proof.
  induction l as [|c l IH]; intros k Hl Hn; [reflexivity|].
  inversion Hl as [|? ? Hc Hl']; subst.
  rewrite imap_cons, count_flag_cons, wired_last, Hc.
  rewrite (imap_ext _ (fun i => wired (k + length (c :: l)) b (S k + i)))
    by (intros i x _; simpl; f_equal; lia).
  rewrite (IH (S k) Hl') by (simpl; lia).
  destruct l as [|c' l]; simpl.
  - replace (S (k + 0) <? k + 1)%nat with false
      by (symmetry; apply Nat.ltb_ge; lia).
    reflexivity.
  - replace (S (k + 0) <? k + S (S (length l)))%nat with true
      by (symmetry; apply Nat.ltb_lt; lia).
    reflexivity.
Qed.

Lemma count_first_group n b l :
  count_flag first (imap (wired n b) l) = count_flag first l.
Proof. exact (count_first_wired n b l 0). Qed.

Lemma count_last_group b l :
  Forall (fun c => last c = false) l ->
  count_flag last (imap (wired (length l) b) l)
  = match l with [] => O | _ :: _ => 1%nat end.
Proof. intros H. exact (count_last_wired (length l) b l 0 H eq_refl). Qed.

Lemma append_cuts_fresh st ps sp :
  Forall (fun c => first c = false /\ last c = false) (append_cuts st ps sp).
Proof.
  induction sp as [|seg sp IH]; simpl; [constructor|].
  destruct (cut_of_segment seg); [constructor; [split; reflexivity|exact IH]|exact IH].
Qed.

Lemma count_first_fresh l :
  Forall (fun c => first c = false /\ last c = false) l -> count_flag first l = O.
Proof.
  induction 1 as [|c l [Hf _] _ IH]; [reflexivity|].
  rewrite count_flag_cons, Hf, IH. reflexivity.
Qed.

Lemma mark_first_count l :
  Forall (fun c => first c = false /\ last c = false) l ->
  count_flag first (mark_first l) = match l with [] => O | _ :: _ => 1%nat end.
Proof.
  intros H. destruct l as [|c l]; [reflexivity|]. inversion H; subst.
  simpl. rewrite count_flag_cons. simpl. rewrite count_first_fresh by assumption.
  reflexivity.
Qed.

Lemma mark_first_last l :
  Forall (fun c => first c = false /\ last c = false) l ->
  Forall (fun c => last c = false) (mark_first l).
Proof.
  intros H. destruct l as [|c l]; [constructor|]. inversion H as [|? ? [_ Hc] Hl]; subst.
  constructor; [exact Hc|]. eapply Forall_impl; [exact Hl|]. intros x [_ Hx]. exact Hx.
Qed.

Lemma mark_first_length l : length (mark_first l) = length l.
Proof. destruct l; reflexivity. Qed.

Lemma mark_first_head l c :
  mark_first l !! 0%nat = Some c -> first c = true.
Proof. destruct l as [|x l]; simpl; [discriminate|]. intros H; inversion H; reflexivity. Qed.

(** What [build_group] yields: the cuts of the subpath, the first one
    marked, every one wired. *)
Lemma build_group_yields op st cd ps sp g :
  build_group op st cd ps sp = Yielded g ->
  sp <> []
  /\ group_closed g = closed_test cd sp
  /\ members g
     = imap (wired (length (append_cuts st ps sp)) (group_closed g))
         (mark_first (append_cuts st ps sp)).
Proof.
  unfold build_group. destruct sp as [|seg sp]; [discriminate|].
  rewrite wire_spec, mark_first_length. intros H; inversion H; subst; simpl.
  split; [discriminate|]. split; reflexivity.
Qed.


Lemma yielded_groups_are_built op st cd ps sps g :
  In g (fst (yield_groups op st cd ps sps)) ->
  exists sp, In sp sps /\ build_group op st cd ps sp = Yielded g.
Proof.
  induction sps as [|sp sps IH]; simpl; [contradiction|].
  destruct (build_group op st cd ps sp) as [|g0|e] eqn:E.
  - intros H. destruct (IH H) as [sp' [Hin Hb]]. exists sp'. auto.
  - destruct (yield_groups op st cd ps sps) as [gs e0]. simpl in *.
    intros [H|H].
    + subst. exists sp. auto.
    + destruct (IH H) as [sp' [Hin Hb]]. exists sp'. auto.
  - contradiction.
Qed.


(** The flags and the two wrap-around links of a group with members. *)
Lemma wired_group n b base :
  Forall (fun c => first c = false /\ last c = false) base ->
  n = length base ->
  base <> [] ->
  let group := imap (wired n b) (mark_first base) in
  length group = n
  /\ count_flag first group = 1%nat
  /\ count_flag last group = 1%nat
  /\ first <$> group !! 0%nat = Some true
  /\ last <$> group !! (n - 1)%nat = Some true
  /\ next <$> group !! (n - 1)%nat = Some (Some 0%nat)
  /\ previous <$> group !! 0%nat = Some (Some (n - 1)%nat).
Proof.
  intros Hfresh Hn Hne group. subst group.
  assert (Hlen : length (mark_first base) = n) by (rewrite mark_first_length; auto).
  assert (Hpos : (0 < n)%nat) by (destruct base; [congruence|simpl in Hn; lia]).
  split; [rewrite length_imap; exact Hlen|].
  split.
  { rewrite count_first_group, mark_first_count by assumption.
    destruct base; [congruence|reflexivity]. }
  split.
  { rewrite <- Hlen, count_last_group by (auto using mark_first_last).
    destruct base; [congruence|reflexivity]. }
  destruct (lookup_lt_is_Some_2 (mark_first base) 0 ltac:(lia)) as [c0 H0].
  destruct (lookup_lt_is_Some_2 (mark_first base) (n - 1) ltac:(lia)) as [c1 H1].
  rewrite !list_lookup_imap, H0, H1. cbn -[wired Nat.ltb Nat.eqb Nat.sub].
  rewrite wired_first, wired_last, wired_next, wired_previous.
  rewrite (mark_first_head _ _ H0).
  replace (S (n - 1) <? n)%nat with false by (symmetry; apply Nat.ltb_ge; lia).
  repeat split.
Qed.


Lemma built_group_facts op st children cd ps g :
  In g (fst (as_cutobjects op st children cd ps)) ->
  members g <> [] ->
  length (members g) = length (append_cuts st ps (path g))
  /\ count_flag first (members g) = 1%nat
  /\ count_flag last (members g) = 1%nat
  /\ first <$> members g !! 0%nat = Some true
  /\ last <$> members g !! (length (members g) - 1)%nat = Some true
  /\ next <$> members g !! (length (members g) - 1)%nat = Some (Some 0%nat)
  /\ previous <$> members g !! 0%nat = Some (Some (length (members g) - 1)%nat).
Proof.
  intros Hin Hne. unfold as_cutobjects in Hin.
  destruct (yielded_groups_are_built _ _ _ _ _ _ Hin) as [sp [_ Hb]].
  assert (Hp : path g = sp).
  { unfold build_group in Hb. destruct sp; [discriminate|].
    destruct (wire _ _); [|discriminate]. inversion Hb; reflexivity. }
  destruct (build_group_yields _ _ _ _ _ _ Hb) as [_ [_ Hm]].
  assert (Hbase : append_cuts st ps sp <> []).
  { intros E. rewrite E in Hm. simpl in Hm. congruence. }
  pose proof (wired_group (length (append_cuts st ps sp)) (group_closed g)
                (append_cuts st ps sp) (append_cuts_fresh st ps sp) eq_refl Hbase) as H.
  cbv zeta in H. rewrite <- Hm in H. destruct H as [Hl H]. rewrite Hl, Hp.
  split; [reflexivity|exact H].
Qed.

(** C4.  In every group with members that [as_cutobjects] yields, exactly
    one member has [first] set, and it is the member at position 0; exactly
    one has [last] set, and it is the member at the last position (the same
    object in a group of one); and when the group is closed, the [next] of
    the last member is the first member and the [previous] of the first
    member is the last member. *)
Theorem group_has_one_first_and_one_last :
  forall op st children cd ps g,
    In g (fst (as_cutobjects op st children cd ps)) ->
    members g <> [] ->
    count_flag first (members g) = 1%nat
    /\ count_flag last (members g) = 1%nat
    /\ first <$> members g !! 0%nat = Some true
    /\ last <$> members g !! (length (members g) - 1)%nat = Some true
    /\ (length (members g) = 1%nat ->
        exists c, members g = [c] /\ first c = true /\ last c = true)
    /\ (group_closed g = true ->
        next <$> members g !! (length (members g) - 1)%nat = Some (Some 0%nat)
        /\ previous <$> members g !! 0%nat
           = Some (Some (length (members g) - 1)%nat)).
Proof.
  intros op st children cd ps g Hin Hne.
  destruct (built_group_facts _ _ _ _ _ _ Hin Hne)
    as [_ [Hf [Hl [Hf0 [Hl1 [Hn Hp]]]]]].
  repeat split; try assumption.
  intros H1. rewrite H1 in Hl1. simpl in Hl1.
  destruct (members g) as [|c [|c' l]]; try discriminate.
  exists c. simpl in *. split; [reflexivity|]. split; congruence.
Qed.

Lemma group_has_one_first_and_one_last_witness :
  exists g,
    In g (fst (as_cutobjects "op engrave" 0 [example_child] 15 1))
    /\ group_closed g = true
    /\ length (members g) = 4%nat
    /\ count_flag first (members g) = 1%nat
    /\ count_flag last (members g) = 1%nat
    /\ next <$> members g !! 3%nat = Some (Some 0%nat)
    /\ previous <$> members g !! 0%nat = Some (Some 3%nat).
Proof.
  eexists. split; [right; left; reflexivity|].
  split; [reflexivity|]. split; [reflexivity|].
  match goal with |- context [count_flag first (members ?g)] =>
    destruct (group_has_one_first_and_one_last "op engrave" 0 [example_child] 15 1 g
                ltac:(right; left; reflexivity) ltac:(discriminate))
      as [Hf [Hl [_ [_ [_ Hc]]]]]
  end.
  split; [exact Hf|]. split; [exact Hl|]. exact (Hc eq_refl).
Defined.

(** C5, as the code has it.  In a group with members that is not closed
    the two wrap-around links are set all the same: the [next] of the last
    member is the first member and the [previous] of the first member is the
    last member.  Only the [closed] flags, of the group and of each member,
    say that the contour is open. *)
Theorem open_group_keeps_its_wrap_links :
  forall op st children cd ps g,
    In g (fst (as_cutobjects op st children cd ps)) ->
    members g <> [] ->
    group_closed g = false ->
    next <$> members g !! (length (members g) - 1)%nat = Some (Some 0%nat)
    /\ previous <$> members g !! 0%nat = Some (Some (length (members g) - 1)%nat)
    /\ Forall (fun c => closed c = false) (members g).
Proof.
  intros op st children cd ps g Hin Hne Hc.
  destruct (built_group_facts _ _ _ _ _ _ Hin Hne) as [_ [_ [_ [_ [_ [Hn Hp]]]]]].
  split; [exact Hn|]. split; [exact Hp|].
  unfold as_cutobjects in Hin.
  destruct (yielded_groups_are_built _ _ _ _ _ _ Hin) as [sp [_ Hb]].
  destruct (build_group_yields _ _ _ _ _ _ Hb) as [_ [_ Hm]].
  rewrite Hm. apply Forall_lookup. intros i c Hi.
  rewrite list_lookup_imap in Hi.
  destruct (mark_first (append_cuts st ps sp) !! i); [|discriminate].
  simpl in Hi. inversion Hi; subst. rewrite wired_closed. exact Hc.
Qed.

Lemma open_group_keeps_its_wrap_links_witness :
  exists g,
    In g (fst (as_cutobjects "op engrave" 0 [example_child] 15 1))
    /\ group_closed g = false
    /\ next <$> members g !! (length (members g) - 1)%nat = Some (Some 0%nat)
    /\ previous <$> members g !! 0%nat = Some (Some (length (members g) - 1)%nat).
Proof.
  eexists. split; [left; reflexivity|]. split; [reflexivity|].
  match goal with |- context [members ?g] =>
    destruct (open_group_keeps_its_wrap_links "op engrave" 0 [example_child] 15 1 g
                ltac:(left; reflexivity) ltac:(discriminate) eq_refl)
      as [Hn [Hp _]]
  end.
  split; [exact Hn|exact Hp].
Defined.

(** C5 as the specification states it fails on an open corner of two lines: the group is
    not closed, and yet the [next] of its last member (position 1) is its
    first member (position 0) and the [previous] of its first member is its
    last member. *)
Lemma open_group_has_wrap_links :
  exists g,
    fst (as_cutobjects "op engrave" 0 [{| stroke := "blue"; subpaths := [open_corner] |}]
           15 1) = [g]
    /\ group_closed g = false
    /\ length (members g) = 2%nat
    /\ next <$> members g !! 1%nat = Some (Some 0%nat)
    /\ previous <$> members g !! 0%nat = Some (Some 1%nat).
Proof. eexists. repeat split. Qed.


(** *** The closed test *)

(** The test on squares decides the comparison of the Euclidean distance
    with the tolerance. *)
Lemma within_spec d p q :
  within d p q = true <-> (distance p q <= IZR d)%R.
Proof.
  unfold within, distance.
  set (sq := ((fst p - fst q) * (fst p - fst q)
              + (snd p - snd q) * (snd p - snd q))%Z).
  assert (Hsq : (0 <= sq)%Z).
  { subst sq. pose proof (Z.square_nonneg (fst p - fst q)).
    pose proof (Z.square_nonneg (snd p - snd q)). lia. }
  assert (HsqR : (0 <= IZR sq)%R) by (apply IZR_le; exact Hsq).
  rewrite andb_true_iff, Z.leb_le, Z.leb_le. split.
  - intros [Hd Hle].
    assert (HdR : (0 <= IZR d)%R) by (apply IZR_le; exact Hd).
    rewrite <- (sqrt_square (IZR d)) by exact HdR.
    apply sqrt_le_1_alt. rewrite <- mult_IZR. apply IZR_le. exact Hle.
  - intros Hle.
    assert (HdR : (0 <= IZR d)%R).
    { eapply Rle_trans; [apply sqrt_pos|exact Hle]. }
    split; [apply le_IZR; exact HdR|].
    apply le_IZR. rewrite mult_IZR.
    rewrite <- (sqrt_sqrt (IZR sq)) by exact HsqR.
    apply Rmult_le_compat; auto using sqrt_pos.
Qed.

Lemma last_cons_some {A} (x : A) l :
  exists y, List.last (map Some (x :: l)) None = Some y.
Proof.
  revert x. induction l as [|z l IH]; intros x; [exists x; reflexivity|].
  destruct (IH z) as [y Hy]. exists y. exact Hy.
Qed.

Lemma z_point_some seg sp : exists z, z_point (seg :: sp) = Some z.
Proof.
  unfold z_point. destruct (find is_Move (rev (seg :: sp))) as [m|] eqn:E;
    [eexists; reflexivity|].
  destruct seg as [st e| | | | |]; try (eexists; reflexivity).
  exfalso. assert (H : is_Move (Move st e) = false); [|discriminate H].
  apply (find_none _ _ E (Move st e)).
  apply in_rev. rewrite rev_involutive. left. reflexivity.
Qed.

Lemma closed_test_spec cd sp :
  sp <> [] ->
  (closed_test cd sp = true
   <-> (exists seg, List.last (map Some sp) None = Some seg /\ is_Close seg = true)
       \/ (exists z c,
             z_point sp = Some z /\ current_point sp = Some c
             /\ (distance z c <= IZR cd)%R)).
Proof.
  intros Hne. destruct sp as [|seg0 sp]; [congruence|].
  unfold closed_test, current_point.
  destruct (last_cons_some seg0 sp) as [seg Hl].
  destruct (z_point_some seg0 sp) as [z Hz].
  rewrite Hl, Hz. simpl. rewrite orb_true_iff, within_spec. split.
  - intros [H|H]; [left; exists seg; auto|right; exists z, (seg_end seg); auto].
  - intros [[seg' [H1 H2]]|[z' [c [H1 [H2 H3]]]]].
    + left. congruence.
    + right. congruence.
Qed.

(** C8.  For every group that [as_cutobjects] yields, built from the
    subpath it records as its [path]: the group is closed exactly when the
    subpath ends with a [Close] segment or the distance from its end point
    to its start point is at most [closed_distance]; every member carries
    the same flag.  The default tolerance is 15.  With it, a contour of four
    lines that ends 10 units from its start is closed and one that ends 20
    units from it is not. *)
Theorem closed_iff_close_segment_or_within_tolerance :
  forall op st children cd ps g,
    In g (fst (as_cutobjects op st children cd ps)) ->
    (group_closed g = true
     <-> (exists seg,
            List.last (map Some (path g)) None = Some seg /\ is_Close seg = true)
         \/ (exists z c,
               z_point (path g) = Some z /\ current_point (path g) = Some c
               /\ (distance z c <= IZR cd)%R))
    /\ Forall (fun c => closed c = group_closed g) (members g)
    /\ default_closed_distance = 15%Z
    /\ (exists g10,
          build_group op st default_closed_distance ps (contour_ending_at (0, 10)%Z)
          = Yielded g10
          /\ length (members g10) = 4%nat /\ group_closed g10 = true)
    /\ (exists g20,
          build_group op st default_closed_distance ps (contour_ending_at (0, 20)%Z)
          = Yielded g20
          /\ length (members g20) = 4%nat /\ group_closed g20 = false).
Proof.
  intros op st children cd ps g Hin. unfold as_cutobjects in Hin.
  destruct (yielded_groups_are_built _ _ _ _ _ _ Hin) as [sp [_ Hb]].
  assert (Hp : path g = sp).
  { unfold build_group in Hb. destruct sp; [discriminate|].
    destruct (wire _ _); [|discriminate]. inversion Hb; reflexivity. }
  destruct (build_group_yields _ _ _ _ _ _ Hb) as [Hne [Hc Hm]].
  split; [rewrite Hp, Hc; apply closed_test_spec; exact Hne|].
  split.
  { rewrite Hm. apply Forall_lookup. intros i c Hi. rewrite list_lookup_imap in Hi.
    destruct (mark_first (append_cuts st ps sp) !! i); [|discriminate].
    simpl in Hi. inversion Hi; subst. apply wired_closed. }
  split; [reflexivity|].
  split; eexists; (split; [reflexivity|]); split; reflexivity.
Qed.

Lemma closed_iff_close_segment_or_within_tolerance_witness :
  exists g,
    In g (fst (as_cutobjects "op engrave" 0 [example_child] 15 1))
    /\ path g = contour_ending_at (0, 10)%Z
    /\ (group_closed g = true
        <-> (exists seg,
               List.last (map Some (path g)) None = Some seg /\ is_Close seg = true)
            \/ (exists z c,
                  z_point (path g) = Some z /\ current_point (path g) = Some c
                  /\ (distance z c <= IZR 15)%R)).
Proof.
  eexists. split; [right; left; reflexivity|]. split; [reflexivity|].
  match goal with |- context [group_closed ?g] =>
    exact (proj1 (closed_iff_close_segment_or_within_tolerance
                    "op engrave" 0 [example_child] 15 1 g
                    ltac:(right; left; reflexivity)))
  end.
Defined.

(** *** The groups of an operation, one per subpath *)




(** *** The members of a group *)

Lemma shape_wired n b i c : shape (wired n b i c) = shape c.
Proof. unfold wired. destruct (S i <? n)%nat; reflexivity. Qed.

Lemma settings_wired n b i c : settings (wired n b i c) = settings c.
Proof. unfold wired. destruct (S i <? n)%nat; reflexivity. Qed.

Lemma passes_wired n b i c : passes (wired n b i c) = passes c.
Proof. unfold wired. destruct (S i <? n)%nat; reflexivity. Qed.

Lemma map_imap_wired {B} (f : CutObject -> B) n b l :
  (forall i c, f (wired n b i c) = f c) ->
  map f (imap (wired n b) l) = map f l.
Proof.
  intros Hf. apply list_eq. intros i.
  rewrite !list_lookup_fmap, list_lookup_imap.
  destruct (l !! i); simpl; [rewrite Hf|]; reflexivity.
Qed.

Lemma map_mark_first {B} (f : CutObject -> B) l :
  (forall c, f (set_first true c) = f c) ->
  map f (mark_first l) = map f l.
Proof. intros Hf. destruct l as [|c l]; [reflexivity|]. simpl. rewrite Hf. reflexivity. Qed.

Lemma append_cuts_shapes st ps sp :
  map shape (append_cuts st ps sp) = omap cut_of_segment sp.
Proof.
  induction sp as [|seg sp IH]; [reflexivity|]. simpl.
  destruct (cut_of_segment seg); simpl; rewrite IH; reflexivity.
Qed.

Lemma append_cuts_settings st ps sp :
  Forall (fun c => settings c = st /\ passes c = ps) (append_cuts st ps sp).
Proof.
  induction sp as [|seg sp IH]; simpl; [constructor|].
  destruct (cut_of_segment seg); [constructor; [split; reflexivity|exact IH]|exact IH].
Qed.

Lemma yielded_group op st children cd ps g :
  In g (fst (as_cutobjects op st children cd ps)) ->
  path g <> []
  /\ members g
     = imap (wired (length (append_cuts st ps (path g))) (group_closed g))
         (mark_first (append_cuts st ps (path g))).
Proof.
  intros Hin. unfold as_cutobjects in Hin.
  destruct (yielded_groups_are_built _ _ _ _ _ _ Hin) as [sp [_ Hb]].
  assert (Hp : path g = sp).
  { unfold build_group in Hb. destruct sp; [discriminate|].
    destruct (wire _ _); [|discriminate]. inversion Hb; reflexivity. }
  destruct (build_group_yields _ _ _ _ _ _ Hb) as [Hne [_ Hm]].
  rewrite Hp. split; assumption.
Qed.

(** X9 (EngraveOpNode.as_cutobjects).  The members of a group are the cuts
    of the segments of its subpath, in order: a [Line] or [Close] whose ends
    differ gives a line cut, a quadratic or cubic curve gives its cut even
    when it ends where it starts, and a [Move], a [Line] or [Close] of
    length zero and a segment of any other class give nothing.  Every
    member carries the settings and passes of the operation.  A subpath
    none of whose segments gives a cut is yielded all the same, as a group
    without members. *)
Theorem members_are_the_cuts_of_the_segments :
  forall op st children cd ps g,
    In g (fst (as_cutobjects op st children cd ps)) ->
    map shape (members g) = omap cut_of_segment (path g)
    /\ Forall (fun c => settings c = st /\ passes c = ps) (members g)
    /\ (omap cut_of_segment (path g) = [] -> members g = []).
Proof.
  intros op st children cd ps g Hin.
  destruct (yielded_group _ _ _ _ _ _ Hin) as [_ Hm].
  assert (Hs : map shape (members g) = omap cut_of_segment (path g)).
  { rewrite Hm, (map_imap_wired shape) by apply shape_wired.
    rewrite (map_mark_first shape) by reflexivity. apply append_cuts_shapes. }
  split; [exact Hs|]. split.
  - pose proof (append_cuts_settings st ps (path g)) as Hf.
    apply Forall_lookup. intros i c Hc. rewrite Hm in Hc.
    rewrite list_lookup_imap in Hc.
    destruct (mark_first (append_cuts st ps (path g)) !! i) as [c0|] eqn:E;
      [|discriminate].
    simpl in Hc. inversion Hc; subst c.
    rewrite settings_wired, passes_wired.
    destruct (append_cuts st ps (path g)) as [|c1 l]; [discriminate|].
    inversion Hf as [|? ? [H1 H2] Hl]; subst.
    destruct i as [|i]; simpl in E.
    + inversion E; subst. split; reflexivity.
    + rewrite Forall_lookup in Hl. exact (Hl i c0 E).
  - intros He. rewrite He in Hs. destruct (members g); [reflexivity|discriminate].
Qed.

Lemma members_are_the_cuts_of_the_segments_witness :
  exists g1 g2,
    fst (as_cutobjects "op engrave" 0 [example_sparse] 15 1) = [g1; g2]
    /\ members g1 = []
    /\ map shape (members g2) = [QuadCut (0, 0)%Z (7, 7)%Z (0, 0)%Z].
Proof.
  eexists. eexists. split; [reflexivity|].
  split.
  - match goal with |- members ?g = [] =>
      apply (proj2 (proj2 (members_are_the_cuts_of_the_segments
                             "op engrave" 0 [example_sparse] 15 1 g
                             ltac:(left; reflexivity))))
    end.
    reflexivity.
  - match goal with |- map shape (members ?g) = _ =>
      apply (proj1 (members_are_the_cuts_of_the_segments
                      "op engrave" 0 [example_sparse] 15 1 g
                      ltac:(right; left; reflexivity)))
    end.
Defined.

(** *** The links go round the group *)

Lemma member_links op st children cd ps g i c :
  In g (fst (as_cutobjects op st children cd ps)) ->
  members g !! i = Some c ->
  next c = Some (if (S i <? length (members g))%nat then S i else O)
  /\ previous c
     = Some (if (i =? 0)%nat then (length (members g) - 1)%nat else (i - 1)%nat).
Proof.
  intros Hin Hc. destruct (yielded_group _ _ _ _ _ _ Hin) as [_ Hm].
  assert (Hl : length (members g) = length (append_cuts st ps (path g)))
    by (rewrite Hm, length_imap, mark_first_length; reflexivity).
  rewrite Hm, list_lookup_imap in Hc.
  destruct (mark_first (append_cuts st ps (path g)) !! i) as [c0|]; [|discriminate].
  simpl in Hc. inversion Hc; subst c. rewrite wired_next, wired_previous, Hl.
  split; reflexivity.
Qed.

(** X10 (EngraveOpNode.as_cutobjects).  In a group of [n] members the links
    go round the group: the [next] of the member at position [i] is the
    member at position [i + 1], and the first member after the last one;
    its [previous] is the member at position [i - 1], and the last member
    before the first one.  Going to the next member and back, or to the
    previous member and forth, returns to the same member. *)
Theorem links_go_round_the_group :
  forall op st children cd ps g i c,
    In g (fst (as_cutobjects op st children cd ps)) ->
    members g !! i = Some c ->
    let n := length (members g) in
    next c = Some (if (S i <? n)%nat then S i else O)
    /\ previous c = Some (if (i =? 0)%nat then (n - 1)%nat else (i - 1)%nat)
    /\ (exists j cj, next c = Some j /\ members g !! j = Some cj
                     /\ previous cj = Some i)
    /\ (exists j cj, previous c = Some j /\ members g !! j = Some cj
                     /\ next cj = Some i).
Proof.
  intros op st children cd ps g i c Hin Hc n.
  destruct (member_links _ _ _ _ _ g i c Hin Hc) as [Hn Hp]. fold n in Hn, Hp.
  pose proof (lookup_lt_Some _ _ _ Hc) as Hi. fold n in Hi.
  split; [exact Hn|]. split; [exact Hp|]. split.
  - set (j := if (S i <? n)%nat then S i else O) in *.
    assert (Hj : (j < n)%nat) by (subst j; destruct (Nat.ltb_spec (S i) n); lia).
    destruct (lookup_lt_is_Some_2 (members g) j Hj) as [cj Hcj].
    exists j, cj. split; [exact Hn|]. split; [exact Hcj|].
    destruct (member_links _ _ _ _ _ g j cj Hin Hcj) as [_ Hpj]. rewrite Hpj.
    fold n. f_equal. subst j.
    destruct (Nat.ltb_spec (S i) n); simpl; lia.
  - set (j := if (i =? 0)%nat then (n - 1)%nat else (i - 1)%nat) in *.
    assert (Hj : (j < n)%nat) by (subst j; destruct (Nat.eqb_spec i 0); lia).
    destruct (lookup_lt_is_Some_2 (members g) j Hj) as [cj Hcj].
    exists j, cj. split; [exact Hp|]. split; [exact Hcj|].
    destruct (member_links _ _ _ _ _ g j cj Hin Hcj) as [Hnj _]. rewrite Hnj.
    fold n. f_equal. subst j.
    destruct (Nat.eqb_spec i 0); case_compare.
Qed.

Lemma links_go_round_the_group_witness :
  exists g c,
    In g (fst (as_cutobjects "op engrave" 0 [example_child] 15 1))
    /\ members g !! 3%nat = Some c
    /\ next c = Some 0%nat
    /\ previous c = Some 2%nat.
Proof.
  eexists. eexists. split; [right; left; reflexivity|]. split; [reflexivity|].
  match goal with |- next ?c = _ /\ _ =>
    destruct (links_go_round_the_group "op engrave" 0 [example_child] 15 1 _ 3 c
                ltac:(right; left; reflexivity) eq_refl) as [Hn [Hp _]]
  end.
  split; [exact Hn|exact Hp].
Defined.

(** *** The colour attributes of the node *)

Lemma is_in_spec x l : is_in x l = true <-> x ∈ l.
Proof.
  unfold is_in. induction l as [|y l IH]; simpl.
  - split; [discriminate|]. intros H. inversion H.
  - rewrite orb_true_iff, IH, elem_of_cons, String.eqb_eq. reflexivity.
Qed.

Lemma is_in_false x l : is_in x l = false <-> x ∉ l.
Proof.
  rewrite <- is_in_spec. destruct (is_in x l); split; intros H; try reflexivity;
    try discriminate; try (intros H'; discriminate). exfalso. apply H. reflexivity.
Qed.

Lemma list_remove_spec x l :
  NoDup l -> x ∈ l ->
  exists l', list_remove x l = Some l'
             /\ NoDup l'
             /\ forall b, b ∈ l' <-> (b ∈ l /\ b <> x).
Proof.
  induction l as [|y l IH]; intros Hd Hx; [inversion Hx|].
  apply NoDup_cons in Hd. destruct Hd as [Hy Hd]. simpl.
  destruct (String.eqb_spec x y) as [->|Hne].
  - exists l. split; [reflexivity|]. split; [exact Hd|].
    intros b. rewrite elem_of_cons. split.
    + intros Hb. split; [right; exact Hb|]. intros ->. contradiction.
    + intros [[->|Hb] Hn]; [contradiction|exact Hb].
  - apply elem_of_cons in Hx. destruct Hx as [->|Hx]; [contradiction|].
    destruct (IH Hd Hx) as [l' [Hr [Hd' Hl']]]. rewrite Hr. simpl.
    exists (y :: l'). split; [reflexivity|]. split.
    + apply NoDup_cons. split; [|exact Hd']. rewrite Hl'. intros [H _]. contradiction.
    + intros b. rewrite !elem_of_cons, Hl'. split.
      * intros [->|[Hb Hn]]; [split; [left; reflexivity|congruence]|].
        split; [right; exact Hb|exact Hn].
      * intros [[->|Hb] Hn]; [left; reflexivity|right; split; assumption].
Qed.

Lemma add_color_attribute_spec a l :
  NoDup l ->
  NoDup (add_color_attribute a l)
  /\ forall b, b ∈ add_color_attribute a l <-> (b ∈ l \/ b = a).
Proof.
  intros Hd. unfold add_color_attribute.
  destruct (is_in a l) eqn:E; simpl.
  - apply is_in_spec in E. split; [exact Hd|]. intros b. split; [auto|].
    intros [H| ->]; assumption.
  - apply is_in_false in E. split.
    + apply NoDup_app. split; [exact Hd|]. split; [|apply NoDup_singleton].
      intros x Hx Hx'. apply list_elem_of_singleton in Hx'. subst. contradiction.
    + intros b. rewrite elem_of_app, list_elem_of_singleton. reflexivity.
Qed.

Lemma remove_color_attribute_spec a l :
  NoDup l ->
  exists l', remove_color_attribute a l = inl l'
             /\ NoDup l'
             /\ forall b, b ∈ l' <-> (b ∈ l /\ b <> a).
Proof.
  intros Hd. unfold remove_color_attribute.
  destruct (is_in a l) eqn:E.
  - apply is_in_spec in E. destruct (list_remove_spec a l Hd E) as [l' [Hr H]].
    rewrite Hr. exists l'. split; [reflexivity|exact H].
  - apply is_in_false in E. exists l. split; [reflexivity|]. split; [exact Hd|].
    intros b. split; [|intros [H _]; exact H].
    intros Hb. split; [exact Hb|]. intros ->. contradiction.
Qed.

Lemma calls_keep_a_set cs : forall l,
  NoDup l ->
  exists l', fold_left call_attribute cs (inl l) = inl l' /\ NoDup l'.
Proof.
  induction cs as [|c cs IH]; intros l Hd; [exists l; auto|].
  simpl. destruct c as [a|a].
  - apply IH. apply add_color_attribute_spec, Hd.
  - destruct (remove_color_attribute_spec a l Hd) as [l' [Hr [Hd' _]]].
    rewrite Hr. apply IH, Hd'.
Qed.

Lemma has_color_attribute_eq b l l' :
  (b ∈ l' <-> b ∈ l) -> has_color_attribute b l' = has_color_attribute b l.
Proof.
  unfold has_color_attribute. intros H.
  destruct (is_in b l) eqn:E.
  - apply is_in_spec. apply H. apply is_in_spec. exact E.
  - apply is_in_false. rewrite H. apply is_in_false. exact E.
Qed.

(** X11 (EngraveOpNode.has_color_attribute, add_color_attribute,
    remove_color_attribute).  Whatever calls of [add_color_attribute] and
    [remove_color_attribute] are made on a new node, none raises and
    [allowed_attributes] never holds an attribute twice.  The list
    therefore behaves as a set: after [add_color_attribute(a)] the node has
    [a], after [remove_color_attribute(a)] it has not, and neither call
    changes whether it has another attribute. *)
Theorem allowed_attributes_is_a_set :
  forall cs,
    exists l,
      attributes_after cs = inl l
      /\ NoDup l
      /\ forall a,
           has_color_attribute a (add_color_attribute a l) = true
           /\ exists l',
                remove_color_attribute a l = inl l'
                /\ has_color_attribute a l' = false
                /\ forall b,
                     String.eqb b a = false ->
                     has_color_attribute b (add_color_attribute a l)
                     = has_color_attribute b l
                     /\ has_color_attribute b l' = has_color_attribute b l.
Proof.
  intros cs. unfold attributes_after.
  destruct (calls_keep_a_set cs initial_attributes) as [l [Hl Hd]].
  { apply NoDup_singleton. }
  exists l. split; [exact Hl|]. split; [exact Hd|]. intros a.
  destruct (add_color_attribute_spec a l Hd) as [_ Ha].
  destruct (remove_color_attribute_spec a l Hd) as [l' [Hr [_ Hl']]].
  split; [apply is_in_spec, Ha; right; reflexivity|].
  exists l'. split; [exact Hr|]. split.
  - apply is_in_false. rewrite Hl'. intros [_ H]. congruence.
  - intros b Hb. apply String.eqb_neq in Hb. split.
    + apply has_color_attribute_eq. rewrite Ha. split; [intros [H|H]; congruence|auto].
    + apply has_color_attribute_eq. rewrite Hl'. split; [intros [H _]; exact H|auto].
Qed.

(** *** Classification and drag and drop *)

Section NodeFacts.

Context {Color : Type}.
Variable Color_abs : Color -> Color.
Variable Color_argb : Color -> option Z.
Variable Color_distance : Color -> Color -> Q.
Variable Color_eqb : Color -> Color -> bool.
Variable op_nodes : list string.

(** X12 (EngraveOpNode.classify).  [classify] returns either
    [(False, False)], and then it has not touched the tree, or
    [(True, self.stopop)], and then the node is of one of the five types of
    [_allowed_elements].  An operation that is not the default one adds a
    reference to every node it classifies; the default operation classifies
    only when [usedefault] is set and adds no reference.  An operation
    that is not the default one and has no colour attribute left classifies
    every node of an allowed type. *)
Theorem classify_returns_stopop_or_nothing :
  forall (op : Operation Color) (node : DragNode Color) fuzzy fuzzydistance usedefault,
    let r := classify Color_abs Color_argb Color_distance Color_eqb op node fuzzy fuzzydistance
               usedefault in
    (r = ((false, false), [])
     \/ (is_in (node_type node) _allowed_elements = true
         /\ r = ((true, stopop op),
                 if op_default op then []
                 else [AddReference (node_id node) None])
         /\ (op_default op = true -> usedefault = true)))
    /\ (is_in (node_type node) _allowed_elements = true ->
        op_default op = false ->
        allowed_attributes op = [] ->
        r = ((true, stopop op), [AddReference (node_id node) None])).
Proof.
  intros op node fuzzy fuzzydistance usedefault r. subst r. unfold classify, valid_node.
  destruct (is_in (node_type node) _allowed_elements); [|split; [left; reflexivity|]].
  2:{ discriminate. }
  destruct (op_default op); simpl.
  - split; [|discriminate].
    destruct usedefault; [right|left; reflexivity]. repeat split.
  - split.
    + destruct (0 <? length (allowed_attributes op))%nat;
        [destruct (matching_attribute Color_abs _ _ _ _ _ _ _ _); [right|left; reflexivity]|right];
        repeat split; discriminate.
    + intros _ _ H. rewrite H. reflexivity.
Qed.

Lemma matching_attribute_exists op node fuzzy fuzzydistance l :
  matching_attribute Color_abs Color_argb Color_distance Color_eqb op node fuzzy
      fuzzydistance l = true
  <-> exists a col,
        a ∈ l /\ attribute node a = Some (Some col)
        /\ matching_color Color_argb Color_distance Color_eqb fuzzy fuzzydistance
             (Some (Color_abs (op_color op))) (Some (Color_abs col)) = true.
Proof.
  induction l as [|a l IH]; cbn [matching_attribute].
  - split; [discriminate|]. intros [a [col [H _]]]. inversion H.
  - destruct (attribute node a) as [[col|]|] eqn:E.
    + destruct (matching_color Color_argb Color_distance Color_eqb fuzzy fuzzydistance
                  (Some (Color_abs (op_color op))) (Some (Color_abs col))) eqn:Em.
      * split; [|reflexivity]. intros _. exists a, col.
        split; [left|]. split; assumption.
      * rewrite IH. split.
        -- intros [b [cb [Hb H]]]. exists b, cb. split; [right; exact Hb|exact H].
        -- intros [b [cb [Hb [H1 H2]]]]. apply elem_of_cons in Hb.
           destruct Hb as [->|Hb]; [congruence|]. exists b, cb. auto.
    + rewrite IH. split.
      * intros [b [cb [Hb H]]]. exists b, cb. split; [right; exact Hb|exact H].
      * intros [b [cb [Hb [H1 H2]]]]. apply elem_of_cons in Hb.
        destruct Hb as [->|Hb]; [congruence|]. exists b, cb. auto.
    + rewrite IH. split.
      * intros [b [cb [Hb H]]]. exists b, cb. split; [right; exact Hb|exact H].
      * intros [b [cb [Hb [H1 H2]]]]. apply elem_of_cons in Hb.
        destruct Hb as [->|Hb]; [congruence|]. exists b, cb. auto.
Qed.

(** X13 (EngraveOpNode.classify).  What [classify] returns and does
    depends on which colour attributes the operation has, not on their order
    in [allowed_attributes] or on how often one is listed: two operations
    that differ only in a list with the same attributes classify every node
    alike. *)
Theorem classify_ignores_the_order_of_attributes :
  forall (op op' : Operation Color) (node : DragNode Color) fuzzy fuzzydistance usedefault,
    op_default op' = op_default op ->
    stopop op' = stopop op ->
    op_color op' = op_color op ->
    (forall a, a ∈ allowed_attributes op' <-> a ∈ allowed_attributes op) ->
    classify Color_abs Color_argb Color_distance Color_eqb op' node fuzzy fuzzydistance
      usedefault
    = classify Color_abs Color_argb Color_distance Color_eqb op node fuzzy fuzzydistance
               usedefault.
Proof.
  intros op op' node fuzzy fuzzydistance usedefault Hd Hs Hc Ha.
  unfold classify. rewrite Hd, Hs.
  assert (Hl : (0 <? length (allowed_attributes op'))%nat
               = (0 <? length (allowed_attributes op))%nat).
  { destruct (allowed_attributes op') as [|a' l'] eqn:E',
             (allowed_attributes op) as [|a l] eqn:E; try reflexivity; exfalso.
    - assert (H : a ∈ @nil string) by (apply Ha; left). inversion H.
    - assert (H : a' ∈ @nil string) by (apply Ha; left). inversion H. }
  assert (Hm : matching_attribute Color_abs Color_argb Color_distance Color_eqb op' node fuzzy
      fuzzydistance (allowed_attributes op')
               = matching_attribute Color_abs Color_argb Color_distance Color_eqb op node fuzzy
      fuzzydistance (allowed_attributes op)).
  { apply eq_true_iff_eq. rewrite !matching_attribute_exists. rewrite Hc.
    split; intros [a [col [H1 H2]]]; exists a, col; (split; [apply Ha; exact H1|exact H2]). }
  rewrite Hl, Hm. reflexivity.
Qed.

Lemma drop_elements_spec es :
  fst (drop_elements true es) = fst (drop_elements false es)
  /\ snd (drop_elements false es) = []
  /\ fst (drop_elements true es) = any_call (snd (drop_elements true es))
  /\ snd (drop_elements true es)
     = map (fun e => AddReference (fst e) None)
         (List.filter (fun e => is_in (snd e) _allowed_elements_dnd) es).
Proof.
  induction es as [|[e t] es [IH1 [IH2 [IH3 IH4]]]]; [repeat split|].
  cbn [drop_elements List.filter fst snd].
  destruct (drop_elements true es) as [b1 c1], (drop_elements false es) as [b0 c0].
  cbn [fst snd] in *. subst.
  destruct (is_in t _allowed_elements_dnd); cbn [fst snd app map any_call];
    repeat split; reflexivity.
Qed.

(** X14 (EngraveOpNode.drop).  What [drop] returns does not depend on
    [modify]; with [modify] false it makes no call on the tree; and it
    returns [True] exactly when, with [modify] true, it makes one.  An
    element, or a reference to one, whose type is not among the six of
    [_allowed_elements_dnd] is refused; a file or a group is taken when it
    holds an element of such a type, and then a reference is added for each
    of these elements, in order, and for no other. *)
Theorem drop_returns_whether_it_would_modify :
  forall drag_node : DragNode Color,
    fst (drop op_nodes drag_node true) = fst (drop op_nodes drag_node false)
    /\ snd (drop op_nodes drag_node false) = []
    /\ fst (drop op_nodes drag_node true) = any_call (snd (drop op_nodes drag_node true))
    /\ (String.prefix "elem" (node_type drag_node) = true ->
        is_in (node_type drag_node) _allowed_elements_dnd = false ->
        drop op_nodes drag_node true = (false, []))
    /\ (node_type drag_node = "reference" ->
        is_in (reference_type drag_node) _allowed_elements_dnd = false ->
        drop op_nodes drag_node true = (false, []))
    /\ (is_in (node_type drag_node) op_nodes = false ->
        is_in (node_type drag_node) ["file"; "group"] = true ->
        snd (drop op_nodes drag_node true)
        = map (fun e => AddReference (fst e) None)
            (List.filter (fun e => is_in (snd e) _allowed_elements_dnd)
               (flat_elements drag_node))).
Proof.
  intros drag_node. unfold drop.
  destruct (drop_elements_spec (flat_elements drag_node)) as [H1 [H2 [H3 H4]]].
  destruct (String.prefix "elem" (node_type drag_node)) eqn:Ep.
  - assert (Hr : String.eqb (node_type drag_node) "reference" = false).
    { destruct (String.eqb_spec (node_type drag_node) "reference") as [E|E];
        [rewrite E in Ep; discriminate|reflexivity]. }
    assert (Hf : is_in (node_type drag_node) ["file"; "group"] = false).
    { unfold is_in. simpl.
      destruct (String.eqb_spec (node_type drag_node) "file") as [E|_];
        [rewrite E in Ep; discriminate|].
      destruct (String.eqb_spec (node_type drag_node) "group") as [E|_];
        [rewrite E in Ep; discriminate|reflexivity]. }
    destruct (is_in (node_type drag_node) _allowed_elements_dnd);
      cbn [negb fst snd any_call]; repeat split; try discriminate;
      try (intros E; rewrite E in Hr; discriminate Hr);
      intros _ H; rewrite Hf in H; discriminate H.
  - destruct (String.eqb_spec (node_type drag_node) "reference") as [Er|Er].
    + assert (Hf : is_in (node_type drag_node) ["file"; "group"] = false)
        by (rewrite Er; reflexivity).
      destruct (is_in (reference_type drag_node) _allowed_elements_dnd);
        cbn [negb fst snd any_call]; repeat split; try discriminate;
        intros _ H; rewrite Hf in H; discriminate H.
    + destruct (is_in (node_type drag_node) op_nodes);
        [cbn [fst snd any_call]; repeat split; try discriminate; intros; congruence|].
      destruct (is_in (node_type drag_node) ["file"; "group"]).
      * repeat split; try discriminate; try assumption; intros; congruence.
      * cbn [fst snd any_call]. repeat split; try discriminate; intros; congruence.
Qed.

End NodeFacts.

Lemma classify_ignores_the_order_of_attributes_witness :
  classify Z.abs Some (fun a b => inject_Z (Z.abs (a - b))) Z.eqb
    (example_operation ["fill"; "stroke"; "fill"]) (example_node (-255)) false 100 false
  = ((true, true), [AddReference 7 None]).
Proof.
  rewrite (classify_ignores_the_order_of_attributes Z.abs Some
             (fun a b => inject_Z (Z.abs (a - b))) Z.eqb
             (example_operation ["stroke"; "fill"])
             (example_operation ["fill"; "stroke"; "fill"])
             (example_node (-255)) false 100 false eq_refl eq_refl eq_refl).
  - reflexivity.
  - intros a. simpl. rewrite !elem_of_cons. split; intros H; tauto.
Defined.


End EngraveFacts.

(** ** Facts about the Newly driver *)

Module NewlyFacts.
Import Py Newly.

(** *** Calls on the controller *)

Lemma con_returns c d :
  issued d 0 = None ->
  con c d = Ret tt (set_connection (effect c (log_call c (connection d))) d).
Proof. unfold issued, con. rewrite Nat.add_0_r. intros H. rewrite H. reflexivity. Qed.

Lemma con_raises c d e :
  issued d 0 = Some e ->
  con c d = Raise e (set_connection (log_call c (connection d)) d).
Proof. unfold issued, con. rewrite Nat.add_0_r. intros H. rewrite H. reflexivity. Qed.

Lemma effect_calls c k : calls (effect c k) = calls k.
Proof. destruct c; reflexivity. Qed.

Lemma effect_faults c k : faults (effect c k) = faults k.
Proof. destruct c; reflexivity. Qed.

Lemma issued_after c d n :
  issued (set_connection (effect c (log_call c (connection d))) d) n = issued d (S n).
Proof.
  unfold issued. simpl. rewrite effect_calls, effect_faults. simpl.
  rewrite length_app. simpl. f_equal. lia.
Qed.

Lemma issued_after_failure c d n :
  issued (set_connection (log_call c (connection d)) d) n = issued d (S n).
Proof. unfold issued. simpl. rewrite length_app. simpl. f_equal. lia. Qed.

Lemma last_call_snoc l l' c : l' = l ++ [c] -> last_call l' = Some c.
Proof. intros ->. unfold last_call. rewrite map_app. apply last_last. Qed.

(** *** [move_abs] and [move_rel] *)

(** [con.sync()], then [con.set_xy(x, y)] under
    [except ConnectionError: pass], then [con.update()]: what happens, by
    what the transport does during the three calls. *)
Lemma three_calls x y d :
  match issued d 0 with
  | Some e =>
      (con Sync;; except_ConnectionError_pass (con (SetXY x y));; con Update) d
      = Raise e (set_connection (log_call Sync (connection d)) d)
  | None =>
      match issued d 1 with
      | Some e =>
          if is_ConnectionError e then
            match issued d 2 with
            | Some e2 =>
                exists d',
                  (con Sync;; except_ConnectionError_pass (con (SetXY x y));; con Update) d
                  = Raise e2 d'
                  /\ calls (connection d')
                     = calls (connection d) ++ [Sync; SetXY x y; Update]
            | None =>
                exists d',
                  (con Sync;; except_ConnectionError_pass (con (SetXY x y));; con Update) d
                  = Ret tt d'
                  /\ calls (connection d')
                     = calls (connection d) ++ [Sync; SetXY x y; Update]
                  /\ _last_x (connection d') = _last_x (connection d)
                  /\ _last_y (connection d') = _last_y (connection d)
                  /\ _aborting d' = _aborting d
            end
          else
            exists d',
              (con Sync;; except_ConnectionError_pass (con (SetXY x y));; con Update) d
              = Raise e d'
              /\ calls (connection d') = calls (connection d) ++ [Sync; SetXY x y]
      | None =>
          match issued d 2 with
          | Some e2 =>
              exists d',
                (con Sync;; except_ConnectionError_pass (con (SetXY x y));; con Update) d
                = Raise e2 d'
                /\ calls (connection d')
                   = calls (connection d) ++ [Sync; SetXY x y; Update]
          | None =>
              exists d',
                (con Sync;; except_ConnectionError_pass (con (SetXY x y));; con Update) d
                = Ret tt d'
                /\ calls (connection d')
                   = calls (connection d) ++ [Sync; SetXY x y; Update]
                /\ _last_x (connection d') = x
                /\ _last_y (connection d') = y
                /\ _aborting d' = _aborting d
          end
      end
  end.
Proof.
  destruct (issued d 0) as [e0|] eqn:E0.
  { unfold bind. rewrite (con_raises _ _ _ E0). reflexivity. }
  unfold bind, except_ConnectionError_pass. rewrite (con_returns _ _ E0).
  set (d1 := set_connection (effect Sync (log_call Sync (connection d))) d).
  assert (H1 : issued d1 0 = issued d 1) by apply issued_after.
  assert (H2 : issued d1 1 = issued d 2) by apply issued_after.
  destruct (issued d 1) as [e1|] eqn:E1.
  - rewrite (con_raises _ _ _ H1).
    destruct (is_ConnectionError e1).
    + set (d2 := set_connection (log_call (SetXY x y) (connection d1)) d1).
      assert (H3 : issued d2 0 = issued d 2)
        by (rewrite <- H2; apply issued_after_failure).
      destruct (issued d 2) as [e2|] eqn:E2.
      * rewrite (con_raises _ _ _ H3). eexists. split; [reflexivity|].
        simpl. rewrite <- !app_assoc. reflexivity.
      * rewrite (con_returns _ _ H3). eexists. split; [reflexivity|].
        simpl. rewrite <- !app_assoc. repeat split.
    + eexists. split; [reflexivity|]. simpl. rewrite <- !app_assoc. reflexivity.
  - rewrite (con_returns _ _ H1).
    set (d2 := set_connection
                 (effect (SetXY x y) (log_call (SetXY x y) (connection d1))) d1).
    assert (H3 : issued d2 0 = issued d 2) by (rewrite <- H2; apply issued_after).
    destruct (issued d 2) as [e2|] eqn:E2.
    + rewrite (con_raises _ _ _ H3). eexists. split; [reflexivity|].
      simpl. rewrite <- !app_assoc. reflexivity.
    + rewrite (con_returns _ _ H3). eexists. split; [reflexivity|].
      simpl. rewrite <- !app_assoc. repeat split.
Qed.

(** The position the two methods ask for. *)
Lemma move_abs_calls x y d :
  move_abs x y d
  = (con Sync;;
     except_ConnectionError_pass
       (con (SetXY
               (fst (if swap_xy (service d)
                     then physical_to_device_position (service d) y x
                     else physical_to_device_position (service d) x y))
               (snd (if swap_xy (service d)
                     then physical_to_device_position (service d) y x
                     else physical_to_device_position (service d) x y))));;
     con Update) d.
Proof.
  unfold move_abs. unfold bind at 1. unfold get.
  destruct (swap_xy (service d));
    destruct (physical_to_device_position (service d) _ _); reflexivity.
Qed.

Lemma move_rel_calls dx dy d :
  move_rel dx dy d
  = (con Sync;;
     except_ConnectionError_pass
       (con (SetXY
               (_last_x (connection d)
                + fst (if swap_xy (service d)
                       then physical_to_device_length (service d) dy dx
                       else physical_to_device_length (service d) dx dy))
               (_last_y (connection d)
                + snd (if swap_xy (service d)
                       then physical_to_device_length (service d) dy dx
                       else physical_to_device_length (service d) dx dy))));;
     con Update) d.
Proof.
  unfold move_rel. unfold bind at 1. unfold get.
  destruct (swap_xy (service d));
    destruct (physical_to_device_length (service d) _ _) as [ux uy]; simpl;
    unfold bind, except_ConnectionError_pass, get, con;
    destruct (faults (connection d) (length (calls (connection d)))); reflexivity.
Qed.


(** C10, as the code has it.  In [move_abs] and [move_rel] an exception of
    class [ConnectionError] raised by [set_xy] is swallowed whether or not
    an abort has been requested: the methods do not read [_aborting].  The
    position is then left as it was and [update()] is still called.  Every
    other exception leaves the method: any exception raised by [sync()] or
    by [update()], and an exception of another class raised by [set_xy]. *)
Theorem move_swallows_any_connection_error_of_set_xy :
  forall (d : NewlyDriver) (m : M NewlyDriver unit),
    (exists x y, m = move_abs x y) \/ (exists dx dy, m = move_rel dx dy) ->
    (forall e, issued d 0 = Some e -> exists d', m d = Raise e d')
    /\ (forall e,
          issued d 0 = None -> issued d 1 = Some e -> is_ConnectionError e = true ->
          issued d 2 = None ->
          exists d',
            m d = Ret tt d'
            /\ _aborting d' = _aborting d
            /\ _last_x (connection d') = _last_x (connection d)
            /\ _last_y (connection d') = _last_y (connection d)
            /\ last_call (calls (connection d')) = Some Update)
    /\ (forall e,
          issued d 0 = None -> issued d 1 = Some e -> is_ConnectionError e = false ->
          exists d', m d = Raise e d')
    /\ (forall e,
          issued d 0 = None ->
          (issued d 1 = None
           \/ exists e1, issued d 1 = Some e1 /\ is_ConnectionError e1 = true) ->
          issued d 2 = Some e ->
          exists d', m d = Raise e d').
Proof.
  intros d m Hm.
  assert (Hshape : exists x y,
            m d = (con Sync;; except_ConnectionError_pass (con (SetXY x y));;
                   con Update) d).
  { destruct Hm as [[x [y ->]]|[dx [dy ->]]].
    - eexists. eexists. apply move_abs_calls.
    - eexists. eexists. apply move_rel_calls. }
  destruct Hshape as [x [y Hs]]. rewrite Hs. clear Hs Hm.
  pose proof (three_calls x y d) as H.
  split; [|split; [|split]].
  - intros e E0. rewrite E0 in H. eexists. exact H.
  - intros e E0 E1 He E2. rewrite E0, E1, He, E2 in H.
    destruct H as [d' [Hr [Hc [Hx [Hy Ha]]]]]. exists d'.
    repeat split; try assumption.
    rewrite Hc. apply (last_call_snoc (calls (connection d) ++ [Sync; SetXY x y])
                        _ Update). rewrite <- app_assoc. reflexivity.
  - intros e E0 E1 He. rewrite E0, E1, He in H.
    destruct H as [d' [Hr _]]. exists d'. exact Hr.
  - intros e E0 E1 E2. rewrite E0, E2 in H.
    destruct E1 as [E1|[e1 [E1 He1]]]; rewrite E1 in H; rewrite ?He1 in H;
      destruct H as [d' [Hr _]]; exists d'; exact Hr.
Qed.

Lemma move_swallows_any_connection_error_of_set_xy_witness :
  exists d',
    move_abs "1mm" "2mm" (example_driver second_call_fails true) = Ret tt d'
    /\ _aborting d' = true
    /\ _last_x (connection d') = 0%Z
    /\ _last_y (connection d') = 0%Z
    /\ last_call (calls (connection d')) = Some Update.
Proof.
  exact (proj1 (proj2 (move_swallows_any_connection_error_of_set_xy
                         (example_driver second_call_fails true)
                         (move_abs "1mm" "2mm")
                         (or_introl (ex_intro _ "1mm" (ex_intro _ "2mm" eq_refl)))))
           ConnectionError eq_refl eq_refl eq_refl eq_refl).
Defined.

(** C10 as the specification states it fails both ways.  With no abort requested, a
    [ConnectionError] raised by [set_xy] is swallowed and [move_abs] returns;
    with an abort requested, a [ConnectionError] raised by [update()] leaves
    [move_abs]. *)
Lemma connection_error_swallowed_without_abort :
  _aborting (example_driver second_call_fails false) = false
  /\ issued (example_driver second_call_fails false) 1 = Some ConnectionError
  /\ (exists d',
        move_abs "1mm" "2mm" (example_driver second_call_fails false) = Ret tt d')
  /\ _aborting (example_driver third_call_fails true) = true
  /\ (exists d',
        move_abs "1mm" "2mm" (example_driver third_call_fails true)
        = Raise ConnectionError d').
Proof. repeat split; eexists; reflexivity. Qed.


(** *** The sample loop of the curve branch *)

Lemma con_clean c d :
  no_faults (connection d) -> con c d = Ret tt (after c d).
Proof. intros H. apply con_returns. apply H. Qed.

Lemma after_frame c d : frame d (after c d) [c].
Proof.
  unfold frame, after. simpl. rewrite effect_calls, effect_faults. simpl. auto.
Qed.

Lemma frame_refl d : frame d d [].
Proof. unfold frame. rewrite app_nil_r. auto. Qed.

Lemma frame_trans d1 d2 d3 a b :
  frame d1 d2 a -> frame d2 d3 b -> frame d1 d3 (a ++ b).
Proof.
  intros [H1 [H2 [H3 H4]]] [G1 [G2 [G3 G4]]]. unfold frame.
  rewrite G1, H1, app_assoc. repeat split; congruence.
Qed.

Lemma frame_no_faults d d' new :
  frame d d' new -> no_faults (connection d) -> no_faults (connection d').
Proof. intros [_ [H _]] Hn k. rewrite H. apply Hn. Qed.



Lemma rapid_mode_calls_app a b :
  rapid_mode_calls (a ++ b) = rapid_mode_calls a ++ rapid_mode_calls b.
Proof. unfold rapid_mode_calls. apply List.filter_app. Qed.

Lemma rapid_mode_calls_sleeps n : rapid_mode_calls (replicate n Sleep) = [].
Proof. induction n; simpl; auto. Qed.

Lemma progress_trans d1 d2 d3 a b n m :
  progress d1 d2 a n -> progress d2 d3 b m -> progress d1 d3 (a ++ b) (n + m).
Proof.
  intros [H1 [H2 [H3 [H4 H5]]]] [G1 [G2 [G3 [G4 G5]]]].
  split; [eapply frame_trans; eassumption|].
  split; [lia|]. split; [assumption|]. split; [congruence|].
  rewrite rapid_mode_calls_app, H5, G5. reflexivity.
Qed.

Lemma check_passes env d :
  _aborting d = false -> abort_request env (polls d) = false ->
  check_aborting env d = Ret false (set_polls (S (polls d)) (set_aborting false d)).
Proof.
  intros Ha He. unfold check_aborting. unfold bind, get, modify. simpl.
  rewrite Ha, He. reflexivity.
Qed.

Lemma check_aborts env d :
  no_faults (connection d) ->
  _aborting d || abort_request env (polls d) = true ->
  check_aborting env d
  = Ret true (set_aborting false
                (after Abort (set_polls (S (polls d)) (set_aborting true d)))).
Proof.
  intros Hn Ha. unfold check_aborting. unfold bind at 1. unfold get at 1.
  unfold bind at 1. unfold modify at 1. unfold bind at 1. unfold get at 1.
  cbn [_aborting set_polls set_aborting]. rewrite Ha.
  unfold bind. rewrite con_clean by exact Hn. reflexivity.
Qed.

Lemma progress_refl d : _aborting d = false -> progress d d [] 0.
Proof. intros H. split; [apply frame_refl|]. split; [lia|]. split; [exact H|]. split; reflexivity. Qed.

Lemma after_progress c d :
  _aborting d = false ->
  (forall k, mode (effect c k) = mode k) ->
  is_rapid_mode c = false ->
  progress d (after c d) [c] 0.
Proof.
  intros Ha Hm Hc. split; [apply after_frame|]. split; [simpl; lia|].
  split; [exact Ha|]. split; [unfold after; simpl; rewrite Hm; reflexivity|].
  unfold rapid_mode_calls. simpl. rewrite Hc. reflexivity.
Qed.

Lemma sleeps_progress n : forall d,
  _aborting d = false ->
  exists d', sleeps n d = Ret tt d'
             /\ progress d d' (replicate n Sleep) 0.
Proof.
  induction n as [|n IH]; intros d Ha.
  - exists d. split; [reflexivity|apply progress_refl; exact Ha].
  - cbn [sleeps]. unfold bind at 1. unfold sleep, modify.
    set (d1 := set_connection (log_call Sleep (connection d)) d).
    assert (H1 : progress d d1 [Sleep] 0).
    { split; [unfold frame; simpl; auto|]. split; [simpl; lia|]. split; [exact Ha|].
      split; reflexivity. }
    destruct (IH d1 Ha) as [d' [Hs Hp]]. exists d'. split; [exact Hs|].
    exact (progress_trans _ _ _ _ _ _ _ H1 Hp).
Qed.



Lemma undisturbed_tail env k n :
  undisturbed env k (S n) -> undisturbed env (S k) n.
Proof.
  intros H j Hj. specialize (H (S j) ltac:(lia)).
  replace (S k + j)%nat with (k + S j)%nat by lia. exact H.
Qed.

Lemma undisturbed_head env k n :
  undisturbed env k (S n) ->
  abort_request env k = false /\ resume_after env k <> None.
Proof. intros H. specialize (H O ltac:(lia)). rewrite Nat.add_0_r in H. exact H. Qed.

Lemma mark_at_is_mark point st t : marks [mark_at point st t] = [mark_at point st t].
Proof. unfold mark_at. destruct (point t). reflexivity. Qed.





(** *** The samples of a curve *)




(** *** The curve branch of [plot_start] *)







(** *** What [plot_start] leaves behind, however it ends *)



























(** *** One cut after the other *)

Lemma plot_start_unfold env d :
  plot_start env d
  = (let* stop := plot_queue env (queue d) in
     if stop then ret tt else con RapidMode) (set_queue [] d).
Proof. reflexivity. Qed.

Lemma plot_queue_cons env q rest d :
  no_faults (connection d) ->
  _aborting d = false ->
  abort_request env (polls d) = false ->
  plot_queue env (q :: rest) d
  = (let* stop := plot_item env q in
     if stop then ret true else plot_queue env rest)
      (set_polls (S (polls d)) (set_aborting false (after ProgramMode d))).
Proof.
  intros Hn Ha He. cbn [plot_queue]. unfold bind at 1. rewrite (con_clean _ _ Hn).
  unfold bind at 1. rewrite (check_passes env (after ProgramMode d) Ha He).
  reflexivity.
Qed.

Lemma move_to_start_exact start d :
  no_faults (connection d) ->
  _aborting d = false ->
  exists d',
    move_to_start start d = Ret tt d'
    /\ progress d d' (approach start d) 0
    /\ _last_x (connection d') = fst start
    /\ _last_y (connection d') = snd start.
Proof.
  intros Hn Ha. unfold move_to_start, approach. unfold bind at 1.
  rewrite (con_clean _ _ Hn).
  assert (H1 : progress d (after Sync d) [Sync] 0)
    by (apply after_progress; [exact Ha|reflexivity|reflexivity]).
  assert (Hn1 : no_faults (connection (after Sync d)))
    by (apply (frame_no_faults d _ [Sync]); [apply H1|exact Hn]).
  unfold bind at 1. unfold get at 1. destruct start as [x y]. cbn [fst snd].
  change (_last_x (connection (after Sync d))) with (_last_x (connection d)).
  change (_last_y (connection (after Sync d))) with (_last_y (connection d)).
  destruct (negb (_last_x (connection d) =? x)%Z
            || negb (_last_y (connection d) =? y)%Z) eqn:E.
  - rewrite (con_clean _ _ Hn1). exists (after (Goto x y) (after Sync d)).
    split; [reflexivity|]. split; [|split; reflexivity].
    change [Sync; Goto x y] with ([Sync] ++ [Goto x y]).
    replace 0%nat with (0 + 0)%nat by reflexivity.
    eapply progress_trans; [exact H1|].
    apply after_progress; [apply H1|reflexivity|reflexivity].
  - exists (after Sync d). split; [reflexivity|]. split; [exact H1|].
    apply orb_false_elim in E. destruct E as [E1 E2].
    apply negb_false_iff in E1, E2. apply Z.eqb_eq in E1, E2.
    split; assumption.
Qed.

Lemma progress_no_faults d d' new n :
  progress d d' new n -> no_faults (connection d) -> no_faults (connection d').
Proof. intros [H _]. apply (frame_no_faults d d' new H). Qed.

Lemma polled_progress d :
  progress d (set_polls (S (polls d)) (set_aborting false d)) [] 1.
Proof.
  split; [unfold frame; simpl; rewrite app_nil_r; auto|]. repeat split. simpl. lia.
Qed.

(** X16 (NewlyDriver.plot_start).  An abort that is pending when
    [plot_start] begins is seen at the first cut: the driver calls
    [con.program_mode()] and [con.abort()] and nothing else, clears the
    flag and returns, and the whole pending list is dropped.  With nothing
    pending there is no cut to see it at: [plot_start] only calls
    [con.rapid_mode()], and the flag stays set for the next job. *)
Theorem pending_abort_is_seen_at_the_first_cut :
  forall env d,
    no_faults (connection d) ->
    _aborting d = true ->
    exists d',
      plot_start env d = Ret tt d'
      /\ queue d' = []
      /\ match queue d with
         | [] =>
             calls (connection d') = calls (connection d) ++ [RapidMode]
             /\ _aborting d' = true
         | _ :: _ =>
             calls (connection d') = calls (connection d) ++ [ProgramMode; Abort]
             /\ _aborting d' = false
         end.
Proof.
  intros env d Hn Ha. rewrite plot_start_unfold.
  destruct (queue d) as [|q rest].
  - unfold bind. cbn [plot_queue]. unfold ret.
    rewrite con_clean by exact Hn. eexists. split; [reflexivity|].
    split; [reflexivity|]. split; [reflexivity|exact Ha].
  - unfold bind at 1. cbn [plot_queue]. unfold bind at 1.
    rewrite con_clean by exact Hn. unfold bind at 1.
    rewrite check_aborts.
    + eexists. split; [reflexivity|]. split; [reflexivity|]. simpl.
      rewrite <- app_assoc. split; reflexivity.
    + exact Hn.
    + change (_aborting (after ProgramMode (set_queue [] d))) with (_aborting d).
      rewrite Ha. reflexivity.
Qed.

Lemma pending_abort_is_seen_at_the_first_cut_witness :
  exists d',
    plot_start calm (example_driver (fun _ => None) true) = Ret tt d'
    /\ calls (connection d') = [ProgramMode; Abort]
    /\ _aborting d' = false
    /\ queue d' = [].
Proof.
  destruct (pending_abort_is_seen_at_the_first_cut calm
              (example_driver (fun _ => None) true) (fun _ => eq_refl) eq_refl)
    as [d' [H1 [H2 [H3 H4]]]].
  exists d'. repeat split; assumption.
Defined.

(** X17 (NewlyDriver.plot_start, line branch).  A line cut is executed as
    [con.program_mode()], [con.sync()], a [con.goto] to its start unless the
    last known position is the start already, one [con.mark] to its end,
    [con.update()] and, no cut being left, [con.rapid_mode()]; the last
    known position is then the end of the line.  The flags are polled
    once, for the cut. *)
Theorem line_cut_is_one_mark :
  forall env d start ex ey st,
    queue d = [LineCut start (ex, ey) st] ->
    no_faults (connection d) ->
    _aborting d = false ->
    abort_request env (polls d) = false ->
    exists d',
      plot_start env d = Ret tt d'
      /\ calls (connection d')
         = calls (connection d)
           ++ ProgramMode :: approach start d ++ [Mark ex ey st None; Update; RapidMode]
      /\ _last_x (connection d') = ex
      /\ _last_y (connection d') = ey
      /\ mode (connection d') = rapid
      /\ polls d' = S (polls d).
Proof.
  intros env d start ex ey st Hq Hn Ha He. rewrite plot_start_unfold, Hq.
  unfold bind at 1.
  rewrite (plot_queue_cons env _ [] (set_queue [] d) Hn Ha He).
  set (dp := set_polls _ _).
  assert (Hnp : no_faults (connection dp)) by (intros k; apply Hn).
  destruct (move_to_start_exact start dp Hnp eq_refl) as [d1 [Hm [Hp [Hx Hy]]]].
  pose proof (progress_no_faults _ _ _ _ Hp Hnp) as Hn1.
  unfold bind at 1. cbn [plot_item]. unfold bind at 1. rewrite Hm.
  unfold bind at 1. rewrite (con_clean _ _ Hn1).
  assert (Hn2 : no_faults (connection (after (Mark ex ey st None) d1)))
    by (intros k; apply Hn1).
  unfold bind at 1. rewrite (con_clean _ _ Hn2).
  assert (Hn3 : no_faults (connection (after Update (after (Mark ex ey st None) d1))))
    by (intros k; apply Hn1).
  cbn [ret plot_queue]. rewrite (con_clean _ _ Hn3).
  eexists. split; [reflexivity|].
  destruct Hp as [[P1 _] [P5 _]].
  split; [|split; [reflexivity|split; [reflexivity|split; [reflexivity|]]]].
  - simpl. rewrite P1. subst dp. simpl.
    repeat (rewrite <- app_assoc; simpl). reflexivity.
  - simpl. rewrite P5. subst dp. simpl. lia.
Qed.

Lemma line_cut_is_one_mark_witness :
  exists d',
    plot_start calm (final (plot example_line example_idle)) = Ret tt d'
    /\ calls (connection d')
       = [ProgramMode; Sync; Mark 30 40 {| power := None |} None; Update; RapidMode].
Proof.
  destruct (line_cut_is_one_mark calm (final (plot example_line example_idle))
              (0, 0)%Z 30%Z 40%Z {| power := None |}
              eq_refl (fun _ => eq_refl) eq_refl eq_refl)
    as [d' [H1 [H2 _]]].
  exists d'. split; [exact H1|exact H2].
Defined.

Lemma plotted_queue items : forall d,
  queue (plotted items d) = queue d ++ items
  /\ connection (plotted items d) = connection d
  /\ _aborting (plotted items d) = _aborting d
  /\ polls (plotted items d) = polls d.
Proof.
  induction items as [|q items IH]; intros d.
  - simpl. rewrite app_nil_r. repeat split.
  - change (plotted (q :: items) d) with (plotted items (final (plot q d))).
    destruct (IH (final (plot q d))) as [H1 [H2 [H3 H4]]].
    rewrite H1, H2, H3, H4. simpl. rewrite <- app_assoc. repeat split.
Qed.

Lemma after_calls_progress c d :
  _aborting d = false ->
  no_faults (connection d) ->
  (forall k, mode (effect c k) = mode k) ->
  is_rapid_mode c = false ->
  con c d = Ret tt (after c d)
  /\ progress d (after c d) [c] 0
  /\ no_faults (connection (after c d)).
Proof.
  intros Ha Hn Hm Hc. split; [apply con_clean, Hn|].
  pose proof (after_progress c d Ha Hm Hc) as Hp.
  split; [exact Hp|exact (progress_no_faults _ _ _ _ Hp Hn)].
Qed.

Lemma simple_item env q d :
  is_simple q = true ->
  no_faults (connection d) ->
  _aborting d = false ->
  exists d',
    plot_item env q d = Ret false d'
    /\ progress d d' (simple_calls q) 0.
Proof.
  intros Hs Hn Ha. destruct q; try discriminate; cbn [plot_item simple_calls].
  - exists (after (Dwell dwell_time) d). unfold bind. rewrite (con_clean _ _ Hn).
    split; [reflexivity|]. apply after_progress; [exact Ha|reflexivity|reflexivity].
  - exists (after (Wait dwell_time) d). unfold bind. rewrite (con_clean _ _ Hn).
    split; [reflexivity|]. apply after_progress; [exact Ha|reflexivity|reflexivity].
  - exists (after (Goto 0 0) d). unfold bind. rewrite (con_clean _ _ Hn).
    split; [reflexivity|]. apply after_progress; [exact Ha|reflexivity|reflexivity].
  - exists (after (Goto 0 0) d). unfold bind. rewrite (con_clean _ _ Hn).
    split; [reflexivity|]. apply after_progress; [exact Ha|reflexivity|reflexivity].
  - exists d. split; [reflexivity|apply progress_refl, Ha].
  - exists d. split; [reflexivity|apply progress_refl, Ha].
  - destruct (after_calls_progress Sync d Ha Hn (fun _ => eq_refl) eq_refl)
      as [H1 [P1 N1]].
    destruct (after_calls_progress Raster (after Sync d) Ha N1 (fun _ => eq_refl) eq_refl)
      as [H2 [P2 N2]].
    destruct (after_calls_progress Update (after Raster (after Sync d)) Ha N2
                (fun _ => eq_refl) eq_refl) as [H3 [P3 N3]].
    exists (after Update (after Raster (after Sync d))).
    unfold bind. rewrite H1, H2, H3. split; [reflexivity|].
    exact (progress_trans _ _ _ [Sync] [Raster; Update] 0 0 P1
             (progress_trans _ _ _ [Raster] [Update] 0 0 P2 P3)).
Qed.

Lemma unaborted_tail env k n : unaborted env k (S n) -> unaborted env (S k) n.
Proof.
  intros H j Hj. specialize (H (S j) ltac:(lia)).
  replace (S k + j)%nat with (k + S j)%nat by lia. exact H.
Qed.

Lemma unaborted_head env k n : unaborted env k (S n) -> abort_request env k = false.
Proof. intros H. specialize (H O ltac:(lia)). rewrite Nat.add_0_r in H. exact H. Qed.

Lemma simple_queue env items : forall d,
  forallb is_simple items = true ->
  no_faults (connection d) ->
  _aborting d = false ->
  unaborted env (polls d) (length items) ->
  exists d',
    plot_queue env items d = Ret false d'
    /\ frame d d' (concat (map (fun q => ProgramMode :: simple_calls q) items))
    /\ polls d' = (polls d + length items)%nat
    /\ _aborting d' = false.
Proof.
  induction items as [|q rest IH]; intros d Hs Hn Ha Hu.
  - exists d. split; [reflexivity|]. split; [apply frame_refl|].
    split; [simpl; lia|exact Ha].
  - simpl in Hs. apply andb_prop in Hs. destruct Hs as [Hq Hs].
    rewrite (plot_queue_cons env q rest d Hn Ha (unaborted_head _ _ _ Hu)).
    set (dp := set_polls _ _).
    assert (Hnp : no_faults (connection dp)) by (intros k; apply Hn).
    destruct (simple_item env q dp Hq Hnp eq_refl) as [d1 [Hi Hp]].
    pose proof (progress_no_faults _ _ _ _ Hp Hnp) as Hn1.
    destruct Hp as [Hf [P5 [P6 _]]].
    assert (Hu1 : unaborted env (polls d1) (length rest)).
    { rewrite P5. subst dp. simpl. rewrite Nat.add_0_r. apply unaborted_tail, Hu. }
    destruct (IH d1 Hs Hn1 P6 Hu1) as [d' [Hr [Hf' [Hp' Ha']]]].
    exists d'. unfold bind at 1. rewrite Hi. split; [exact Hr|].
    split; [|split; [|exact Ha']].
    + cbn [map concat].
      change (ProgramMode :: simple_calls q) with ([ProgramMode] ++ simple_calls q).
      rewrite <- !app_assoc.
      eapply frame_trans; [|eapply frame_trans; [exact Hf|exact Hf']].
      subst dp. unfold frame. simpl. auto.
    + rewrite Hp', P5. subst dp. simpl. lia.
Qed.

(** X18 (NewlyDriver.plot, plot_start).  Cuts handed over with [plot] are
    executed by [plot_start] in the order they were handed over.  For
    dwell, wait, home, goto, output, input and raster cuts the calls on the
    controller are, for each cut in turn, [con.program_mode()] followed by
    the calls of the cut, and [con.rapid_mode()] at the end: a dwell or a
    wait with its time, [con.goto(0, 0)] for a home cut and for a goto cut
    alike, nothing for an output or an input cut, and [con.sync()],
    [con.raster(q)], [con.update()] for a raster.  The flags are polled once
    for every cut. *)
Theorem plotted_cuts_run_in_order :
  forall env d items,
    queue d = [] ->
    forallb is_simple items = true ->
    no_faults (connection d) ->
    _aborting d = false ->
    unaborted env (polls d) (length items) ->
    exists d',
      plot_start env (plotted items d) = Ret tt d'
      /\ calls (connection d')
         = calls (connection d)
           ++ concat (map (fun q => ProgramMode :: simple_calls q) items)
           ++ [RapidMode]
      /\ mode (connection d') = rapid
      /\ polls d' = (polls d + length items)%nat
      /\ queue d' = [].
Proof.
  intros env d items Hq Hs Hn Ha Hu.
  destruct (plotted_queue items d) as [Q1 [Q2 [Q3 Q4]]].
  rewrite plot_start_unfold, Q1, Hq. cbn [app].
  set (d0 := set_queue [] (plotted items d)).
  assert (Hn0 : no_faults (connection d0))
    by (intros k; subst d0; simpl; rewrite Q2; apply Hn).
  assert (Ha0 : _aborting d0 = false) by (subst d0; simpl; congruence).
  assert (Hu0 : unaborted env (polls d0) (length items))
    by (subst d0; simpl; rewrite Q4; exact Hu).
  destruct (simple_queue env items d0 Hs Hn0 Ha0 Hu0) as [d1 [Hr [Hf [Hp _]]]].
  pose proof (frame_no_faults _ _ _ Hf Hn0) as Hn1.
  unfold bind. rewrite Hr, (con_clean _ _ Hn1).
  eexists. split; [reflexivity|]. destruct Hf as [F1 [_ [_ F4]]].
  split; [|split; [reflexivity|split]].
  - simpl. rewrite F1. subst d0. simpl. rewrite Q2, <- app_assoc. reflexivity.
  - simpl. rewrite Hp. subst d0. simpl. rewrite Q4. reflexivity.
  - simpl. rewrite F4. reflexivity.
Qed.

Lemma plotted_cuts_run_in_order_witness :
  exists d',
    plot_start calm (plotted example_job example_idle) = Ret tt d'
    /\ calls (connection d')
       = [ProgramMode; Dwell 100; ProgramMode; ProgramMode; Goto 0 0;
          ProgramMode; Wait 50; ProgramMode; ProgramMode; Goto 0 0;
          ProgramMode; Sync; Raster; Update; RapidMode].
Proof.
  destruct (plotted_cuts_run_in_order calm example_idle example_job
              eq_refl eq_refl (fun _ => eq_refl) eq_refl (fun _ _ => eq_refl))
    as [d' [H1 [H2 _]]].
  exists d'. split; [exact H1|exact H2].
Defined.

(** *** The samples of a plot cut *)

Lemma awake_app a b : awake (a ++ b) = awake a ++ awake b.
Proof. unfold awake. apply List.filter_app. Qed.

Lemma awake_sleeps n : awake (replicate n Sleep) = [].
Proof. induction n; simpl; auto. Qed.

Lemma wait_only_sleeps env k d :
  _aborting d = false ->
  resume_after env k <> None ->
  exists d' n,
    wait_while_paused env k d = Ret tt d'
    /\ progress d d' (replicate n Sleep) 0.
Proof.
  intros Ha Hr. unfold wait_while_paused. unfold bind at 1. unfold modify at 1.
  unfold bind at 1. unfold get at 1. cbn [paused set_paused].
  set (d1 := set_paused (paused d || pause_request env k) d).
  assert (H1 : progress d d1 [] 0).
  { split; [unfold frame; simpl; rewrite app_nil_r; auto|].
    split; [simpl; lia|]. split; [exact Ha|]. split; reflexivity. }
  destruct (paused d || pause_request env k).
  - destruct (resume_after env k) as [m|]; [|congruence].
    destruct (sleeps_progress (S m) d1 Ha) as [d2 [Hs Hp]].
    unfold bind. rewrite Hs. unfold modify.
    exists (set_paused false d2), (S m). split; [reflexivity|].
    destruct Hp as [[P1 [P2 [P3 P4]]] [P5 [P6 [P7 P8]]]].
    destruct H1 as [[Q1 [Q2 [Q3 Q4]]] [Q5 [Q6 [Q7 Q8]]]].
    repeat split; simpl; try congruence.
    + rewrite P1, Q1, app_nil_r. reflexivity.
    + rewrite P5, Q5. lia.
    + apply (rapid_mode_calls_sleeps m).
  - exists d1, O. split; [reflexivity|exact H1].
Qed.

Lemma plot_pass env st pp ox oy on x y rest d :
  no_faults (connection d) ->
  _aborting d = false ->
  abort_request env (polls d) = false ->
  resume_after env (polls d) <> None ->
  exists d1 new,
    plot_loop env ((ox, oy, on, x, y) :: rest) st pp d = plot_loop env rest st pp d1
    /\ progress d d1 new 1
    /\ awake new = [Mark x y st (Some (pp * on)%Q); Update].
Proof.
  intros Hn Ha He Hr.
  set (d0 := set_polls (S (polls d)) (set_aborting false d)).
  pose proof (polled_progress d) as H0. fold d0 in H0.
  destruct (wait_only_sleeps env (polls d) d0 eq_refl Hr) as [d1 [n [Hw Hp]]].
  pose proof (progress_no_faults _ _ _ _ Hp (progress_no_faults _ _ _ _ H0 Hn)) as Hn1.
  assert (Ha1 : _aborting d1 = false) by apply Hp.
  destruct (after_calls_progress (Mark x y st (Some (pp * on)%Q)) d1 Ha1 Hn1
              (fun _ => eq_refl) eq_refl) as [H2 [P2 N2]].
  destruct (after_calls_progress Update (after (Mark x y st (Some (pp * on)%Q)) d1)
              Ha1 N2 (fun _ => eq_refl) eq_refl) as [H3 [P3 N3]].
  eexists. exists (([] ++ replicate n Sleep) ++ [Mark x y st (Some (pp * on)%Q)] ++ [Update]).
  split; [|split].
  - cbn [plot_loop]. unfold bind at 1. unfold get at 1.
    unfold bind at 1. rewrite (check_passes env d Ha He). fold d0.
    unfold bind at 1. rewrite Hw. unfold bind at 1. rewrite H2.
    unfold bind at 1. rewrite H3. reflexivity.
  - replace 1%nat with ((1 + 0) + (0 + 0))%nat by lia.
    exact (progress_trans _ _ _ _ _ _ _ (progress_trans _ _ _ _ _ _ _ H0 Hp)
             (progress_trans _ _ _ _ _ _ _ P2 P3)).
  - rewrite !awake_app, awake_sleeps. reflexivity.
Qed.

Lemma plot_loop_runs env st pp : forall samples d,
  no_faults (connection d) ->
  _aborting d = false ->
  undisturbed env (polls d) (length samples) ->
  exists d' new,
    plot_loop env samples st pp d = Ret false d'
    /\ progress d d' new (length samples)
    /\ awake new = concat (map (fun s => [plot_mark st pp s; Update]) samples).
Proof.
  induction samples as [|[[[[ox oy] on] x] y] rest IH]; intros d Hn Ha Hu.
  - exists d, []. split; [reflexivity|]. split; [apply progress_refl, Ha|reflexivity].
  - destruct (undisturbed_head _ _ _ Hu) as [He Hr].
    destruct (plot_pass env st pp ox oy on x y rest d Hn Ha He Hr)
      as [d1 [new1 [Hs [Hp Hw]]]].
    pose proof (progress_no_faults _ _ _ _ Hp Hn) as Hn1.
    assert (Hu1 : undisturbed env (polls d1) (length rest)).
    { destruct Hp as [_ [Hp _]]. rewrite Hp.
      replace (polls d + 1)%nat with (S (polls d)) by lia. apply undisturbed_tail, Hu. }
    destruct (IH d1 Hn1 ltac:(apply Hp) Hu1) as [d' [new [Hl [Hp' Hw']]]].
    exists d', (new1 ++ new). split; [rewrite Hs; exact Hl|].
    split; [exact (progress_trans _ _ _ _ _ _ _ Hp Hp')|].
    rewrite awake_app, Hw, Hw'. reflexivity.
Qed.

(** X19 (NewlyDriver.plot_start, plot branch).  For a plot cut whose
    samples are [(ox, oy, on, x, y)], when no poll sees an abort request and
    every pause ends: after [con.program_mode()] and the move to the start,
    the driver makes, for each sample in order, one [con.mark(x, y)] with
    power [max_power / 10 * on] followed by one [con.update()], where
    [max_power] is the [power] of the settings of the cut, or the default
    power of the service when the settings have none; then
    [con.rapid_mode()].  Apart from the sleeps of a pause it makes no
    other call.  The flags are polled once for the cut and once before every
    sample. *)
Theorem plot_cut_marks_every_sample_with_scaled_power :
  forall env d start samples st,
    queue d = [PlotCut start samples st] ->
    no_faults (connection d) ->
    _aborting d = false ->
    undisturbed env (polls d) (S (length samples)) ->
    exists d' new,
      plot_start env d = Ret tt d'
      /\ calls (connection d') = calls (connection d) ++ new ++ [RapidMode]
      /\ awake new
         = ProgramMode :: approach start d
           ++ concat (map (fun s => [plot_mark st (max_power st d / 10)%Q s; Update])
                        samples)
      /\ polls d' = (polls d + S (length samples))%nat
      /\ mode (connection d') = rapid.
Proof.
  intros env d start samples st Hq Hn Ha Hu.
  destruct (undisturbed_head _ _ _ Hu) as [He _].
  rewrite plot_start_unfold, Hq. unfold bind at 1.
  rewrite (plot_queue_cons env _ [] (set_queue [] d) Hn Ha He).
  set (dp := set_polls _ _).
  assert (Hnp : no_faults (connection dp)) by (intros k; apply Hn).
  destruct (move_to_start_exact start dp Hnp eq_refl) as [d1 [Hm [Hp _]]].
  pose proof (progress_no_faults _ _ _ _ Hp Hnp) as Hn1.
  assert (Hu1 : undisturbed env (polls d1) (length samples)).
  { destruct Hp as [_ [Hp _]]. rewrite Hp. subst dp. simpl. rewrite Nat.add_0_r.
    apply undisturbed_tail, Hu. }
  destruct (plot_loop_runs env st (max_power st d / 10)%Q samples d1 Hn1
              ltac:(apply Hp) Hu1) as [d2 [new [Hl [Hp2 Hw]]]].
  pose proof (progress_no_faults _ _ _ _ Hp2 Hn1) as Hn2.
  unfold bind at 1. cbn [plot_item]. unfold bind at 1. rewrite Hm.
  unfold bind at 1. unfold get at 1.
  assert (Hs : service d1 = service d) by (destruct Hp as [[_ [_ [Hs _]]] _]; exact Hs).
  unfold max_power in Hl. rewrite <- Hs in Hl. rewrite Hl.
  cbn [plot_queue ret]. rewrite (con_clean _ _ Hn2).
  exists (after RapidMode d2), ((ProgramMode :: approach start d) ++ new).
  destruct Hp as [[P1 _] [P5 _]]. destruct Hp2 as [[R1 _] [R5 _]].
  split; [reflexivity|]. split; [|split; [|split; [|reflexivity]]].
  - simpl. rewrite R1, P1. subst dp. simpl.
    repeat (rewrite <- app_assoc; simpl). reflexivity.
  - rewrite awake_app, Hw. f_equal.
    unfold approach. cbn. destruct (negb _ || negb _); reflexivity.
  - simpl. rewrite R5, P5. subst dp. simpl. lia.
Qed.

Lemma plot_cut_marks_every_sample_with_scaled_power_witness :
  exists d' new,
    plot_start calm (final (plot example_plot example_idle)) = Ret tt d'
    /\ calls (connection d') = new ++ [RapidMode]
    /\ marks new
       = [Mark 6 5 {| power := Some 500%Q |} (Some (500 / 10 * 1)%Q);
          Mark 7 5 {| power := Some 500%Q |} (Some (500 / 10 * 0)%Q);
          Mark 8 5 {| power := Some 500%Q |} (Some (500 / 10 * (1 # 2))%Q)].
Proof.
  destruct (plot_cut_marks_every_sample_with_scaled_power calm
              (final (plot example_plot example_idle)) (5, 5)%Z
              [(5%Z, 5%Z, 1%Q, 6%Z, 5%Z); (6%Z, 5%Z, 0%Q, 7%Z, 5%Z);
               (7%Z, 5%Z, (1 # 2)%Q, 8%Z, 5%Z)]
              {| power := Some 500%Q |} eq_refl (fun _ => eq_refl) eq_refl)
    as [d' [new [H1 [H2 [H3 _]]]]].
  { intros j _. split; [reflexivity|discriminate]. }
  exists d', new. split; [exact H1|]. split; [exact H2|].
  assert (Hm : marks new = marks (awake new)).
  { unfold marks, awake. clear. induction new as [|c l IH]; [reflexivity|].
    destruct c; simpl; rewrite <- ?IH; reflexivity. }
  rewrite Hm, H3. reflexivity.
Defined.

(** *** A curve without samples *)

Lemma plot_item_curve env q start point st :
  curve_of q = Some (start, point, st) ->
  plot_item env q = plot_curve env start point st.
Proof.
  intros Hq. destruct q; simpl in Hq; try discriminate;
    injection Hq as -> -> ->; reflexivity.
Qed.

(** X20 (NewlyDriver.plot_start, curve branch).  With an interpolation
    resolution of 0 a quadratic or cubic cut makes [plot_start] raise
    [ZeroDivisionError], after [con.program_mode()] and the move to the
    start of the curve and before any mark: the machine is left in program
    mode and the pending list is lost.  With a negative resolution the loop
    over the samples makes no pass: no mark is made, and [con.update()] and
    [con.rapid_mode()] follow the move to the start. *)
Theorem curve_without_resolution_is_not_marked :
  forall env d q start point st,
    queue d = [q] ->
    curve_of q = Some (start, point, st) ->
    (interpolate (service d) <= 0)%Z ->
    no_faults (connection d) ->
    _aborting d = false ->
    abort_request env (polls d) = false ->
    exists d',
      queue d' = []
      /\ if (interpolate (service d) =? 0)%Z then
           plot_start env d = Raise ZeroDivisionError d'
           /\ calls (connection d')
              = calls (connection d) ++ ProgramMode :: approach start d
           /\ mode (connection d') = program
         else
           plot_start env d = Ret tt d'
           /\ calls (connection d')
              = calls (connection d)
                ++ ProgramMode :: approach start d ++ [Update; RapidMode]
           /\ mode (connection d') = rapid.
Proof.
  intros env d q start point st Hq Hc Hi Hn Ha He.
  set (dp := set_polls (S (polls d)) (set_aborting false (after ProgramMode (set_queue [] d)))).
  assert (Heq : plot_start env d
                = match plot_curve env start point st dp with
                  | Ret b d' => (if b then ret tt else con RapidMode) d'
                  | Raise e d' => Raise e d'
                  | Hang d' => Hang d'
                  end).
  { rewrite plot_start_unfold, Hq. unfold bind at 1.
    rewrite (plot_queue_cons env _ [] (set_queue [] d) Hn Ha He).
    change (set_polls (S (polls (set_queue [] d))) _) with dp.
    unfold bind at 1. rewrite (plot_item_curve env q start point st Hc).
    destruct (plot_curve env start point st dp) as [[|] d'|e d'|d']; reflexivity. }
  assert (Hnp : no_faults (connection dp)) by (intros k; apply Hn).
  destruct (move_to_start_exact start dp Hnp eq_refl) as [d1 [Hm [Hp _]]].
  pose proof (progress_no_faults _ _ _ _ Hp Hnp) as Hn1.
  destruct Hp as [[P1 [_ [P3 P4]]] [_ [_ [P7 _]]]].
  assert (Hcalls : calls (connection d1)
                   = calls (connection d) ++ ProgramMode :: approach start d).
  { rewrite P1. subst dp. simpl. rewrite <- app_assoc. reflexivity. }
  assert (Hcurve : plot_curve env start point st dp
                   = if (interpolate (service d) =? 0)%Z
                     then Raise ZeroDivisionError d1
                     else Ret false (after Update d1)).
  { unfold plot_curve. unfold bind at 1. rewrite Hm.
    unfold bind at 1. unfold get at 1. rewrite P3.
    change (service dp) with (service d).
    destruct (Z.eqb_spec (interpolate (service d)) 0) as [E|E]; [reflexivity|].
    replace (Z.to_nat (interpolate (service d))) with O by lia.
    cbn [sample_loop]. unfold bind, ret. rewrite (con_clean _ _ Hn1). reflexivity. }
  rewrite Heq, Hcurve. clear Heq Hcurve.
  destruct (interpolate (service d) =? 0)%Z.
  - exists d1. split; [rewrite P4; reflexivity|]. split; [reflexivity|].
    split; [exact Hcalls|]. rewrite P7. reflexivity.
  - assert (Hn2 : no_faults (connection (after Update d1))) by (intros k; apply Hn1).
    rewrite (con_clean _ _ Hn2).
    exists (after RapidMode (after Update d1)).
    split; [simpl; rewrite P4; reflexivity|]. split; [reflexivity|].
    split; [|reflexivity]. simpl. rewrite Hcalls.
    repeat (rewrite <- app_assoc; simpl). reflexivity.
Qed.

Lemma curve_without_resolution_is_not_marked_witness :
  exists d',
    plot_start calm
      {| service := {| interpolate := 0;
                       default_power := 1000;
                       swap_xy := false;
                       physical_to_device_position := fun _ _ => (0, 0)%Z;
                       physical_to_device_length := fun _ _ => (0, 0)%Z |};
         connection := example_controller (fun _ => None);
         paused := false;
         _aborting := false;
         queue := [example_cubic];
         polls := 0 |}
    = Raise ZeroDivisionError d'
    /\ calls (connection d') = [ProgramMode; Sync]
    /\ mode (connection d') = program.
Proof.
  match goal with |- exists d', plot_start calm ?d = _ /\ _ =>
    destruct (curve_without_resolution_is_not_marked calm d example_cubic (0, 0)%Z
                (fun t => (Qnum t, Z.pos (Qden t))) {| power := None |}
                eq_refl eq_refl ltac:(simpl; lia) (fun _ => eq_refl) eq_refl eq_refl)
      as [d' [_ H]]
  end.
  exists d'. exact H.
Defined.

(** *** Pausing and resuming *)

Lemma pause_once s :
  is_paused (final (pause s)) = negb (is_paused s)
  /\ control_calls (final (pause s))
     = control_calls s ++ [if is_paused s then ConResume else ConPause]
  /\ control_faults (final (pause s)) = control_faults s.
Proof.
  unfold pause, resume, bind, get, modify, con_control.
  destruct (is_paused s) eqn:E; simpl;
    destruct (control_faults s (length (control_calls s))); simpl; repeat split.
Qed.

Lemma pauses_spec n : forall s,
  is_paused (pauses n s) = (if Nat.even n then is_paused s else negb (is_paused s))
  /\ length (control_calls (pauses n s)) = (length (control_calls s) + n)%nat.
Proof.
  induction n as [|n IH]; intros s; [simpl; split; [reflexivity|lia]|].
  unfold pauses. rewrite Nat.iter_succ_r. fold (pauses n (final (pause s))).
  destruct (IH (final (pause s))) as [H1 H2].
  destruct (pause_once s) as [P1 [P2 _]].
  rewrite H1, H2, P1, P2, length_app, Nat.even_succ, <- Nat.negb_even.
  split; [|simpl; lia].
  destruct (Nat.even n), (is_paused s); reflexivity.
Qed.

(** X23 (NewlyDriver.pause, resume, hold_work).  [pause] toggles: on a
    driver that is not paused it sets the flag and calls [con.pause()], on a
    paused driver it clears the flag and calls [con.resume()], so after any
    number of [pause] calls the driver is paused exactly when the number is
    odd (for a driver that was not paused).  The flag is changed before the
    call on the controller is made: it is changed also when that call
    raises.  [hold_work] holds work while the driver is paused, but never
    work of a priority above 0. *)
Theorem pause_toggles_and_holds_work :
  forall s n priority,
    is_paused (pauses n s) = (if Nat.even n then is_paused s else negb (is_paused s))
    /\ length (control_calls (pauses n s)) = (length (control_calls s) + n)%nat
    /\ control_calls (final (pause s))
       = control_calls s ++ [if is_paused s then ConResume else ConPause]
    /\ hold_work priority (pauses n s)
       = (priority <=? 0)%Z
         && (if Nat.even n then is_paused s else negb (is_paused s))
    /\ (forall e,
          control_faults s (length (control_calls s)) = Some e ->
          exists s',
            pause s = Raise e s' /\ is_paused s' = negb (is_paused s)).
Proof.
  intros s n priority. destruct (pauses_spec n s) as [H1 H2].
  destruct (pause_once s) as [_ [P2 _]].
  split; [exact H1|]. split; [exact H2|]. split; [exact P2|].
  split; [unfold hold_work; rewrite H1; reflexivity|].
  intros e He. unfold pause, resume, bind, get, modify, con_control.
  destruct (is_paused s); simpl; rewrite He; eexists; split; reflexivity.
Qed.

(** *** Moves one after the other *)

Lemma clean_three_calls x y d :
  no_faults (connection d) ->
  exists d',
    (con Sync;; except_ConnectionError_pass (con (SetXY x y));; con Update) d = Ret tt d'
    /\ calls (connection d') = calls (connection d) ++ [Sync; SetXY x y; Update]
    /\ _last_x (connection d') = x
    /\ _last_y (connection d') = y
    /\ no_faults (connection d')
    /\ service d' = service d.
Proof.
  intros Hn. unfold bind at 1. rewrite (con_clean _ _ Hn).
  assert (Hn1 : no_faults (connection (after Sync d))) by (intros k; apply Hn).
  unfold bind at 1. unfold except_ConnectionError_pass. rewrite (con_clean _ _ Hn1).
  assert (Hn2 : no_faults (connection (after (SetXY x y) (after Sync d))))
    by (intros k; apply Hn).
  rewrite (con_clean _ _ Hn2). eexists. split; [reflexivity|]. simpl.
  rewrite <- !app_assoc. repeat split. intros k. apply Hn.
Qed.

(** X22 (NewlyDriver.move_abs, move_rel).  On a transport that does not
    fail, [move_abs(x, y)] followed by [move_rel(dx, dy)] makes the calls
    sync, set_xy, update twice over, the second [set_xy] at the position of
    the first plus the device length of [(dx, dy)]: a relative move starts
    from the position the controller last recorded.  With [swap_xy] set,
    the two arguments of each method change places before they are
    converted to device units. *)
Theorem relative_move_starts_from_the_last_position :
  forall d x y dx dy,
    no_faults (connection d) ->
    exists d1 d2,
      move_abs x y d = Ret tt d1
      /\ move_rel dx dy d1 = Ret tt d2
      /\ calls (connection d2)
         = calls (connection d)
           ++ [Sync; SetXY (fst (absolute_target x y d)) (snd (absolute_target x y d));
               Update; Sync;
               SetXY (fst (absolute_target x y d) + fst (relative_step dx dy d))
                     (snd (absolute_target x y d) + snd (relative_step dx dy d));
               Update]
      /\ _last_x (connection d2)
         = (fst (absolute_target x y d) + fst (relative_step dx dy d))%Z
      /\ _last_y (connection d2)
         = (snd (absolute_target x y d) + snd (relative_step dx dy d))%Z.
Proof.
  intros d x y dx dy Hn.
  destruct (clean_three_calls (fst (absolute_target x y d)) (snd (absolute_target x y d))
              d Hn) as [d1 [H1 [C1 [X1 [Y1 [N1 S1]]]]]].
  destruct (clean_three_calls
              (_last_x (connection d1) + fst (relative_step dx dy d1))
              (_last_y (connection d1) + snd (relative_step dx dy d1))
              d1 N1) as [d2 [H2 [C2 [X2 [Y2 _]]]]].
  exists d1, d2.
  split; [rewrite move_abs_calls; exact H1|].
  split; [rewrite move_rel_calls; exact H2|].
  assert (Hr : relative_step dx dy d1 = relative_step dx dy d)
    by (unfold relative_step; rewrite S1; reflexivity).
  rewrite Hr, X1, Y1 in *.
  split; [rewrite C2, C1, <- app_assoc; reflexivity|]. split; assumption.
Qed.

Lemma relative_move_starts_from_the_last_position_witness :
  exists d1 d2,
    move_abs "10mm" "20mm" example_idle = Ret tt d1
    /\ move_rel "1mm" "2mm" d1 = Ret tt d2
    /\ calls (connection d2)
       = [Sync; SetXY 100 200; Update; Sync; SetXY 110 220; Update].
Proof.
  destruct (relative_move_starts_from_the_last_position example_idle
              "10mm" "20mm" "1mm" "2mm" (fun _ => eq_refl))
    as [d1 [d2 [H1 [H2 [H3 _]]]]].
  exists d1, d2. repeat split; assumption.
Defined.


End NewlyFacts.

(** ** Facts about the reader of .ezd files *)

Module EzdFacts.
Import Ezd.

Lemma to_N_byte_of n : Byte.to_N (byte_of n) = (n mod 256)%N.
Proof.
  unfold byte_of. destruct (Byte.of_N (n mod 256)) as [b|] eqn:E.
  - apply Byte.to_of_N. exact E.
  - apply Byte.of_N_None_iff in E. exfalso.
    pose proof (N.mod_upper_bound n 256 ltac:(discriminate)). lia.
Qed.

Lemma unpack_pack n : (n < 4294967296)%N -> unpack_I (pack_I n) = Some n.
Proof.
  intros Hn. unfold unpack_I, pack_I. rewrite !to_N_byte_of. f_equal.
  pose proof (N.div_mod n 256 ltac:(discriminate)) as H0.
  pose proof (N.div_mod (n / 256) 256 ltac:(discriminate)) as H1.
  pose proof (N.div_mod (n / 256 / 256) 256 ltac:(discriminate)) as H2.
  assert (H3 : (n / 256 / 256 / 256 < 256)%N).
  { apply N.Div0.div_lt_upper_bound. apply N.Div0.div_lt_upper_bound.
    apply N.Div0.div_lt_upper_bound. lia. }
  rewrite (N.mod_small (n / 16777216) 256).
  2:{ replace 16777216%N with (256 * (256 * 256))%N by reflexivity.
      rewrite <- !N.Div0.div_div. exact H3. }
  replace (n / 65536)%N with (n / 256 / 256)%N
    by (rewrite N.Div0.div_div; reflexivity).
  replace (n / 16777216)%N with (n / 256 / 256 / 256)%N
    by (rewrite !N.Div0.div_div; reflexivity).
  lia.
Qed.

Lemma length_pack n : length (pack_I n) = 4%nat.
Proof. reflexivity. Qed.

Lemma read_app_exact n a b : length a = n -> read n (a ++ b) = (a, b).
Proof.
  intros H. unfold read. subst n.
  rewrite take_app_length, drop_app_length. reflexivity.
Qed.

Lemma parse_entries_all entries : forall p rest,
  Forall (fun e => fits_I (length e)) entries ->
  parse_entries (length entries) p (concat (map entry_bytes entries) ++ rest)
  = Some (p ++ entries, rest).
Proof.
  induction entries as [|e entries IH]; intros p rest Hf.
  - simpl. rewrite app_nil_r. reflexivity.
  - inversion Hf as [|? ? He Hes]; subst.
    cbn [length parse_entries map concat]. unfold entry_bytes at 1.
    rewrite <- !app_assoc.
    rewrite (read_app_exact 4 (pack_I _) _ (length_pack _)). cbv beta iota.
    rewrite length_pack. cbn [Nat.eqb negb].
    rewrite (unpack_pack _ He), Nat2N.id.
    rewrite (read_app_exact (length e) e _ eq_refl). cbv beta iota.
    rewrite Nat.eqb_refl. cbn [negb].
    rewrite IH by exact Hes. rewrite <- app_assoc. reflexivity.
Qed.

(** X24 (_parse_struct).  Round trip: for a list of entries that the
    layout can hold (fewer than 2^32 entries, each shorter than 2^32 bytes),
    [_parse_struct] reads from the bytes of the layout, whatever follows
    them, the list of the entries itself, and leaves the file at the first
    byte after them. *)
Theorem parse_struct_reads_back_the_entries :
  forall entries rest,
    fits_I (length entries) ->
    Forall (fun e => fits_I (length e)) entries ->
    _parse_struct (struct_bytes entries ++ rest) = Some (entries, rest).
Proof.
  intros entries rest Hn Hf. unfold _parse_struct, struct_bytes.
  rewrite <- app_assoc.
  rewrite (read_app_exact 4 (pack_I _) _ (length_pack _)). cbv beta iota.
  rewrite (unpack_pack _ Hn), Nat2N.id.
  apply (parse_entries_all entries [] rest Hf).
Qed.

Lemma parse_struct_reads_back_the_entries_witness :
  _parse_struct (struct_bytes example_entries ++ [Byte.xff]) 
  = Some (example_entries, [Byte.xff]).
Proof.
  apply parse_struct_reads_back_the_entries.
  - reflexivity.
  - repeat constructor.
Defined.

Lemma unpack_I_four b : length b = 4%nat -> exists n, unpack_I b = Some n.
Proof.
  intros H. destruct b as [|b0 [|b1 [|b2 [|b3 [|b4 b]]]]]; try discriminate.
  eexists. reflexivity.
Qed.

Lemma parse_entries_prefix count : forall p file,
  exists q file',
    parse_entries count p file = Some (p ++ q, file')
    /\ (length q <= count)%nat
    /\ (length file' <= length file)%nat.
Proof.
  induction count as [|count IH]; intros p file.
  - exists [], file. simpl. rewrite app_nil_r. split; [reflexivity|]. split; lia.
  - cbn [parse_entries]. unfold read.
    destruct (Nat.eqb_spec (length (take 4 file)) 4) as [E|E]; cbn [negb].
    + destruct (unpack_I_four _ E) as [n Hn]. rewrite Hn.
      destruct (Nat.eqb_spec (length (take (N.to_nat n) (drop 4 file))) (N.to_nat n))
        as [E2|E2]; cbn [negb].
      * destruct (IH (p ++ [take (N.to_nat n) (drop 4 file)])
                    (drop (N.to_nat n) (drop 4 file))) as [q [file' [H1 [H2 H3]]]].
        exists (take (N.to_nat n) (drop 4 file) :: q), file'.
        rewrite H1, <- app_assoc. split; [reflexivity|]. split; [simpl; lia|].
        rewrite !length_drop in H3. lia.
      * exists [], (drop (N.to_nat n) (drop 4 file)). rewrite app_nil_r.
        split; [reflexivity|]. split; [simpl; lia|]. rewrite !length_drop. lia.
    + exists [], (drop 4 file). rewrite app_nil_r. split; [reflexivity|].
      split; [simpl; lia|]. rewrite length_drop. lia.
Qed.

(** X25 (_parse_struct).  The only failure of [_parse_struct] is the
    [struct.error] of a file with fewer than four bytes left, too short for
    the count.  On any other file it returns, however the file goes on: a
    file that ends inside an entry, or before as many entries as the count
    announces, gives the entries that are complete, at most as many as the
    count. *)
Theorem parse_struct_fails_only_without_a_count :
  forall file,
    if (length file <? 4)%nat then _parse_struct file = None
    else
      exists count p file',
        unpack_I (take 4 file) = Some count
        /\ _parse_struct file = Some (p, file')
        /\ (length p <= N.to_nat count)%nat.
Proof.
  intros file. unfold _parse_struct, read.
  destruct (Nat.ltb_spec (length file) 4) as [H|H].
  - destruct file as [|b0 [|b1 [|b2 [|b3 file]]]]; try reflexivity. simpl in H. lia.
  - assert (E : length (take 4 file) = 4%nat) by (rewrite length_take; lia).
    destruct (unpack_I_four _ E) as [n Hn]. rewrite Hn.
    destruct (parse_entries_prefix (N.to_nat n) [] (drop 4 file))
      as [q [file' [H1 [H2 _]]]].
    exists n, q, file'. split; [reflexivity|]. split; [exact H1|exact H2].
Qed.

Lemma take_4_entry e x :
  take 4 (entry_bytes e ++ x) = pack_I (N.of_nat (length e)).
Proof. reflexivity. Qed.

Lemma drop_4_entry e x : drop 4 (entry_bytes e ++ x) = e ++ x.
Proof. reflexivity. Qed.

Lemma length_entry e : length (entry_bytes e) = (4 + length e)%nat.
Proof. reflexivity. Qed.

Lemma take_struct_bytes entries : forall k p,
  Forall (fun e => fits_I (length e)) entries ->
  exists n file',
    parse_entries (length entries) p (take k (concat (map entry_bytes entries)))
    = Some (p ++ take n entries, file').
Proof.
  induction entries as [|e entries IH]; intros k p Hf.
  - exists O, (take k []). simpl. rewrite app_nil_r. reflexivity.
  - inversion Hf as [|? ? He Hes]; subst.
    cbn [length parse_entries map concat]. unfold read.
    set (more := concat (map entry_bytes entries)).
    destruct (Nat.ltb_spec k (4 + length e)) as [Hk|Hk].
    + (* the file ends inside this entry *)
      exists O. rewrite take_0, app_nil_r.
      destruct (Nat.eqb_spec (length (take 4 (take k (entry_bytes e ++ more)))) 4)
        as [E|E]; cbn [negb]; [|eexists; reflexivity].
      rewrite !length_take, length_app, length_entry in E.
      assert (Ht : take 4 (take k (entry_bytes e ++ more))
                   = pack_I (N.of_nat (length e))).
      { rewrite take_take. replace (4 `min` k)%nat with 4%nat by lia.
        apply take_4_entry. }
      rewrite Ht, (unpack_pack _ He), Nat2N.id.
      destruct (Nat.eqb_spec
                  (length (take (length e) (drop 4 (take k (entry_bytes e ++ more)))))
                  (length e)) as [E2|E2]; cbn [negb]; [|eexists; reflexivity].
      exfalso. rewrite length_take, length_drop, length_take in E2.
      rewrite length_app, length_entry in E2. lia.
    + (* this entry is complete *)
      assert (Ht : take k (entry_bytes e ++ more)
                   = entry_bytes e ++ take (k - (4 + length e)) more).
      { rewrite take_app_ge by (rewrite length_entry; lia).
        rewrite length_entry. reflexivity. }
      rewrite Ht, take_4_entry, length_pack, drop_4_entry. cbn [Nat.eqb negb].
      rewrite (unpack_pack _ He), Nat2N.id.
      rewrite take_app_length, drop_app_length, Nat.eqb_refl. cbn [negb].
      destruct (IH (k - (4 + length e))%nat (p ++ [e]) Hes) as [n [file' Hr]].
      exists (S n), file'. subst more. rewrite Hr, <- app_assoc. reflexivity.
Qed.

(** X26 (_parse_struct).  From a file that holds only the first [k] bytes
    of the layout of a list of entries, with at least the count complete,
    [_parse_struct] reads a prefix of the list: the entries cut off by the
    end of the file are left out, no entry is altered and none is made
    up. *)
Theorem truncated_struct_gives_a_prefix :
  forall entries k,
    fits_I (length entries) ->
    Forall (fun e => fits_I (length e)) entries ->
    (4 <= k)%nat ->
    exists n file',
      _parse_struct (take k (struct_bytes entries)) = Some (take n entries, file').
Proof.
  intros entries k Hn Hf Hk. unfold _parse_struct, struct_bytes, read.
  assert (Ht : take k (pack_I (N.of_nat (length entries))
                       ++ concat (map entry_bytes entries))
               = pack_I (N.of_nat (length entries))
                 ++ take (k - 4) (concat (map entry_bytes entries))).
  { rewrite take_app_ge by (simpl; lia). reflexivity. }
  rewrite Ht.
  change (take 4 (pack_I (N.of_nat (length entries)) ++ ?x))
    with (pack_I (N.of_nat (length entries))).
  change (drop 4 (pack_I (N.of_nat (length entries)) ++ ?x)) with x.
  rewrite (unpack_pack _ Hn), Nat2N.id.
  exact (take_struct_bytes entries (k - 4) [] Hf).
Qed.

Lemma truncated_struct_gives_a_prefix_witness :
  exists file',
    _parse_struct (take 12 (struct_bytes example_entries))
    = Some ([[Byte.x45; Byte.x5a]], file').
Proof.
  destruct (truncated_struct_gives_a_prefix example_entries 12)
    as [n [file' H]].
  - reflexivity.
  - repeat constructor.
  - lia.
  - exists file'. rewrite H. f_equal. f_equal.
    assert (E : _parse_struct (take 12 (struct_bytes example_entries))
                = Some ([[Byte.x45; Byte.x5a]], [])) by reflexivity.
    rewrite E in H. injection H as H _. symmetry. exact H.
Defined.

(** *** The Huffman decoder *)

Lemma low_bits_of_low_bits bits :
  low_bits (length bits) (of_low_bits bits) = bits.
Proof.
  induction bits as [|b bits IH]; [reflexivity|].
  unfold low_bits in *. cbn [length seq map of_low_bits].
  rewrite <- seq_shift, map_map. f_equal.
  - rewrite N.add_comm. apply (N.testbit_0_r (of_low_bits bits) b).
  - etransitivity; [|exact IH]. apply map_ext. intros i.
    rewrite Nat2N.inj_succ, N.add_comm. apply N.testbit_succ_r.
Qed.

Lemma of_low_bits_lt bits :
  (of_low_bits bits < 2 ^ N.of_nat (length bits))%N.
Proof.
  induction bits as [|b bits IH]; [reflexivity|].
  cbn [length of_low_bits]. rewrite Nat2N.inj_succ, N.pow_succ_r'.
  destruct b; cbn [N.b2n]; lia.
Qed.

Lemma format_of_bits bits : format_b (length bits) (of_bits bits) = bits.
Proof.
  unfold format_b, of_bits. rewrite <- (length_rev bits).
  rewrite low_bits_of_low_bits. apply rev_involutive.
Qed.

Lemma of_bits_lt bits : (of_bits bits < 2 ^ N.of_nat (length bits))%N.
Proof.
  unfold of_bits. rewrite <- (length_rev bits). apply of_low_bits_lt.
Qed.

Lemma length_format width n : length (format_b width n) = width.
Proof.
  unfold format_b, low_bits. rewrite length_rev, length_map. apply length_seq.
Qed.

Lemma last_of_format k width n :
  (1 <= k <= width)%nat -> last_of k (format_b width n) = format_b k n.
Proof.
  intros Hk. unfold last_of. destruct (Nat.eqb_spec k 0) as [E|_]; [lia|].
  rewrite length_format. unfold format_b, low_bits.
  replace width with (k + (width - k))%nat at 2 by lia.
  rewrite seq_app, map_app, rev_app_distr.
  apply drop_app_length'. rewrite length_rev, length_map, length_seq.
  reflexivity.
Qed.

Lemma unpack_pack_H n : (n < 65536)%N -> unpack_H (pack_H n) = Some n.
Proof.
  intros Hn. unfold unpack_H, pack_H. rewrite !to_N_byte_of. f_equal.
  pose proof (N.div_mod n 256 ltac:(discriminate)) as H0.
  assert (H1 : (n / 256 < 256)%N)
    by (apply N.Div0.div_lt_upper_bound; lia).
  rewrite (N.mod_small (n / 256) 256) by exact H1. lia.
Qed.

Lemma unpack_code character bits :
  (1 <= length bits <= 32)%nat ->
  unpack_BIH (code_bytes (character, bits))
  = Some (character, of_bits bits, N.of_nat (length bits)).
Proof.
  intros Hl. unfold code_bytes, pack_I, pack_H. cbn [fst snd app unpack_BIH].
  pose proof (of_bits_lt bits) as Hb.
  assert (Hp : (2 ^ N.of_nat (length bits) <= 2 ^ 32)%N)
    by (apply N.pow_le_mono_r; lia).
  change (2 ^ 32)%N with 4294967296%N in Hp.
  change [byte_of (of_bits bits); byte_of (of_bits bits / 256);
          byte_of (of_bits bits / 65536); byte_of (of_bits bits / 16777216)]
    with (pack_I (of_bits bits)).
  change [byte_of (N.of_nat (length bits)); byte_of (N.of_nat (length bits) / 256)]
    with (pack_H (N.of_nat (length bits))).
  rewrite unpack_pack by lia. rewrite unpack_pack_H by lia. reflexivity.
Qed.

(** The dictionary the decoder builds from the table of [codes]. *)
Lemma read_table_all codes : forall d data,
  Forall (fun code => (1 <= length (snd code) <= 32)%nat) codes ->
  read_table (length codes) d (concat (map code_bytes codes) ++ data)
  = Some (rev (map (fun code => (snd code, fst code)) codes) ++ d, data).
Proof.
  induction codes as [|[character bits] codes IH]; intros d data Hf.
  - reflexivity.
  - inversion Hf as [|? ? Hl Hrest]; subst. cbn [snd] in Hl.
    cbn [length read_table map concat]. rewrite <- app_assoc.
    rewrite (read_app_exact 7 (code_bytes (character, bits)) _ eq_refl).
    cbv beta iota. rewrite (unpack_code character bits Hl). cbv beta iota.
    rewrite Nat2N.id, (last_of_format _ 32 _ Hl), format_of_bits.
    rewrite (IH _ data Hrest). unfold dict_set. cbn [rev fst snd].
    rewrite <- app_assoc. reflexivity.
Qed.

Lemma bits_eqb_eq a : forall b, bits_eqb a b = true <-> a = b.
Proof.
  induction a as [|x a IH]; intros [|y b]; cbn [bits_eqb];
    try (split; [discriminate|discriminate]); [tauto|].
  rewrite andb_true_iff, IH, Bool.eqb_true_iff.
  split; [intros [-> ->]; reflexivity | intros E; inversion E; auto].
Qed.

Lemma dict_get_In c d character :
  dict_get c d = Some character -> In (c, character) d.
Proof.
  induction d as [|[bits ch] d IH]; cbn [dict_get]; [discriminate|].
  destruct (bits_eqb c bits) eqn:E.
  - apply bits_eqb_eq in E. intros [= ->]. left. subst. reflexivity.
  - intros H. right. exact (IH H).
Qed.

Lemma In_dict_get c d character :
  In (c, character) d -> exists ch, dict_get c d = Some ch.
Proof.
  induction d as [|[bits ch] d IH]; cbn [dict_get In]; [tauto|].
  intros [E|H].
  - inversion E; subst. rewrite (proj2 (bits_eqb_eq c c) eq_refl). eauto.
  - destruct (bits_eqb c bits); eauto.
Qed.

Lemma In_dict_of (codes : list (Byte.byte * list bool)) (c : list bool)
    (character : Byte.byte) :
  In (c, character) (rev (map (fun code => (snd code, fst code)) codes) ++ [])
  <-> exists i, codes !! i = Some (character, c).
Proof.
  rewrite app_nil_r, <- in_rev, in_map_iff. split.
  - intros [[ch bits] [E H]]. cbn [fst snd] in E. inversion E; subst.
    apply list_elem_of_In, list_elem_of_lookup_1 in H. exact H.
  - intros [i H]. exists (character, c). split; [reflexivity|].
    apply list_elem_of_In. exact (list_elem_of_lookup_2 _ _ _ H).
Qed.

Lemma code_of_lookup codes character : forall bits,
  code_of codes character = Some bits ->
  exists i, codes !! i = Some (character, bits).
Proof.
  induction codes as [|[ch b] codes IH]; intros bits; cbn [code_of];
    [discriminate|].
  destruct (Byte.eqb ch character) eqn:E.
  - apply Byte.byte_dec_bl in E. intros [= ->]. subst. exists 0%nat. reflexivity.
  - intros H. destruct (IH _ H) as [i Hi]. exists (S i). exact Hi.
Qed.

(** In the dictionary of a decodable table a code is bound to its
    character, and the digits that only begin a code are bound to nothing. *)
Lemma dict_hit codes i character bits :
  decodable codes -> codes !! i = Some (character, bits) ->
  dict_get bits (rev (map (fun code => (snd code, fst code)) codes) ++ [])
  = Some character.
Proof.
  intros (_ & _ & Hp) Hi.
  destruct (In_dict_get bits _ character (proj2 (In_dict_of codes _ _) (ex_intro _ i Hi)))
    as [ch Hg].
  rewrite Hg. f_equal.
  apply dict_get_In, In_dict_of in Hg. destruct Hg as [j Hj].
  assert (E : j = i).
  { apply (Hp j i _ _ Hj Hi). exists []. cbn [snd]. symmetry. apply app_nil_r. }
  subst j. rewrite Hi in Hj. inversion Hj. reflexivity.
Qed.

Lemma dict_miss codes i character c more :
  decodable codes -> codes !! i = Some (character, c ++ more) -> more <> [] ->
  dict_get c (rev (map (fun code => (snd code, fst code)) codes) ++ []) = None.
Proof.
  intros (_ & _ & Hp) Hi Hm.
  destruct (dict_get c _) as [ch|] eqn:Hg; [|reflexivity]. exfalso.
  apply dict_get_In, In_dict_of in Hg. destruct Hg as [j Hj].
  assert (E : j = i) by (apply (Hp j i _ _ Hj Hi); exists more; reflexivity).
  subst j. rewrite Hi in Hj. injection Hj as _ E.
  apply Hm. apply (app_inv_head c). rewrite app_nil_r. exact E.
Qed.

(** Reading the digits of one code. *)
Lemma decode_code d n character bits rest :
  dict_get bits d = Some character ->
  (forall c more, bits = c ++ more -> more <> [] -> dict_get c d = None) ->
  forall coming c q,
    bits = c ++ coming -> coming <> [] -> (Z.of_nat (length q) < n)%Z ->
    decode_bits d n (coming ++ rest) c q
    = if (Z.of_nat (length (q ++ [character])) >=? n)%Z then q ++ [character]
      else decode_bits d n rest [] (q ++ [character]).
Proof.
  intros Hhit Hmiss.
  induction coming as [|b coming IH]; intros c q Hb Hs Hq; [congruence|].
  cbn [app decode_bits].
  destruct coming as [|b' coming].
  - rewrite <- Hb, Hhit. reflexivity.
  - rewrite (Hmiss (c ++ [b]) (b' :: coming)); [| |discriminate].
    2:{ rewrite <- app_assoc. exact Hb. }
    destruct (Z.geb_spec (Z.of_nat (length q)) n) as [G|_]; [lia|].
    apply IH; [|discriminate|exact Hq].
    rewrite <- app_assoc. exact Hb.
Qed.

Lemma decode_message codes n padding :
  decodable codes ->
  forall message bits q,
    encode codes message = Some bits -> message <> [] ->
    Z.of_nat (length q + length message) = n ->
    decode_bits (rev (map (fun code => (snd code, fst code)) codes) ++ []) n
      (bits ++ padding) [] q
    = q ++ message.
Proof.
  intros Hd. induction message as [|ch message IH]; intros bits q He Hm Hn;
    [congruence|].
  cbn [encode] in He.
  destruct (code_of codes ch) as [cb|] eqn:Hc; [|discriminate].
  destruct (encode codes message) as [more|] eqn:Hmore; [|discriminate].
  injection He as <-.
  destruct (code_of_lookup _ _ _ Hc) as [i Hi].
  assert (Hne : cb <> []).
  { destruct Hd as (_ & Hl & _).
    pose proof (proj1 (Forall_lookup _ _) Hl i _ Hi) as L. cbn [snd] in L.
    intros ->. cbn [length] in L. lia. }
  rewrite <- app_assoc.
  rewrite (decode_code _ n ch cb (more ++ padding) (dict_hit _ _ _ _ Hd Hi)).
  - rewrite length_app.
    destruct message as [|ch' message]; cbn [length] in *.
    + destruct (Z.geb_spec (Z.of_nat (length q + 1)) n) as [_|L]; [reflexivity|lia].
    + destruct (Z.geb_spec (Z.of_nat (length q + 1)) n) as [G|_]; [lia|].
      rewrite (IH more (q ++ [ch]) eq_refl); [|discriminate|].
      * rewrite <- app_assoc. reflexivity.
      * rewrite length_app. cbn [length]. lia.
  - intros c rest E Hrest. subst cb.
    exact (dict_miss _ _ _ _ _ Hd Hi Hrest).
  - reflexivity.
  - exact Hne.
  - cbn [length] in Hn. lia.
Qed.

(** X29 (_huffman_decode_python).  Round trip: for a table of codes the
    layout can hold and none of which begins another, and a message that is
    not empty and whose characters all have a code, the decoder reads the
    message back from the bytes of the table followed by any bytes whose
    binary digits, the most significant first, begin with the codes of the
    message; the digits after them are not looked at. *)
Theorem huffman_decode_reads_back_the_message :
  forall codes message bits padding data,
    decodable codes ->
    message <> [] ->
    encode codes message = Some bits ->
    bit_generator data = bits ++ padding ->
    _huffman_decode_python (table_bytes codes ++ data) (Z.of_nat (length message))
    = Some message.
Proof.
  intros codes message bits padding data Hd Hm He Hbits.
  unfold _huffman_decode_python, table_bytes. rewrite <- app_assoc.
  rewrite (read_app_exact 2 (pack_H _) _ eq_refl). cbv beta iota.
  pose proof Hd as (Hn & Hl & _).
  rewrite (unpack_pack_H _ Hn), Nat2N.id.
  rewrite (read_table_all codes [] data Hl). f_equal.
  rewrite Hbits.
  apply (decode_message codes _ padding Hd message bits [] He Hm eq_refl).
Qed.

Lemma example_codes_decodable : decodable example_codes.
Proof.
  split; [reflexivity|]. split.
  - repeat constructor.
  - intros i j ci cj Hi Hj [more E].
    destruct i as [|[|[|i]]]; try discriminate;
      destruct j as [|[|[|j]]]; try discriminate;
      injection Hi as <-; injection Hj as <-; cbn [snd app] in E;
      try reflexivity; discriminate.
Qed.

Lemma huffman_decode_reads_back_the_message_witness :
  _huffman_decode_python (table_bytes example_codes ++ [Byte.x58]) 3
  = Some [Byte.x61; Byte.x62; Byte.x63].
Proof.
  exact (huffman_decode_reads_back_the_message example_codes
           [Byte.x61; Byte.x62; Byte.x63]
           [false; true; false; true; true] [false; false; false] [Byte.x58]
           example_codes_decodable ltac:(discriminate) eq_refl eq_refl).
Defined.

Lemma decode_bits_bound d n : forall bits c q,
  (Z.of_nat (length q) <= Z.max 1 n - 1)%Z ->
  (Z.of_nat (length (decode_bits d n bits c q)) <= Z.max 1 n)%Z.
Proof.
  induction bits as [|b bits IH]; intros c q Hq; cbn [decode_bits]; [lia|].
  destruct (dict_get (c ++ [b]) d) as [m|].
  - destruct (Z.geb_spec (Z.of_nat (length (q ++ [m]))) n) as [G|L];
      rewrite length_app in *; cbn [length] in *; [lia|].
    apply IH. rewrite length_app. cbn [length]. lia.
  - destruct (Z.geb_spec (Z.of_nat (length q)) n) as [G|L]; [lia|].
    apply IH. lia.
Qed.

(** X30 (_huffman_decode_python).  The decoder returns at most
    [uncompressed_length] characters, whatever the table and the data are;
    only for an [uncompressed_length] of 0 or less can it return one
    character, the length being tested after the first digit is read. *)
Theorem huffman_decode_stops_at_the_length :
  forall file uncompressed_length q,
    _huffman_decode_python file uncompressed_length = Some q ->
    (Z.of_nat (length q) <= Z.max 1 uncompressed_length)%Z.
Proof.
  intros file n q. unfold _huffman_decode_python.
  destruct (read 2 file) as [b rest].
  destruct (unpack_H b) as [table_length|]; [|discriminate].
  destruct (read_table _ [] rest) as [[d data]|]; [|discriminate].
  intros [= <-]. apply decode_bits_bound. cbn [length]. lia.
Qed.

Lemma huffman_decode_stops_at_the_length_witness :
  _huffman_decode_python (table_bytes example_codes ++ [Byte.x58]) 0
  = Some [Byte.x61]
  /\ (1 <= Z.max 1 0)%Z.
Proof.
  split; [reflexivity|].
  exact (huffman_decode_stops_at_the_length
           (table_bytes example_codes ++ [Byte.x58]) 0 [Byte.x61] eq_refl).
Defined.


End EzdFacts.

(** ** Facts about the console *)

Module ConsoleFacts.
Import Console.

Lemma text_eqb_eq a b : text_eqb a b = true <-> a = b.
Proof.
  unfold text_eqb. rewrite String.eqb_eq. split; [|intros ->; reflexivity].
  intros H. rewrite <- (list_ascii_of_string_of_list_ascii a),
                    <- (list_ascii_of_string_of_list_ascii b), H. reflexivity.
Qed.

Lemma text_eqb_neq a b : text_eqb a b = false <-> a <> b.
Proof.
  rewrite <- text_eqb_eq. destruct (text_eqb a b); split; congruence.
Qed.








(** *** The commands run at every tick *)

Lemma differs_spec command c : differs command c = true <-> c <> command.
Proof.
  unfold differs. rewrite negb_true_iff. apply text_eqb_neq.
Qed.

Lemma filter_differs_NoDup command l :
  NoDup l -> NoDup (List.filter (differs command) l).
Proof.
  induction 1 as [|x l Hx Hl IH]; simpl; [constructor|].
  destruct (differs command x); [|exact IH].
  constructor; [|exact IH]. rewrite list_elem_of_In, filter_In, <- list_elem_of_In.
  intros [H _]. contradiction.
Qed.

Lemma filter_differs_out command l : command ∉ List.filter (differs command) l.
Proof.
  rewrite list_elem_of_In, filter_In. intros [_ H].
  apply differs_spec in H. congruence.
Qed.

Lemma tick_keeps_NoDup c t0 : NoDup (commands c) -> NoDup (commands (tick c t0)).
Proof.
  intros H. destruct t0 as [command|command|]; simpl; [| |constructor].
  - apply NoDup_app. split; [apply filter_differs_NoDup, H|].
    split; [|apply NoDup_singleton].
    intros x Hx Hx'. apply list_elem_of_singleton in Hx'. subst.
    exact (filter_differs_out _ _ Hx).
  - apply filter_differs_NoDup, H.
Qed.

Lemma ticked_NoDup ts : forall c,
  NoDup (commands c) -> NoDup (commands (fold_left tick ts c)).
Proof.
  induction ts as [|t0 ts IH]; intros c H; [exact H|].
  simpl. apply IH, tick_keeps_NoDup, H.
Qed.

(** X28 (Console.tick_command, untick_command).  Whatever calls of
    [tick_command] and [untick_command] are made on a new console, and
    whenever the command [end] clears the list in between,
    [self.commands] never holds a command twice.  [tick_command] puts its
    command last, after the others in the order they had, and calls
    [schedule()]; [untick_command] takes its command out, keeps the others
    in order, and calls [unschedule()] exactly when no command is left. *)
Theorem a_command_is_ticked_once :
  forall ts command,
    let c := ticked ts in
    NoDup (commands c)
    /\ commands (tick_command command c)
       = List.filter (differs command) (commands c) ++ [command]
    /\ NoDup (commands (tick_command command c))
    /\ (command ∉ commands (untick_command command c))
    /\ (forall other,
          other <> command ->
          (other ∈ commands (untick_command command c) <-> other ∈ commands c))
    /\ said (untick_command command c)
       = said c ++ (match commands (untick_command command c) with
                    | [] => [Unschedule]
                    | _ :: _ => []
                    end).
Proof.
  intros ts command c.
  assert (Hd : NoDup (commands c)) by (apply ticked_NoDup; constructor).
  split; [exact Hd|]. split; [reflexivity|].
  split; [exact (tick_keeps_NoDup c (Tick command) Hd)|].
  split; [apply filter_differs_out|]. split.
  - intros other Ho. simpl. rewrite !list_elem_of_In, filter_In.
    split; [intros [H _]; exact H|]. intros H. split; [exact H|].
    apply differs_spec. exact Ho.
  - simpl. destruct (List.filter (differs command) (commands c)); reflexivity.
Qed.

End ConsoleFacts.
